(** * Log parsers of the SWE-bench harness (swebench/harness/log_parsers/python.py)

    A shallow embedding of the Python module and the verification of the
    properties its specification states.

    A log is a Python [str]; it is modelled as a [string] whose characters
    are the code points below 256.  A result dictionary is a finite map from
    test names to status strings.  Python exceptions ([IndexError] of a list
    index, [KeyError] of a dictionary lookup) are results of an error monad. *)

From Stdlib Require Import Ascii String ZArith Lia Bool.
From stdpp Require Import gmap strings.

Local Open Scope stdpp_scope.

(** ** Exceptions *)

Inductive exn := IndexError | KeyError.

Inductive result (A : Type) : Type :=
| Ok (a : A)
| Raise (e : exn).
Arguments Ok {A} a.
Arguments Raise {A} e.

#[global] Instance result_ret : MRet result := fun A a => Ok a.
#[global] Instance result_bind : MBind result := fun A B f m =>
  match m with
  | Ok a => f a
  | Raise e => Raise e
  end.

(** [for x in l: body], the body threading the loop's state. *)
Fixpoint for_each {S A : Type} (body : S -> A -> result S) (l : list A) (s : S)
  : result S :=
  match l with
  | [] => Ok s
  | x :: l' => s' ← body s x; for_each body l' s'
  end.

(** [l[i]] for [0 <= i]. *)
Definition index {A : Type} (l : list A) (i : nat) : result A :=
  match l !! i with
  | Some x => Ok x
  | None => Raise IndexError
  end.

(** [l[-1]]. *)
Definition index_last {A : Type} (l : list A) : result A :=
  match last l with
  | Some x => Ok x
  | None => Raise IndexError
  end.

(** ** Characters *)

Module Char.

Definition code (c : ascii) : nat := nat_of_ascii c.

Definition between (lo hi : nat) (c : ascii) : bool :=
  (lo <=? code c) && (code c <=? hi).

Definition one (a : ascii) (c : ascii) : bool := Ascii.eqb a c.

(** [str.isspace] on the code points below 256; also the class [\s]. *)
Definition isspace (c : ascii) : bool :=
  between 9 13 c || between 28 32 c || (code c =? 133) || (code c =? 160).

(** The class [\d]: the decimal digits. *)
Definition isdigit (c : ascii) : bool := between 48 57 c.

(** The class [\w]: alphanumeric characters and the underscore. *)
Definition isword (c : ascii) : bool :=
  between 48 57 c || between 65 90 c || between 97 122 c || (code c =? 95)
  || (code c =? 170) || (code c =? 178) || (code c =? 179) || (code c =? 181)
  || between 185 186 c || between 188 190 c
  || between 192 214 c || between 216 246 c || between 248 255 c.

(** The class [[0-9A-Fa-f]]. *)
Definition ishex (c : ascii) : bool :=
  between 48 57 c || between 65 70 c || between 97 102 c.

(** The class [.]: anything but a newline. *)
Definition isdot (c : ascii) : bool := negb (one "010"%char c).

Definition any (c : ascii) : bool := true.

Definition non (p : ascii -> bool) (c : ascii) : bool := negb (p c).

End Char.

(** ** Python's string operations *)

Module Str.

Definition len (s : string) : nat := String.length s.

Fixpoint drop (n : nat) (s : string) : string :=
  match n, s with
  | S n', String _ s' => drop n' s'
  | _, _ => s
  end.

Fixpoint take (n : nat) (s : string) : string :=
  match n, s with
  | S n', String c s' => String c (take n' s')
  | _, _ => ""
  end.

(** [s.startswith(p)] *)
Fixpoint startswith (p s : string) : bool :=
  match p, s with
  | "", _ => true
  | String a p', String b s' => Ascii.eqb a b && startswith p' s'
  | String _ _, "" => false
  end.

(** [s.endswith(p)] *)
Definition endswith (p s : string) : bool :=
  (len p <=? len s) && String.eqb (drop (len s - len p) s) p.

(** [sub in s] *)
Fixpoint contains (sub s : string) : bool :=
  match s with
  | "" => startswith sub ""
  | String _ s' => startswith sub s || contains sub s'
  end.

(** [s.find(sub)]: the least index of an occurrence, [-1] without one. *)
Fixpoint find (sub s : string) : Z :=
  if startswith sub s then 0%Z
  else match s with
       | "" => (-1)%Z
       | String _ s' =>
           let i := find sub s' in
           if (i <? 0)%Z then (-1)%Z else (i + 1)%Z
       end.

(** [s[i:]], a negative [i] counting from the end. *)
Definition slice_from (i : Z) (s : string) : string :=
  if (i <? 0)%Z then drop (Z.to_nat (Z.of_nat (len s) + i)) s
  else drop (Z.to_nat i) s.

(** [s.count(sub)] for a non-empty [sub]: occurrences that do not overlap,
    from the left; [skip] characters of the last occurrence are still to
    be passed. *)
Fixpoint count_go (sub : string) (skip : nat) (s : string) : nat :=
  match s with
  | "" => 0
  | String _ s' =>
      match skip with
      | S n => count_go sub n s'
      | O => if startswith sub s then S (count_go sub (len sub - 1) s')
             else count_go sub 0 s'
      end
  end.
Definition count (sub s : string) : nat := count_go sub 0 s.

(** [s.replace(old, new)] for a non-empty [old]. *)
Fixpoint replace_go (old new : string) (skip : nat) (s : string) : string :=
  match s with
  | "" => ""
  | String c s' =>
      match skip with
      | S n => replace_go old new n s'
      | O => if startswith old s
             then new +:+ replace_go old new (len old - 1) s'
             else String c (replace_go old new 0 s')
      end
  end.
Definition replace (old new s : string) : string := replace_go old new 0 s.

(** Puts a character in front of the first piece of a split. *)
Definition cons_head (c : ascii) (l : list string) : list string :=
  match l with
  | h :: t => String c h :: t
  | [] => [String c ""]
  end.

(** [s.split(sep)] for a non-empty [sep]. *)
Fixpoint split_go (sep : string) (skip : nat) (s : string) : list string :=
  match s with
  | "" => [""]
  | String c s' =>
      match skip with
      | S n => split_go sep n s'
      | O => if startswith sep s
             then "" :: split_go sep (len sep - 1) s'
             else cons_head c (split_go sep 0 s')
      end
  end.
Definition split (sep s : string) : list string := split_go sep 0 s.

(** [s.split(sep, 1)]: split at the first occurrence only. *)
Fixpoint split1 (sep s : string) : list string :=
  if startswith sep s then [""; drop (len sep) s]
  else match s with
       | "" => [""]
       | String c s' => cons_head c (split1 sep s')
       end.

(** [s.rsplit(sep, 1)[0]] for a non-empty [sep]: what is before the last
    occurrence, if there is one. *)
Fixpoint before_last (sep s : string) : option string :=
  match s with
  | "" => None
  | String c s' =>
      match before_last sep s' with
      | Some h => Some (String c h)
      | None => if startswith sep s then Some "" else None
      end
  end.
Definition rsplit1_head (sep s : string) : string :=
  default s (before_last sep s).

(** [s.split()]: the maximal runs of characters that are not white space. *)
Fixpoint split_ws (s : string) : list string :=
  match s with
  | "" => []
  | String c s' =>
      if Char.isspace c then split_ws s'
      else match s' with
           | "" => [String c ""]
           | String c' _ =>
               if Char.isspace c' then String c "" :: split_ws s'
               else cons_head c (split_ws s')
           end
  end.

(** [s.lstrip()], [s.rstrip()], [s.strip()] *)
Fixpoint lstrip (s : string) : string :=
  match s with
  | "" => ""
  | String c s' => if Char.isspace c then lstrip s' else s
  end.

Fixpoint rstrip (s : string) : string :=
  match s with
  | "" => ""
  | String c s' =>
      match rstrip s' with
      | "" => if Char.isspace c then "" else String c ""
      | r => String c r
      end
  end.

Definition strip (s : string) : string := rstrip (lstrip s).

(** [s.translate(t)] for a table [t] that deletes characters and maps none. *)
Fixpoint delete_chars (deleted : ascii -> bool) (s : string) : string :=
  match s with
  | "" => ""
  | String c s' =>
      if deleted c then delete_chars deleted s'
      else String c (delete_chars deleted s')
  end.

(** [sep.join(l)] *)
Fixpoint join (sep : string) (l : list string) : string :=
  match l with
  | [] => ""
  | [x] => x
  | x :: l' => x +:+ sep +:+ join sep l'
  end.

(** The join of [l] on the empty separator. *)
Fixpoint concat (l : list string) : string :=
  match l with
  | [] => ""
  | x :: l' => x +:+ concat l'
  end.

End Str.

(** ** Python's regular expressions

    The part of [re] the module uses: every quantifier of its patterns is on
    a single character class.  Matching is by backtracking with the priority
    of [re]: the left alternative first, a greedy quantifier the longest run
    first, a lazy one the shortest first. *)

Module Re.

Inductive regex :=
| Chr (p : ascii -> bool)
| Lit (l : string)
| Cat (r1 r2 : regex)
| Alt (r1 r2 : regex)
| Rep (greedy : bool) (lo : nat) (hi : option nat) (p : ascii -> bool)
| Grp (n : nat) (r : regex)
| Bol
| Eol
| WordB.

(** The groups that took part in a match, the last one to close first. *)
Definition captures := list (nat * string).

Definition allows (hi : option nat) : bool :=
  match hi with
  | Some O => false
  | _ => true
  end.

Definition isword_opt (c : option ascii) : bool :=
  match c with
  | Some c => Char.isword c
  | None => false
  end.

Definition first_char (s : string) : option ascii :=
  match s with
  | String c _ => Some c
  | "" => None
  end.

(** [^] and [$] under [re.MULTILINE], and [\b]. *)
Definition at_bol (prev : option ascii) : bool :=
  match prev with
  | None => true
  | Some c => Char.one "010"%char c
  end.

Definition at_eol (s : string) : bool :=
  match s with
  | "" => true
  | String c _ => Char.one "010"%char c
  end.

Definition at_wordb (prev : option ascii) (s : string) : bool :=
  xorb (isword_opt prev) (isword_opt (first_char s)).

Section Matcher.
Context {R : Type}.

Fixpoint lit (l : string) (prev : option ascii) (s : string)
    (k : option ascii -> string -> option R) : option R :=
  match l with
  | "" => k prev s
  | String a l' =>
      match s with
      | String b s' => if Ascii.eqb a b then lit l' (Some b) s' k else None
      | "" => None
      end
  end.

Fixpoint rep (greedy : bool) (p : ascii -> bool) (lo : nat) (hi : option nat)
    (prev : option ascii) (s : string)
    (k : option ascii -> string -> option R) {struct s} : option R :=
  let more := fun _ : unit =>
    match s with
    | String c s' =>
        if p c && allows hi
        then rep greedy p (pred lo) (pred <$> hi) (Some c) s' k
        else None
    | "" => None
    end in
  match lo with
  | S _ => more tt
  | O =>
      if greedy
      then match more tt with
           | Some x => Some x
           | None => k prev s
           end
      else match k prev s with
           | Some x => Some x
           | None => more tt
           end
  end.

(** [exec r prev s caps k]: match [r] at the front of [s], the character
    before it being [prev], then go on with [k]. *)
Fixpoint exec (r : regex) (prev : option ascii) (s : string) (caps : captures)
    (k : option ascii -> string -> captures -> option R) : option R :=
  match r with
  | Chr p =>
      match s with
      | String c s' => if p c then k (Some c) s' caps else None
      | "" => None
      end
  | Lit l => lit l prev s (fun prev' s' => k prev' s' caps)
  | Cat r1 r2 =>
      exec r1 prev s caps (fun prev' s' caps' => exec r2 prev' s' caps' k)
  | Alt r1 r2 =>
      match exec r1 prev s caps k with
      | Some x => Some x
      | None => exec r2 prev s caps k
      end
  | Rep greedy lo hi p =>
      rep greedy p lo hi prev s (fun prev' s' => k prev' s' caps)
  | Grp n r =>
      exec r prev s caps (fun prev' s' caps' =>
        k prev' s' ((n, Str.take (Str.len s - Str.len s') s) :: caps'))
  | Bol => if at_bol prev then k prev s caps else None
  | Eol => if at_eol s then k prev s caps else None
  | WordB => if at_wordb prev s then k prev s caps else None
  end.
End Matcher.

(** A match at the front of [s]: what is left of [s] and the groups. *)
Definition match_at (r : regex) (prev : option ascii) (s : string)
  : option (string * captures) :=
  exec r prev s [] (fun _ s' caps => Some (s', caps)).

(** [m.group(n)]; group 0 is the whole match. *)
Fixpoint group (n : nat) (caps : captures) : string :=
  match caps with
  | [] => ""
  | (i, x) :: caps' => if i =? n then x else group n caps'
  end.

(** [re.finditer(r, s)]: the matches from the left that do not overlap.
    [skip] characters of the last match are still to be passed.  No pattern
    of the module matches the empty string; after such a match the scan
    here moves on by one character. *)
Fixpoint finditer_go (r : regex) (skip : nat) (prev : option ascii) (s : string)
  : list captures :=
  match skip with
  | S n =>
      match s with
      | String c s' => finditer_go r n (Some c) s'
      | "" => []
      end
  | O =>
      match match_at r prev s with
      | Some (s1, caps) =>
          let n := Str.len s - Str.len s1 in
          ((0, Str.take n s) :: caps) ::
          match s with
          | String c s' => finditer_go r (n - 1) (Some c) s'
          | "" => []
          end
      | None =>
          match s with
          | String c s' => finditer_go r 0 (Some c) s'
          | "" => []
          end
      end
  end.
Definition finditer (r : regex) (s : string) : list captures :=
  finditer_go r 0 None s.

(** [re.search(r, s)] *)
Definition search (r : regex) (s : string) : option captures :=
  head (finditer r s).

(** [re.sub(r, repl, s)] for a [repl] without group references. *)
Fixpoint sub_go (r : regex) (repl : string) (skip : nat) (prev : option ascii)
    (s : string) : string :=
  match s with
  | "" =>
      match skip, match_at r prev "" with
      | O, Some _ => repl
      | _, _ => ""
      end
  | String c s' =>
      match skip with
      | S n => sub_go r repl n (Some c) s'
      | O =>
          match match_at r prev s with
          | Some (s1, _) =>
              match Str.len s - Str.len s1 with
              | O => repl +:+ String c (sub_go r repl 0 (Some c) s')
              | S n => repl +:+ sub_go r repl n (Some c) s'
              end
          | None => String c (sub_go r repl 0 (Some c) s')
          end
      end
  end.
Definition sub (r : regex) (repl : string) (s : string) : string :=
  sub_go r repl 0 None s.

(** Writing patterns. *)
Fixpoint seq (l : list regex) : regex :=
  match l with
  | [] => Lit ""
  | [r] => r
  | r :: l' => Cat r (seq l')
  end.

Fixpoint alts (l : list regex) : regex :=
  match l with
  | [] => Chr (fun _ => false)
  | [r] => r
  | r :: l' => Alt r (alts l')
  end.

Definition star (p : ascii -> bool) : regex := Rep true 0 None p.
Definition plus (p : ascii -> bool) : regex := Rep true 1 None p.
Definition lazy_star (p : ascii -> bool) : regex := Rep false 0 None p.
Definition exactly (n : nat) (p : ascii -> bool) : regex := Rep true n (Some n) p.
Definition at_least (n : nat) (p : ascii -> bool) : regex := Rep true n None p.

End Re.

(** The line separator. *)
Definition nl : string := String "010"%char "".

(** ** The status lexicon *)

(** Modelled from the spec: the enumeration [TestStatus] of
    [swebench.harness.constants], which the module imports and which is not
    part of the sources at hand.  The specification gives the closed set
    Passed, Failed, Error, Skipped, ExpectedFailure (xfail) and the canonical
    forms ["PASSED"], ["FAILED"]. *)
Inductive TestStatus := FAILED | PASSED | SKIPPED | ERROR | XFAIL.

Definition value (x : TestStatus) : string :=
  match x with
  | FAILED => "FAILED"
  | PASSED => "PASSED"
  | SKIPPED => "SKIPPED"
  | ERROR => "ERROR"
  | XFAIL => "XFAIL"
  end.

(** [for x in TestStatus] *)
Definition TestStatus_members : list TestStatus :=
  [FAILED; PASSED; SKIPPED; ERROR; XFAIL].

(** A string is canonical when it is the value of a member. *)
Definition canonical (v : string) : Prop := exists x : TestStatus, v = value x.

Definition canonicalb (v : string) : bool :=
  existsb (fun x => String.eqb v (value x)) TestStatus_members.

(** [any([line.startswith(x.value) for x in TestStatus])] *)
Definition starts_with_status (line : string) : bool :=
  existsb (fun x => Str.startswith (value x) line) TestStatus_members.

(** [any([line.endswith(x.value) for x in TestStatus])] *)
Definition ends_with_status (line : string) : bool :=
  existsb (fun x => Str.endswith (value x) line) TestStatus_members.

(** ** parse_log_pytest *)

(** The body of the loop: one line of the log. *)
Definition pytest_line (test_status_map : gmap string string) (line : string)
  : result (gmap string string) :=
  if starts_with_status line then
    let line := if Str.startswith (value FAILED) line
                then Str.replace " - " " " line else line in
    let test_case := Str.split_ws line in
    if length test_case <=? 1 then Ok test_status_map
    else
      k ← index test_case 1;
      v ← index test_case 0;
      Ok (<[k := v]> test_status_map)
  else Ok test_status_map.

Definition parse_log_pytest (log : string) : result (gmap string string) :=
  for_each pytest_line (Str.split nl log) ∅.

(** ** parse_log_pytest_options *)

(** The pattern of a name with options: any text, as short as can be, then
    a bracket, any text, as long as can be, and a closing bracket; the two
    texts are groups 1 and 2. *)
Definition option_pattern : Re.regex :=
  Re.seq [Re.Grp 1 (Re.lazy_star Char.isdot); Re.Lit "[";
          Re.Grp 2 (Re.star Char.isdot); Re.Lit "]"].

(** The name under which a test is recorded, from the second token of its
    line. *)
Definition option_test_name (token : string) : result string :=
  match Re.search option_pattern token with
  | Some has_option =>
      let main := Re.group 1 has_option in
      let option := Re.group 2 has_option in
      option ←
        (if Str.startswith "/" option && negb (Str.startswith "//" option)
            && negb (Str.contains "*" option)
         then last_part ← index_last (Str.split "/" option);
              Ok ("/" +:+ last_part)
         else Ok option);
      Ok (main +:+ "[" +:+ option +:+ "]")
  | None => Ok token
  end.

Definition pytest_options_line (test_status_map : gmap string string)
    (line : string) : result (gmap string string) :=
  if starts_with_status line then
    let line := if Str.startswith (value FAILED) line
                then Str.replace " - " " " line else line in
    let test_case := Str.split_ws line in
    if length test_case <=? 1 then Ok test_status_map
    else
      token ← index test_case 1;
      test_name ← option_test_name token;
      v ← index test_case 0;
      Ok (<[test_name := v]> test_status_map)
  else Ok test_status_map.

Definition parse_log_pytest_options (log : string)
  : result (gmap string string) :=
  for_each pytest_options_line (Str.split nl log) ∅.

(** ** parse_log_django *)

Record django_state := {
  status_map : gmap string string;
  prev_test : option string
}.

Definition pass_suffixes : list string := [" ... ok"; " ... OK"; " ...  OK"].

Definition migration_noise : string :=
  "Applying sites.0002_alter_domain_unique...test_no_migrations".

(** [for suffix in pass_suffixes: if line.endswith(suffix): ...; break]:
    the line, which the loop may rewrite, and the map. *)
Fixpoint django_pass_suffixes (suffixes : list string) (line : string)
    (m : gmap string string) : result (string * gmap string string) :=
  match suffixes with
  | [] => Ok (line, m)
  | suffix :: suffixes' =>
      if Str.endswith suffix line then
        line ←
          (if Str.startswith migration_noise (Str.strip line)
           then tail ← index_last (Str.split1 "..." line); Ok (Str.strip tail)
           else Ok line);
        let test := Str.rsplit1_head suffix line in
        Ok (line, <[test := value PASSED]> m)
      else django_pass_suffixes suffixes' line m
  end.

(** [if cond: test = line.split(sep)[0]; test_status_map[test] = status] *)
Definition django_record_before (cond : bool) (sep line : string)
    (status : TestStatus) (m : gmap string string)
  : result (gmap string string) :=
  if cond then test ← index (Str.split sep line) 0; Ok (<[test := value status]> m)
  else Ok m.

(** [if line.startswith(label): test = line.split()[1].strip(); ...] *)
Definition django_record_labelled (label line : string) (status : TestStatus)
    (m : gmap string string) : result (gmap string string) :=
  if Str.startswith label line
  then test ← index (Str.split_ws line) 1;
       Ok (<[Str.strip test := value status]> m)
  else Ok m.

Definition django_line (st : django_state) (line : string) : result django_state :=
  let line := Str.strip line in
  let m := status_map st in
  let m := if Str.contains "--version is equivalent to version" line
           then <["--version is equivalent to version" := value PASSED]> m
           else m in
  prev ← (if Str.contains " ... " line
          then t ← index (Str.split " ... " line) 0; Ok (Some t)
          else Ok (prev_test st));
  '(line, m) ← django_pass_suffixes pass_suffixes line m;
  m ← django_record_before (Str.contains " ... skipped" line) " ... skipped"
        line SKIPPED m;
  m ← django_record_before (Str.endswith " ... FAIL" line) " ... FAIL"
        line FAILED m;
  m ← django_record_labelled "FAIL:" line FAILED m;
  m ← django_record_before (Str.endswith " ... ERROR" line) " ... ERROR"
        line ERROR m;
  m ← django_record_labelled "ERROR:" line ERROR m;
  let m := match prev with
           | Some test =>
               if Str.startswith "ok" (Str.lstrip line)
               then <[test := value PASSED]> m else m
           | None => m
           end in
  Ok {| status_map := m; prev_test := prev |}.

(** The three patterns of the interrupted status lines, [re.MULTILINE]. *)
Definition django_patterns : list Re.regex :=
  [ Re.seq [Re.Bol; Re.Grp 1 (Re.lazy_star Char.isdot); Re.Chr Char.isspace;
            Re.Lit "..."; Re.Chr Char.isspace;
            Re.Lit "Testing against Django installed in ";
            Re.Grp 2 (Re.lazy_star Char.any); Re.Lit " silenced).";
            Re.Lit nl; Re.Lit "ok"; Re.Eol];
    Re.seq [Re.Bol; Re.Grp 1 (Re.lazy_star Char.isdot); Re.Chr Char.isspace;
            Re.Lit "..."; Re.Chr Char.isspace;
            Re.Lit "Internal Server Error: /";
            Re.Grp 2 (Re.star Char.isdot); Re.Lit "/";
            Re.Lit nl; Re.Lit "ok"; Re.Eol];
    Re.seq [Re.Bol; Re.Grp 1 (Re.lazy_star Char.isdot); Re.Chr Char.isspace;
            Re.Lit "..."; Re.Chr Char.isspace;
            Re.Lit "System check identified no issues (0 silenced)";
            Re.Lit nl; Re.Lit "ok"; Re.Eol] ].

(** [for match in re.finditer(pattern, log, re.MULTILINE):
       test_status_map[match.group(1)] = PASSED] *)
Definition django_record_matches (log : string) (m : gmap string string)
    (pattern : Re.regex) : gmap string string :=
  foldl (fun m caps => <[Re.group 1 caps := value PASSED]> m) m
        (Re.finditer pattern log).

Definition parse_log_django (log : string) : result (gmap string string) :=
  st ← for_each django_line (Str.split nl log)
         {| status_map := ∅; prev_test := None |};
  Ok (foldl (django_record_matches log) (status_map st) django_patterns).

(** ** parse_log_pytest_v2 *)

(** The characters [chr(char) for char in range(1, 32)]. *)
Definition escapes (c : ascii) : bool := Char.between 1 31 c.

(** [r"\[(\d+)m"] *)
Definition ansi_remnant : Re.regex :=
  Re.seq [Re.Lit "["; Re.Grp 1 (Re.plus Char.isdigit); Re.Lit "m"].

Definition pytest_v2_line (test_status_map : gmap string string) (line : string)
  : result (gmap string string) :=
  let line := Re.sub ansi_remnant "" line in
  let line := Str.delete_chars escapes line in
  if starts_with_status line then
    let line := if Str.startswith (value FAILED) line
                then Str.replace " - " " " line else line in
    let test_case := Str.split_ws line in
    if 2 <=? length test_case then
      k ← index test_case 1;
      v ← index test_case 0;
      Ok (<[k := v]> test_status_map)
    else Ok test_status_map
  else if ends_with_status line then
    let test_case := Str.split_ws line in
    if 2 <=? length test_case then
      k ← index test_case 0;
      v ← index test_case 1;
      Ok (<[k := v]> test_status_map)
    else Ok test_status_map
  else Ok test_status_map.

Definition parse_log_pytest_v2 (log : string) : result (gmap string string) :=
  for_each pytest_v2_line (Str.split nl log) ∅.

(** ** parse_log_seaborn *)

Definition seaborn_line (test_status_map : gmap string string) (line : string)
  : result (gmap string string) :=
  if Str.startswith (value FAILED) line then
    test_case ← index (Str.split_ws line) 1;
    Ok (<[test_case := value FAILED]> test_status_map)
  else if Str.contains (" " +:+ value PASSED +:+ " ") line then
    let parts := Str.split_ws line in
    p1 ← index parts 1;
    if String.eqb p1 (value PASSED) then
      test_case ← index parts 0;
      Ok (<[test_case := value PASSED]> test_status_map)
    else Ok test_status_map
  else if Str.startswith (value PASSED) line then
    let parts := Str.split_ws line in
    test_case ← index parts 1;
    Ok (<[test_case := value PASSED]> test_status_map)
  else Ok test_status_map.

Definition parse_log_seaborn (log : string) : result (gmap string string) :=
  for_each seaborn_line (Str.split nl log) ∅.

(** ** parse_log_sympy *)

(** The banner pattern: underscores, a space, any text, [.py:], any text, a
    space, underscores; the four runs are groups 1 to 4, each as long as can
    be and each possibly empty. *)
Definition sympy_pattern : Re.regex :=
  Re.seq [Re.Grp 1 (Re.star (Char.one "_"%char)); Re.Lit " ";
          Re.Grp 2 (Re.star Char.isdot); Re.Lit ".py:";
          Re.Grp 3 (Re.star Char.isdot); Re.Lit " ";
          Re.Grp 4 (Re.star (Char.one "_"%char))].

(** [if line.endswith(mark): test = line.split()[0]; ...] *)
Definition sympy_record (mark line : string) (status : TestStatus)
    (m : gmap string string) : result (gmap string string) :=
  if Str.endswith mark line
  then test ← index (Str.split_ws line) 0; Ok (<[test := value status]> m)
  else Ok m.

Definition sympy_line (test_status_map : gmap string string) (line : string)
  : result (gmap string string) :=
  let line := Str.strip line in
  if Str.startswith "test_" line then
    m ← sympy_record " E" line ERROR test_status_map;
    m ← sympy_record " F" line FAILED m;
    sympy_record " ok" line PASSED m
  else Ok test_status_map.

(** The first loop: the matches of the pattern in the whole log. *)
Definition sympy_matches (log : string) : gmap string string :=
  foldl (fun m caps =>
           <[Re.group 2 caps +:+ ".py:" +:+ Re.group 3 caps := value FAILED]> m)
        ∅ (Re.finditer sympy_pattern log).

Definition parse_log_sympy (log : string) : result (gmap string string) :=
  for_each sympy_line (Str.split nl log) (sympy_matches log).

(** ** parse_log_matplotlib *)

Definition matplotlib_line (test_status_map : gmap string string) (line : string)
  : result (gmap string string) :=
  let line := Str.replace "MouseButton.LEFT" "1" line in
  let line := Str.replace "MouseButton.RIGHT" "3" line in
  if starts_with_status line then
    let line := if Str.startswith (value FAILED) line
                then Str.replace " - " " " line else line in
    let test_case := Str.split_ws line in
    if length test_case <=? 1 then Ok test_status_map
    else
      k ← index test_case 1;
      v ← index test_case 0;
      Ok (<[k := v]> test_status_map)
  else Ok test_status_map.

Definition parse_log_matplotlib (log : string) : result (gmap string string) :=
  for_each matplotlib_line (Str.split nl log) ∅.

(** ** The generic parsers *)

(** The first pass: a status label, white space, the rest of the line. *)
Definition pytest_ptr : Re.regex :=
  Re.seq [Re.Grp 1 (Re.alts (map (fun x => Re.Lit (value x)) TestStatus_members));
          Re.plus Char.isspace; Re.Grp 2 (Re.plus Char.isdot)].

Definition parser_pytest (log : string) : gmap string string :=
  foldl (fun test_result_dict caps =>
           <[Re.group 2 caps := Re.group 1 caps]> test_result_dict)
        ∅ (Re.finditer pytest_ptr log).

(** The table of synonyms, in the order of the dictionary's keys. *)
Definition UNITTEST_TO_PYTESTSTATUS : list (string * TestStatus) :=
  [("error", ERROR); ("failed", FAILED); ("fail", FAILED); ("FAIL", FAILED);
   ("passed", PASSED); ("ok", PASSED); ("skipped", SKIPPED); ("x", XFAIL);
   ("u", ERROR); ("deprecated", SKIPPED)].

(** [d[key]] for a dictionary given by its items. *)
Fixpoint dict_get {V : Type} (d : list (string * V)) (key : string) : result V :=
  match d with
  | [] => Raise KeyError
  | (k, v) :: d' => if String.eqb k key then Ok v else dict_get d' key
  end.

(** The alternation of the table's keys. *)
Definition unittest_keys : Re.regex :=
  Re.alts (map (fun kv => Re.Lit kv.1) UNITTEST_TO_PYTESTSTATUS).

(** The pattern with [...] in between (the second assignment to [pattern];
    the first is overwritten before it is used). *)
Definition unittest_dots : Re.regex :=
  Re.seq [Re.Grp 1
            (Re.Alt
               (Re.seq [Re.Lit "test";
                        Re.star (fun c => Char.one "_"%char c || Char.isword c);
                        Re.Chr Char.isspace; Re.Lit "(";
                        Re.plus (Char.non (Char.one ")"%char)); Re.Lit ")"])
               (Re.plus (Char.non Char.isspace)));
          Re.star Char.isspace; Re.Lit "..."; Re.star Char.isspace;
          Re.Grp 2 unittest_keys].

(** The pattern with a newline in between. *)
Definition unittest_newline : Re.regex :=
  Re.seq [Re.Grp 1 (Re.plus (Char.non Char.isspace)); Re.Lit nl;
          Re.Grp 2 unittest_keys].

(** The body of both loops of [parser_unittest]. *)
Definition unittest_record (test_result_dict : gmap string string)
    (caps : Re.captures) : result (gmap string string) :=
  let test_name := Re.group 1 caps in
  let status := Re.group 2 caps in
  if negb (Str.contains "test" test_name) then Ok test_result_dict
  else if bool_decide (is_Some (test_result_dict !! test_name))
  then Ok test_result_dict
  else
    st ← dict_get UNITTEST_TO_PYTESTSTATUS status;
    Ok (<[test_name := value st]> test_result_dict).

Definition parser_unittest (log : string) : result (gmap string string) :=
  d ← for_each unittest_record (Re.finditer unittest_dots log) ∅;
  for_each unittest_record (Re.finditer unittest_newline log) d.

(** ** normalize_log *)

Definition ESC : string := String "027"%char "".

(** Escape sequences, without regard to case. *)
Definition to_escape : Re.regex :=
  Re.seq [Re.Lit ESC; Re.Lit "["; Re.plus (Char.between 48 57);
          Re.Chr (fun c => Char.one "m"%char c || Char.one "M"%char c)].

(** Addresses of 8 or of 16 hexadecimal digits, up to a word boundary. *)
Definition memory_addr_regex : Re.regex :=
  Re.Alt (Re.seq [Re.Lit "0x"; Re.exactly 8 Char.ishex; Re.WordB])
         (Re.seq [Re.Lit "0x"; Re.exactly 16 Char.ishex; Re.WordB]).

Definition SHORT_TEST_SUMMARY_SEPARATOR : string :=
  "=========================== short test summary info ============================".

(** A summary block: the separator, any text (group 1, as short as can be),
    five or more [=], any text, [ in ], digits and dots, [s ], five or more
    [=]; [re.DOTALL]. *)
Definition pytest_pattern : Re.regex :=
  Re.seq [Re.Lit SHORT_TEST_SUMMARY_SEPARATOR; Re.Grp 1 (Re.lazy_star Char.any);
          Re.at_least 5 (Char.one "="%char); Re.lazy_star Char.any;
          Re.Lit " in ";
          Re.plus (fun c => Char.isdigit c || Char.one "."%char c);
          Re.Lit "s "; Re.at_least 5 (Char.one "="%char)].

Definition strip_escapes (log : string) : string := Re.sub to_escape "" log.

Definition mask_addresses (log : string) : string :=
  Re.sub memory_addr_regex "0xXXXXXXXXX" log.

Definition narrow_summary (log : string) : string :=
  if Str.contains SHORT_TEST_SUMMARY_SEPARATOR log then
    if Str.count SHORT_TEST_SUMMARY_SEPARATOR log =? 1
    then Str.slice_from (Str.find SHORT_TEST_SUMMARY_SEPARATOR log) log
    else
      let matches := map (Re.group 1) (Re.finditer pytest_pattern log) in
      foldl (fun log block => log +:+ (block +:+ nl)) "" matches
  else log.

Definition normalize_log (log : string) : string :=
  narrow_summary (mask_addresses (strip_escapes log)).

(** ** swa_parser *)

(** [d.update(other)] *)
Definition dict_update (d other : gmap string string) : gmap string string :=
  other ∪ d.

Definition swa_parser (log : string) : result (gmap string string) :=
  let log := normalize_log log in
  let test_result_dict := parser_pytest log in
  second ← parser_unittest log;
  Ok (dict_update test_result_dict
        (filter (fun kv => test_result_dict !! kv.1 = None) second)).

(** ** The registry *)

(** A parser takes the log; the second parameter of the Python functions,
    the test specification, is used by none of them. *)
Definition parser : Type := string -> result (gmap string string).

Definition parse_log_astroid := parse_log_pytest.
Definition parse_log_flask := parse_log_pytest.
Definition parse_log_marshmallow := parse_log_pytest.
Definition parse_log_pvlib := parse_log_pytest.
Definition parse_log_pyvista := parse_log_pytest.
Definition parse_log_sqlfluff := parse_log_pytest.
Definition parse_log_xarray := parse_log_pytest.

Definition parse_log_pydicom := parse_log_pytest_options.
Definition parse_log_requests := parse_log_pytest_options.
Definition parse_log_pylint := parse_log_pytest_options.

Definition parse_log_astropy := parse_log_pytest_v2.
Definition parse_log_scikit := parse_log_pytest_v2.
Definition parse_log_sphinx := parse_log_pytest_v2.

Definition MAP_REPO_TO_PARSER_PY_items : list (string * parser) :=
  [ ("astropy/astropy", parse_log_astropy);
    ("django/django", parse_log_django);
    ("marshmallow-code/marshmallow", parse_log_marshmallow);
    ("matplotlib/matplotlib", parse_log_matplotlib);
    ("mwaskom/seaborn", parse_log_seaborn);
    ("pallets/flask", parse_log_flask);
    ("psf/requests", parse_log_requests);
    ("pvlib/pvlib-python", parse_log_pvlib);
    ("pydata/xarray", parse_log_xarray);
    ("pydicom/pydicom", parse_log_pydicom);
    ("pylint-dev/astroid", parse_log_astroid);
    ("pylint-dev/pylint", parse_log_pylint);
    ("pytest-dev/pytest", parse_log_pytest);
    ("pyvista/pyvista", parse_log_pyvista);
    ("scikit-learn/scikit-learn", parse_log_scikit);
    ("sqlfluff/sqlfluff", parse_log_sqlfluff);
    ("sphinx-doc/sphinx", parse_log_sphinx);
    ("sympy/sympy", parse_log_sympy) ].

Definition MAP_REPO_TO_PARSER_PY : gmap string parser :=
  list_to_map MAP_REPO_TO_PARSER_PY_items.

(** [MAP_REPO_TO_PARSER_PY[repo]] *)
Definition parser_for (repo : string) : result parser :=
  match MAP_REPO_TO_PARSER_PY !! repo with
  | Some p => Ok p
  | None => Raise KeyError
  end.

(** ** Definitions for the statements *)

(** Every character of [s] is in the class [p]. *)
Fixpoint all_chars (p : ascii -> bool) (s : string) : bool :=
  match s with
  | "" => true
  | String c s' => p c && all_chars p s'
  end.

(** A text without a newline: a line. *)
Definition is_line (s : string) : bool := all_chars Char.isdot s.

(** The substitution of the matplotlib parser on a line. *)
Definition mouse_buttons (line : string) : string :=
  Str.replace "MouseButton.RIGHT" "3" (Str.replace "MouseButton.LEFT" "1" line).

(** The character before the position reached after the text [consumed]. *)
Fixpoint prev_after (prev : option ascii) (consumed : string) : option ascii :=
  match consumed with
  | "" => prev
  | String c consumed' => prev_after (Some c) consumed'
  end.

(** A number of repetitions within the upper bound of a quantifier. *)
Definition within (hi : option nat) (n : nat) : Prop :=
  match hi with
  | Some h => n <= h
  | None => True
  end.

(** The test of the options that are taken for a path. *)
Definition collapsible (option : string) : bool :=
  Str.startswith "/" option && negb (Str.startswith "//" option)
  && negb (Str.contains "*" option).

(** The end of a summary block, the part of [pytest_pattern] after its
    group. *)
Definition summary_terminator : Re.regex :=
  Re.seq [Re.at_least 5 (Char.one "="%char); Re.lazy_star Char.any;
          Re.Lit " in ";
          Re.plus (fun c => Char.isdigit c || Char.one "."%char c);
          Re.Lit "s "; Re.at_least 5 (Char.one "="%char)].

(** The shape of a terminator: five or more [=], any text, [ in ], digits
    and dots, [s ], five or more [=]. *)
Definition terminator_shape (term : string) : Prop :=
  exists e1 mid d e2,
    term = e1 +:+ mid +:+ " in " +:+ d +:+ "s " +:+ e2
    /\ all_chars (Char.one "="%char) e1 = true /\ 5 <= Str.len e1
    /\ all_chars (fun c => Char.isdigit c || Char.one "."%char c) d = true
    /\ 1 <= Str.len d
    /\ all_chars (Char.one "="%char) e2 = true /\ 5 <= Str.len e2.

(** No occurrence of [sub] in [pre +:+ rest] starts in [pre]. *)
Definition starts_after (sub pre rest : string) : Prop :=
  forall a b, pre = a +:+ b -> b <> "" -> Str.startswith sub (b +:+ rest) = false.

(** The longest run of hexadecimal digits at the front of a text, and what
    follows it. *)
Fixpoint take_hex (s : string) : string :=
  match s with
  | "" => ""
  | String c s' => if Char.ishex c then String c (take_hex s') else ""
  end.

Fixpoint skip_hex (s : string) : string :=
  match s with
  | "" => ""
  | String c s' => if Char.ishex c then skip_hex s' else s
  end.

(** An address at the front of a text: [0x], a run of exactly 8 or 16
    hexadecimal digits, and no word character after it; the result is what
    follows the address. *)
Definition address_at (s : string) : option string :=
  let digits := Str.drop 2 s in
  let n := Str.len (take_hex digits) in
  if Str.startswith "0x" s && ((n =? 8) || (n =? 16))
     && negb (Re.isword_opt (Re.first_char (skip_hex digits)))
  then Some (skip_hex digits)
  else None.

(** ** Definitions for the proofs *)

(** One more repetition of a quantifier, on a text that has a character. *)
Definition rep_more {R : Type} (greedy : bool) (p : ascii -> bool) (lo : nat)
    (hi : option nat) (c : ascii) (s : string)
    (k : option ascii -> string -> option R) : option R :=
  if p c && Re.allows hi
  then Re.rep greedy p (pred lo) (pred <$> hi) (Some c) s k
  else None.

(** A log of two lines, a name and [ok]: the generic parser reports the
    test, the dialect parsers report nothing. *)
Definition swa_probe : string := "test_a" +:+ nl +:+ "ok".

(** A result with canonical values only. *)
Definition canonical_map (m : gmap string string) : Prop :=
  map_Forall (fun _ v => canonical v) m.

(** A log on which both passes report [test_x], with different statuses. *)
Definition both_passes_log : string := "FAILED test_x" +:+ nl +:+ "test_x ... ok".

(** The separator after its first five characters. *)
Definition sep_tail : string := Str.drop 5 SHORT_TEST_SUMMARY_SEPARATOR.

(** A log with two summaries, each with its terminator. *)
Definition two_summaries : string :=
  "x" +:+ SHORT_TEST_SUMMARY_SEPARATOR +:+ "a" +:+ "===== 1 failed in 0.1s ====="
  +:+ "y" +:+ SHORT_TEST_SUMMARY_SEPARATOR +:+ "b" +:+ "===== 2 failed in 0.2s ====="
  +:+ "z".

(** One alternative of the pattern of addresses, with [n] digits. *)
Definition address_alt (n : nat) (s : string) : option string :=
  let digits := Str.drop 2 s in
  if Str.startswith "0x" s && (n <=? Str.len digits)
     && all_chars Char.ishex (Str.take n digits)
     && negb (Re.isword_opt (Re.first_char (Str.drop n digits)))
  then Some (Str.drop n digits)
  else None.

(** What an address is replaced by. *)
Definition placeholder : string := "0xXXXXXXXXX".

(** An address or none, as a truth value. *)
Definition is_address (s : string) : bool :=
  Str.startswith "0x" s
  && ((Str.len (take_hex (Str.drop 2 s)) =? 8)
      || (Str.len (take_hex (Str.drop 2 s)) =? 16))
  && negb (Re.isword_opt (Re.first_char (skip_hex (Str.drop 2 s)))).

(** A text without an address, at any place. *)
Definition no_address (s : string) : Prop :=
  forall pre t, s = pre +:+ t -> address_at t = None.

(** A text in which the removal of an escape sequence makes a new one. *)
Definition nested_escape : string := ESC +:+ "[" +:+ ESC +:+ "[0m" +:+ "0m".

(** What a computation gives: [P] of the value it returns, or [Q] of the
    exception it raises. *)
Definition outcome {A : Type} (P : A -> Prop) (Q : exn -> Prop) (r : result A)
  : Prop :=
  match r with
  | Ok a => P a
  | Raise e => Q e
  end.

(** A result whose values are the values of the given statuses. *)
Definition values_among (allowed : list TestStatus) (m : gmap string string)
  : Prop :=
  map_Forall (fun _ v => exists x, x ∈ allowed /\ v = value x) m.

(** A text without white space. *)
Definition is_token (s : string) : bool := all_chars (Char.non Char.isspace) s.

(** The lines on which the seaborn parser indexes a token that is not
    there. *)
Definition seaborn_bad (line : string) : bool :=
  (Str.startswith (value FAILED) line
   || Str.contains (" " +:+ value PASSED +:+ " ") line
   || Str.startswith (value PASSED) line)
  && (length (Str.split_ws line) <? 2).

(** The lines on which the django parser indexes a token that is not
    there. *)
Definition django_bad (line : string) : bool :=
  (Str.startswith "FAIL:" (Str.strip line) || Str.startswith "ERROR:" (Str.strip line))
  && (length (Str.split_ws (Str.strip line)) <? 2).

(** ** The shapes of entries and of loop bodies *)

(** The statuses that the Django parser records. *)
Definition django_statuses : list TestStatus := [PASSED; SKIPPED; FAILED; ERROR].

(** A loop body that only adds entries, the same ones whatever the map. *)
Definition adds_entries (body : gmap string string -> string -> result (gmap string string))
  : Prop :=
  forall m line, body m line = d ← body ∅ line; Ok (d ∪ m).

(** The entries of the simple prefix parser: the name is a token, and the
    status is a token that starts with a status label. *)
Definition prefix_entry (name status : string) : Prop :=
  is_token name = true /\ name <> ""
  /\ is_token status = true /\ starts_with_status status = true.

(** An entry of the status-prefix pass: a label of the lexicon for a name
    that is a non-empty text without a newline. *)
Definition labelled_entry (name status : string) : Prop :=
  canonical status /\ name <> "" /\ is_line name = true.

(** An entry of the second pass: a label of the lexicon for a name with
    [test] in it. *)
Definition unittest_entry (name status : string) : Prop :=
  Str.contains "test" name = true /\ canonical status.

(** An entry of the generic fallback parser: a label of the lexicon for a
    non-empty name. *)
Definition swa_entry (name status : string) : Prop :=
  canonical status /\ name <> "".

(** A text without an opening bracket. *)
Definition no_bracket (s : string) : bool :=
  all_chars (Char.non (Char.one "["%char)) s.

(** * Verification *)

(** The example of the specification for the simple prefix dialect. *)
Example parse_log_pytest_ex :
  parse_log_pytest ("PASSED test_foo" +:+ nl +:+ "FAILED test_bar - AssertionError")
  = Ok (<["test_bar" := "FAILED"]> {["test_foo" := "PASSED"]}).
Proof. vm_compute. reflexivity. Qed.

(** ** Loops and results *)

Lemma bind_Ok {A B : Type} (m : result A) (f : A -> result B) (b : B) :
  m ≫= f = Ok b <-> exists a, m = Ok a /\ f a = Ok b.
Proof.
  destruct m as [a|e]; simpl; split.
  - intros H. exists a. auto.
  - intros (a' & Ha & Hf). congruence.
  - discriminate.
  - intros (a' & Ha & _). discriminate.
Qed.

Lemma for_each_app {S A : Type} (body : S -> A -> result S) (l1 l2 : list A) (s : S) :
  for_each body (l1 ++ l2) s = for_each body l1 s ≫= for_each body l2.
Proof.
  revert s. induction l1 as [|x l1 IH]; intros s; simpl; [reflexivity|].
  destruct (body s x) as [s'|e]; simpl; [apply IH | reflexivity].
Qed.

(** A property the body keeps holds after the loop. *)
Lemma for_each_invariant {S A : Type} (P : S -> Prop) (body : S -> A -> result S) :
  (forall s x s', P s -> body s x = Ok s' -> P s') ->
  forall l s s', P s -> for_each body l s = Ok s' -> P s'.
Proof.
  intros Hbody l. induction l as [|x l IH]; intros s s' Hs Hrun; simpl in Hrun.
  - congruence.
  - apply bind_Ok in Hrun as (s1 & H1 & H2). eauto.
Qed.

(** A body that returns makes the loop return. *)
Lemma for_each_total {S A : Type} (body : S -> A -> result S) :
  (forall s x, exists s', body s x = Ok s') ->
  forall l s, exists s', for_each body l s = Ok s'.
Proof.
  intros Hbody l. induction l as [|x l IH]; intros s; simpl.
  - eauto.
  - destruct (Hbody s x) as [s1 ->]. simpl. apply IH.
Qed.

(** Two loops whose bodies agree on every element. *)
Lemma for_each_ext {S A B : Type} (body1 : S -> A -> result S)
    (body2 : S -> B -> result S) (f : A -> B) :
  (forall s x, body1 s x = body2 s (f x)) ->
  forall l s, for_each body1 l s = for_each body2 (map f l) s.
Proof.
  intros Hbody l. induction l as [|x l IH]; intros s; simpl; [reflexivity|].
  rewrite Hbody. destruct (body2 s (f x)); simpl; auto.
Qed.

Lemma index_Ok {A : Type} (l : list A) (i : nat) :
  i < length l -> exists x, index l i = Ok x.
Proof.
  intros H. unfold index. destruct (lookup_lt_is_Some_2 l i H) as [x ->]. eauto.
Qed.

(** ** The registry (C8) *)

Lemma registry_keys_NoDup : NoDup (MAP_REPO_TO_PARSER_PY_items.*1).
Proof. apply (bool_decide_unpack _). vm_compute. reflexivity. Qed.

Lemma registry_lookup (repo : string) (p : parser) :
  MAP_REPO_TO_PARSER_PY !! repo = Some p <-> (repo, p) ∈ MAP_REPO_TO_PARSER_PY_items.
Proof.
  unfold MAP_REPO_TO_PARSER_PY. symmetry.
  apply elem_of_list_to_map, registry_keys_NoDup.
Qed.

(** The generic parser is none of the registered ones. *)
Lemma swa_parser_not_registered (repo : string) :
  (repo, swa_parser) ∉ MAP_REPO_TO_PARSER_PY_items.
Proof.
  intros Hin.
  assert (Hswa : swa_parser swa_probe = Ok {["test_a" := "PASSED"]})
    by (vm_compute; reflexivity).
  assert (Hne : Ok {["test_a" := "PASSED"]} <> (Ok ∅ : result (gmap string string))).
  { intros Heq.
    apply (f_equal (fun r => match r with
                             | Ok m => m !! "test_a"
                             | Raise _ => None
                             end)) in Heq.
    vm_compute in Heq. discriminate. }
  unfold MAP_REPO_TO_PARSER_PY_items in Hin.
  repeat (apply elem_of_cons in Hin as [Heq|Hin];
          [ injection Heq as _ Hf; apply Hne; rewrite <- Hswa, Hf;
            vm_compute; reflexivity | ]).
  apply elem_of_nil in Hin. exact Hin.
Qed.

(** C8.  The lookup in the registry is exact on the identity: it returns a
    parser exactly for the identities of the table, and then the parser the
    table gives; for any other identity it raises [KeyError]; and it never
    hands out the generic fallback parser. *)
Theorem registry_lookup_exact (repo : string) :
  (forall p, parser_for repo = Ok p <-> (repo, p) ∈ MAP_REPO_TO_PARSER_PY_items)
  /\ (parser_for repo = Raise KeyError <-> repo ∉ MAP_REPO_TO_PARSER_PY_items.*1)
  /\ parser_for repo <> Ok swa_parser.
Proof.
  assert (Hok : forall p, parser_for repo = Ok p
                          <-> (repo, p) ∈ MAP_REPO_TO_PARSER_PY_items).
  { intros p. rewrite <- registry_lookup. unfold parser_for.
    destruct (MAP_REPO_TO_PARSER_PY !! repo); split; congruence. }
  split; [exact Hok|]. split.
  - unfold parser_for.
    rewrite (not_elem_of_list_to_map (M := gmap string)).
    fold MAP_REPO_TO_PARSER_PY.
    destruct (MAP_REPO_TO_PARSER_PY !! repo); split; congruence.
  - intros H. apply Hok in H. exact (swa_parser_not_registered repo H).
Qed.

(** ** Canonical values (C1) *)

Lemma canonical_value (x : TestStatus) : canonical (value x).
Proof. exists x. reflexivity. Qed.

Lemma canonicalb_spec (v : string) : canonicalb v = true <-> canonical v.
Proof.
  unfold canonicalb, canonical. rewrite existsb_exists. split.
  - intros (x & _ & Hx). exists x. apply String.eqb_eq, Hx.
  - intros (x & ->). exists x. split; [destruct x; simpl; tauto|].
    apply String.eqb_refl.
Qed.

Lemma canonical_empty : canonical_map ∅.
Proof. apply map_Forall_empty. Qed.

Lemma canonical_insert (m : gmap string string) (k v : string) :
  canonical v -> canonical_map m -> canonical_map (<[k := v]> m).
Proof. intros Hv H. apply map_Forall_insert_2; assumption. Qed.

Create HintDb canon.
#[local] Hint Resolve canonical_empty canonical_insert canonical_value : canon.
#[local] Hint Extern 1 (canonical _) =>
  (apply canonicalb_spec; vm_compute; reflexivity) : canon.

(** Splits the hypotheses that say a sequence of steps returned. *)
Ltac returned :=
  repeat match goal with
    | H : (_ ≫= _) = Ok _ |- _ =>
        let a := fresh "a" in
        let Ha := fresh "Ha" in
        apply bind_Ok in H as (a & Ha & H)
    | H : Ok _ = Ok _ |- _ => injection H as H; try subst
    | H : Raise _ = Ok _ |- _ => discriminate H
    | H : (if ?b then _ else _) = Ok _ |- _ => destruct b
    end.

Lemma seaborn_line_canonical (m m' : gmap string string) (line : string) :
  canonical_map m -> seaborn_line m line = Ok m' -> canonical_map m'.
Proof.
  unfold seaborn_line. intros Hm H. returned; auto with canon.
Qed.

Lemma parse_log_seaborn_canonical (log : string) (m : gmap string string) :
  parse_log_seaborn log = Ok m -> canonical_map m.
Proof.
  apply (for_each_invariant canonical_map seaborn_line);
    [intros; eapply seaborn_line_canonical; eauto | apply canonical_empty].
Qed.

Lemma sympy_record_canonical (mark line : string) (x : TestStatus)
    (m m' : gmap string string) :
  canonical_map m -> sympy_record mark line x m = Ok m' -> canonical_map m'.
Proof. unfold sympy_record. intros Hm H. returned; auto with canon. Qed.

Lemma sympy_matches_canonical (log : string) : canonical_map (sympy_matches log).
Proof.
  unfold sympy_matches. generalize (Re.finditer sympy_pattern log).
  assert (H : canonical_map ∅) by apply canonical_empty. revert H.
  generalize (∅ : gmap string string).
  intros m Hm l. revert m Hm.
  induction l as [|caps l IH]; intros m Hm; simpl; auto with canon.
Qed.

Lemma parse_log_sympy_canonical (log : string) (m : gmap string string) :
  parse_log_sympy log = Ok m -> canonical_map m.
Proof.
  apply (for_each_invariant canonical_map sympy_line);
    [| apply sympy_matches_canonical].
  intros s x s' Hs H. unfold sympy_line in H.
  destruct (Str.startswith "test_" (Str.strip x)); returned; [|assumption].
  eauto using sympy_record_canonical.
Qed.

Lemma django_pass_suffixes_canonical (suffixes : list string) (line line' : string)
    (m m' : gmap string string) :
  canonical_map m -> django_pass_suffixes suffixes line m = Ok (line', m') ->
  canonical_map m'.
Proof.
  intros Hm. induction suffixes as [|suffix suffixes IH]; simpl; intros H.
  - injection H as _ <-. exact Hm.
  - destruct (Str.endswith suffix line); [|auto].
    apply bind_Ok in H as (l & _ & H). injection H as _ <-. auto with canon.
Qed.

Lemma django_record_before_canonical (cond : bool) (sep line : string)
    (x : TestStatus) (m m' : gmap string string) :
  canonical_map m -> django_record_before cond sep line x m = Ok m' ->
  canonical_map m'.
Proof. unfold django_record_before. intros Hm H. returned; auto with canon. Qed.

Lemma django_record_labelled_canonical (label line : string) (x : TestStatus)
    (m m' : gmap string string) :
  canonical_map m -> django_record_labelled label line x m = Ok m' ->
  canonical_map m'.
Proof. unfold django_record_labelled. intros Hm H. returned; auto with canon. Qed.

Lemma django_line_canonical (st st' : django_state) (line : string) :
  canonical_map (status_map st) -> django_line st line = Ok st' ->
  canonical_map (status_map st').
Proof.
  unfold django_line. intros Hm H.
  apply bind_Ok in H as (prev & _ & H).
  apply bind_Ok in H as ([line1 m1] & H1 & H).
  apply django_pass_suffixes_canonical in H1;
    [| destruct (Str.contains _ _); auto with canon].
  apply bind_Ok in H as (m2 & H2 & H).
  apply django_record_before_canonical in H2; [|assumption].
  apply bind_Ok in H as (m3 & H3 & H).
  apply django_record_before_canonical in H3; [|assumption].
  apply bind_Ok in H as (m4 & H4 & H).
  apply django_record_labelled_canonical in H4; [|assumption].
  apply bind_Ok in H as (m5 & H5 & H).
  apply django_record_before_canonical in H5; [|assumption].
  apply bind_Ok in H as (m6 & H6 & H).
  apply django_record_labelled_canonical in H6; [|assumption].
  injection H as <-. cbn [status_map].
  destruct prev as [t|]; [|assumption].
  match goal with
  | |- canonical_map (if ?b then _ else _) => destruct b
  end; auto with canon.
Qed.

Lemma django_record_matches_canonical (log : string) (m : gmap string string)
    (pattern : Re.regex) :
  canonical_map m -> canonical_map (django_record_matches log m pattern).
Proof.
  unfold django_record_matches. generalize (Re.finditer pattern log).
  intros l. revert m. induction l as [|caps l IH]; intros m Hm; simpl;
    auto with canon.
Qed.

Lemma parse_log_django_canonical (log : string) (m : gmap string string) :
  parse_log_django log = Ok m -> canonical_map m.
Proof.
  unfold parse_log_django. intros H.
  apply bind_Ok in H as (st & Hloop & H). injection H as <-.
  assert (Hst : canonical_map (status_map st)).
  { revert Hloop.
    apply (for_each_invariant (fun st => canonical_map (status_map st)) django_line);
      [intros; eapply django_line_canonical; eauto | apply canonical_empty]. }
  revert Hst. generalize (status_map st). generalize django_patterns.
  intros ps. induction ps as [|p ps IH]; intros m0 Hm0; simpl;
    auto using django_record_matches_canonical.
Qed.

(** C1.  The prefix parsers record the first token of a line that merely
    starts with a status label, and the later-version parser the second
    token of a line that merely ends with one: on the line
    [ERROR: file not found] the simple parser maps [file] to [ERROR:], and
    on a line of an older pytest that names the file a test comes from the
    later-version parser maps the test to [<-]; neither value is a member of
    the status set. *)
Theorem prefix_parsers_record_raw_tokens :
  parse_log_pytest "ERROR: file not found" = Ok {["file" := "ERROR:"]}
  /\ ~ canonical "ERROR:"
  /\ parse_log_pytest_v2 "test_a.py::test_x <- ../base.py PASSED"
     = Ok {["test_a.py::test_x" := "<-"]}
  /\ ~ canonical "<-".
Proof.
  split; [vm_compute; reflexivity|].
  split; [rewrite <- canonicalb_spec; vm_compute; discriminate|].
  split; [vm_compute; reflexivity|].
  rewrite <- canonicalb_spec; vm_compute; discriminate.
Qed.

(** ** Parsers that raise and parsers that do not (C2) *)

Lemma index_pair {A : Type} (l : list A) :
  (length l <=? 1) = false ->
  exists x y, index l 0 = Ok x /\ index l 1 = Ok y.
Proof.
  intros H. apply Nat.leb_gt in H.
  destruct l as [|x [|y l]]; simpl in H; try lia.
  exists x, y. split; reflexivity.
Qed.

Lemma pytest_line_total (m : gmap string string) (line : string) :
  exists m', pytest_line m line = Ok m'.
Proof.
  unfold pytest_line. destruct (starts_with_status line); [|eauto].
  match goal with |- context [length ?l <=? 1] => set (test_case := l) end.
  destruct (length test_case <=? 1) eqn:Hlen; [eauto|].
  destruct (index_pair test_case Hlen) as (x & y & -> & ->). simpl. eauto.
Qed.

Lemma parse_log_pytest_total (log : string) : exists m, parse_log_pytest log = Ok m.
Proof. apply for_each_total, pytest_line_total. Qed.

Lemma matplotlib_line_total (m : gmap string string) (line : string) :
  exists m', matplotlib_line m line = Ok m'.
Proof.
  unfold matplotlib_line.
  match goal with |- context [starts_with_status ?l] => generalize l end.
  intros line'. destruct (starts_with_status line'); [|eauto].
  match goal with |- context [length ?l <=? 1] => set (test_case := l) end.
  destruct (length test_case <=? 1) eqn:Hlen; [eauto|].
  destruct (index_pair test_case Hlen) as (x & y & -> & ->). simpl. eauto.
Qed.

Lemma parse_log_matplotlib_total (log : string) :
  exists m, parse_log_matplotlib log = Ok m.
Proof. apply for_each_total, matplotlib_line_total. Qed.

Lemma index_pair' {A : Type} (l : list A) :
  (2 <=? length l) = true ->
  exists x y, index l 0 = Ok x /\ index l 1 = Ok y.
Proof.
  intros H. apply index_pair. apply Nat.leb_le in H. apply Nat.leb_gt. lia.
Qed.

Lemma pytest_v2_line_total (m : gmap string string) (line : string) :
  exists m', pytest_v2_line m line = Ok m'.
Proof.
  unfold pytest_v2_line.
  match goal with |- context [starts_with_status ?l] => generalize l end.
  intros line'. destruct (starts_with_status line').
  - match goal with |- context [2 <=? length ?l] => set (test_case := l) end.
    destruct (2 <=? length test_case) eqn:Hlen; [|eauto].
    destruct (index_pair' test_case Hlen) as (x & y & -> & ->). simpl. eauto.
  - destruct (ends_with_status line'); [|eauto].
    destruct (2 <=? length (Str.split_ws line')) eqn:Hlen; [|eauto].
    destruct (index_pair' _ Hlen) as (x & y & -> & ->). simpl. eauto.
Qed.

Lemma parse_log_pytest_v2_total (log : string) :
  exists m, parse_log_pytest_v2 log = Ok m.
Proof. apply for_each_total, pytest_v2_line_total. Qed.

Lemma split_go_nonempty (sep : string) (skip : nat) (s : string) :
  Str.split_go sep skip s <> [].
Proof.
  revert skip. induction s as [|c s IH]; intros skip; simpl; [discriminate|].
  destruct skip as [|n]; [|apply IH].
  destruct (Str.startswith sep (String c s)); [discriminate|].
  unfold Str.cons_head. destruct (Str.split_go sep 0 s); discriminate.
Qed.

Lemma index_last_Ok {A : Type} (l : list A) :
  l <> [] -> exists x, index_last l = Ok x.
Proof.
  intros H. unfold index_last.
  destruct (last l) as [x|] eqn:E; [eauto|].
  apply last_None in E. contradiction.
Qed.

Lemma option_test_name_total (token : string) :
  exists name, option_test_name token = Ok name.
Proof.
  unfold option_test_name.
  destruct (Re.search option_pattern token) as [caps|]; [|eauto].
  match goal with |- context [if ?b then _ else _] => destruct b end;
    simpl; [|eauto].
  destruct (index_last_Ok (Str.split "/" (Re.group 2 caps))
              (split_go_nonempty _ _ _)) as [x ->].
  simpl. eauto.
Qed.

Lemma pytest_options_line_total (m : gmap string string) (line : string) :
  exists m', pytest_options_line m line = Ok m'.
Proof.
  unfold pytest_options_line. destruct (starts_with_status line); [|eauto].
  match goal with |- context [length ?l <=? 1] => set (test_case := l) end.
  destruct (length test_case <=? 1) eqn:Hlen; [eauto|].
  destruct (index_pair test_case Hlen) as (x & y & -> & ->). simpl.
  destruct (option_test_name_total y) as [name ->]. simpl. eauto.
Qed.

Lemma parse_log_pytest_options_total (log : string) :
  exists m, parse_log_pytest_options log = Ok m.
Proof. apply for_each_total, pytest_options_line_total. Qed.

Lemma startswith_cons (a b : ascii) (p s : string) :
  Str.startswith (String a p) (String b s) = Ascii.eqb a b && Str.startswith p s.
Proof. reflexivity. Qed.

(** A text that starts with a character that is no white space has a first
    token. *)
Lemma split_ws_first (c : ascii) (s : string) :
  Char.isspace c = false -> exists t ts, Str.split_ws (String c s) = t :: ts.
Proof.
  intros Hc. simpl. rewrite Hc. destruct s as [|c' s']; [eauto|].
  destruct (Char.isspace c'); [eauto|].
  unfold Str.cons_head. destruct (Str.split_ws (String c' s')); eauto.
Qed.

Lemma sympy_record_total (mark : string) (c : ascii) (s : string)
    (x : TestStatus) (m : gmap string string) :
  Char.isspace c = false ->
  exists m', sympy_record mark (String c s) x m = Ok m'.
Proof.
  intros Hc. unfold sympy_record.
  destruct (Str.endswith mark (String c s)); [|eauto].
  destruct (split_ws_first c s Hc) as (t & ts & ->). simpl. eauto.
Qed.

Lemma sympy_line_total (m : gmap string string) (line : string) :
  exists m', sympy_line m line = Ok m'.
Proof.
  unfold sympy_line. generalize (Str.strip line). intros l.
  destruct (Str.startswith "test_" l) eqn:Hstart; [|eauto].
  destruct l as [|c s]; [discriminate|].
  assert (Hc : Char.isspace c = false).
  { rewrite startswith_cons in Hstart. apply andb_true_iff in Hstart as [Hc _].
    apply Ascii.eqb_eq in Hc. subst c. reflexivity. }
  destruct (sympy_record_total " E" c s ERROR m Hc) as [m1 ->]. simpl.
  destruct (sympy_record_total " F" c s FAILED m1 Hc) as [m2 ->]. simpl.
  apply sympy_record_total, Hc.
Qed.

Lemma parse_log_sympy_total (log : string) : exists m, parse_log_sympy log = Ok m.
Proof. apply for_each_total, sympy_line_total. Qed.

(** C2.  The seaborn parser indexes the second token of a line without
    looking at the number of tokens: on the line [FAILED], and on a line
    that has [PASSED] between two spaces and nothing else, it raises
    [IndexError].  The django parser does the same on the line [FAIL:]. *)
Theorem seaborn_raises_on_short_lines :
  parse_log_seaborn "FAILED" = Raise IndexError
  /\ parse_log_seaborn " PASSED " = Raise IndexError
  /\ parse_log_django "FAIL:" = Raise IndexError.
Proof. repeat split; vm_compute; reflexivity. Qed.

(** ** Texts *)

Lemma app_cons (c : ascii) (s t : string) : String c s +:+ t = String c (s +:+ t).
Proof. reflexivity. Qed.

Lemma app_nil_l (s : string) : "" +:+ s = s.
Proof. reflexivity. Qed.

Lemma app_nil_r (s : string) : s +:+ "" = s.
Proof. induction s as [|c s IH]; [reflexivity|]. rewrite app_cons, IH. reflexivity. Qed.

Lemma app_assoc (s t u : string) : (s +:+ t) +:+ u = s +:+ (t +:+ u).
Proof.
  induction s as [|c s IH]; [reflexivity|]. rewrite !app_cons, IH. reflexivity.
Qed.

Lemma len_app (s t : string) : Str.len (s +:+ t) = Str.len s + Str.len t.
Proof.
  induction s as [|c s IH]; [reflexivity|]. rewrite app_cons. simpl. rewrite IH.
  reflexivity.
Qed.

Lemma all_chars_app (p : ascii -> bool) (s t : string) :
  all_chars p (s +:+ t) = all_chars p s && all_chars p t.
Proof.
  induction s as [|c s IH]; [reflexivity|]. rewrite app_cons. simpl.
  rewrite IH, andb_assoc. reflexivity.
Qed.

Lemma startswith_nl (c : ascii) (s : string) :
  Str.startswith nl (String c s) = Char.one "010"%char c.
Proof. unfold nl. rewrite startswith_cons. simpl. apply andb_true_r. Qed.

Lemma split_nl_cons (c : ascii) (s : string) :
  Str.split nl (String c s)
  = if Char.one "010"%char c then "" :: Str.split nl s
    else Str.cons_head c (Str.split nl s).
Proof. unfold Str.split. cbn [Str.split_go]. rewrite startswith_nl. reflexivity. Qed.

Lemma is_line_cons (c : ascii) (s : string) :
  is_line (String c s) = negb (Char.one "010"%char c) && is_line s.
Proof. reflexivity. Qed.

(** The pieces of a split at the newlines are lines. *)
Lemma split_nl_lines (s : string) : Forall (fun l => is_line l = true) (Str.split nl s).
Proof.
  induction s as [|c s IH]; [repeat constructor|].
  rewrite split_nl_cons. destruct (Char.one "010"%char c) eqn:Hc.
  - constructor; [reflexivity | exact IH].
  - unfold Str.cons_head. destruct (Str.split nl s) as [|h t].
    + repeat constructor. rewrite is_line_cons, Hc. reflexivity.
    + inversion IH as [|? ? Hh Ht]; subst. constructor; [|exact Ht].
      rewrite is_line_cons, Hc, Hh. reflexivity.
Qed.

(** A line followed by a newline is the first piece of the split. *)
Lemma split_nl_line (l rest : string) :
  is_line l = true -> Str.split nl (l +:+ nl +:+ rest) = l :: Str.split nl rest.
Proof.
  induction l as [|c l IH]; intros Hl.
  - rewrite app_nil_l. change (nl +:+ rest) with (String "010"%char rest).
    rewrite split_nl_cons. reflexivity.
  - rewrite is_line_cons in Hl. apply andb_true_iff in Hl as [Hc Hl].
    rewrite app_cons, split_nl_cons.
    apply negb_true_iff in Hc. rewrite Hc, (IH Hl). reflexivity.
Qed.

Lemma split_nl_single (l : string) : is_line l = true -> Str.split nl l = [l].
Proof.
  induction l as [|c l IH]; intros Hl; [reflexivity|].
  rewrite is_line_cons in Hl. apply andb_true_iff in Hl as [Hc Hl].
  rewrite split_nl_cons.
  apply negb_true_iff in Hc. rewrite Hc, (IH Hl). reflexivity.
Qed.

(** Joining lines and splitting again gives the lines back. *)
Lemma split_join_lines (ls : list string) :
  ls <> [] -> Forall (fun l => is_line l = true) ls ->
  Str.split nl (Str.join nl ls) = ls.
Proof.
  induction ls as [|l ls IH]; intros Hne Hall; [contradiction|].
  inversion Hall as [|? ? Hl Hls]; subst.
  destruct ls as [|l' ls].
  - simpl. apply split_nl_single, Hl.
  - change (Str.join nl (l :: l' :: ls)) with (l +:+ nl +:+ Str.join nl (l' :: ls)).
    rewrite (split_nl_line _ _ Hl), IH; [reflexivity | discriminate | exact Hls].
Qed.

(** A replacement by a text of a class keeps a text in the class. *)
Lemma replace_go_all_chars (p : ascii -> bool) (old new : string) (skip : nat)
    (s : string) :
  all_chars p new = true -> all_chars p s = true ->
  all_chars p (Str.replace_go old new skip s) = true.
Proof.
  intros Hnew. revert skip. induction s as [|c s IH]; intros skip Hs; [reflexivity|].
  simpl in Hs. apply andb_true_iff in Hs as [Hc Hs]. cbn [Str.replace_go].
  destruct skip as [|n]; [|auto].
  destruct (Str.startswith old (String c s)).
  - rewrite all_chars_app, Hnew. simpl. auto.
  - simpl. rewrite Hc. simpl. auto.
Qed.

Lemma mouse_buttons_line (l : string) :
  is_line l = true -> is_line (mouse_buttons l) = true.
Proof.
  intros Hl. unfold mouse_buttons, Str.replace, is_line.
  apply replace_go_all_chars; [reflexivity|].
  apply replace_go_all_chars; [reflexivity | exact Hl].
Qed.

(** ** The matplotlib parser (C9) *)

(** C9.  On every log the matplotlib parser returns what the simple prefix
    parser returns on the log in which every line has its occurrences of
    [MouseButton.LEFT] replaced by [1] and then those of [MouseButton.RIGHT]
    by [3]. *)
Theorem parse_log_matplotlib_refines_pytest (log : string) :
  parse_log_matplotlib log
  = parse_log_pytest (Str.join nl (map mouse_buttons (Str.split nl log))).
Proof.
  unfold parse_log_matplotlib, parse_log_pytest.
  rewrite split_join_lines.
  - apply for_each_ext. intros m line. reflexivity.
  - intros H. apply map_eq_nil in H. exact (split_go_nonempty _ _ _ H).
  - apply Forall_map. eapply Forall_impl; [apply split_nl_lines|].
    intros l Hl. apply mouse_buttons_line, Hl.
Qed.

(** ** The matcher *)

Lemma startswith_app (l s : string) : Str.startswith l (l +:+ s) = true.
Proof.
  induction l as [|c l IH]; [reflexivity|].
  rewrite app_cons, startswith_cons, Ascii.eqb_refl, IH. reflexivity.
Qed.

Lemma startswith_split (l s : string) :
  Str.startswith l s = true -> s = l +:+ Str.drop (Str.len l) s.
Proof.
  revert s. induction l as [|c l IH]; intros s H; [reflexivity|].
  destruct s as [|b s]; [discriminate|].
  rewrite startswith_cons in H. apply andb_true_iff in H as [Hc H].
  apply Ascii.eqb_eq in Hc. subst b. rewrite app_cons. simpl. f_equal. apply IH, H.
Qed.

Lemma drop_app (l s : string) : Str.drop (Str.len l) (l +:+ s) = s.
Proof. induction l as [|c l IH]; [reflexivity|]. rewrite app_cons. simpl. exact IH. Qed.

Lemma take_app (l s : string) : Str.take (Str.len l) (l +:+ s) = l.
Proof.
  induction l as [|c l IH]; [destruct s; reflexivity|].
  rewrite app_cons. simpl. rewrite IH. reflexivity.
Qed.

(** The text consumed between a position and a later one. *)
Lemma take_consumed (l s : string) :
  Str.take (Str.len (l +:+ s) - Str.len s) (l +:+ s) = l.
Proof.
  rewrite len_app. replace (Str.len l + Str.len s - Str.len s) with (Str.len l) by lia.
  apply take_app.
Qed.

Lemma prev_after_app (prev : option ascii) (a b : string) :
  prev_after prev (a +:+ b) = prev_after (prev_after prev a) b.
Proof.
  revert prev. induction a as [|c a IH]; intros prev; [reflexivity|].
  rewrite app_cons. simpl. apply IH.
Qed.

Section MatcherFacts.
Context {R : Type}.
Implicit Types k : option ascii -> string -> option R.

(** A literal matches when the text starts with it. *)
Lemma lit_spec (l : string) (prev : option ascii) (s : string) k :
  Re.lit l prev s k
  = if Str.startswith l s then k (prev_after prev l) (Str.drop (Str.len l) s)
    else None.
Proof.
  revert prev s. induction l as [|a l IH]; intros prev s; [reflexivity|].
  destruct s as [|b s]; [reflexivity|].
  cbn [Re.lit]. rewrite startswith_cons.
  destruct (Ascii.eqb a b) eqn:Hab; [|reflexivity].
  apply Ascii.eqb_eq in Hab. subst b. rewrite IH. reflexivity.
Qed.

Lemma lit_app (l : string) (prev : option ascii) (s : string) k :
  Re.lit l prev (l +:+ s) k = k (prev_after prev l) s.
Proof. rewrite lit_spec, startswith_app, drop_app. reflexivity. Qed.

Lemma rep_nil (greedy : bool) (p : ascii -> bool) (lo : nat) (hi : option nat)
    (prev : option ascii) k :
  Re.rep greedy p lo hi prev "" k = match lo with O => k prev "" | S _ => None end.
Proof.
  destruct lo; [|reflexivity]. cbn [Re.rep].
  destruct greedy; [reflexivity|]. destruct (k prev ""); reflexivity.
Qed.

Lemma rep_cons (greedy : bool) (p : ascii -> bool) (lo : nat) (hi : option nat)
    (prev : option ascii) (c : ascii) (s : string) k :
  Re.rep greedy p lo hi prev (String c s) k
  = match lo with
    | S _ => rep_more greedy p lo hi c s k
    | O =>
        if greedy
        then match rep_more greedy p lo hi c s k with
             | Some x => Some x
             | None => k prev (String c s)
             end
        else match k prev (String c s) with
             | Some x => Some x
             | None => rep_more greedy p lo hi c s k
             end
    end.
Proof. reflexivity. Qed.

Lemma within_pred (hi : option nat) (n : nat) :
  Re.allows hi = true -> within (pred <$> hi) n -> within hi (S n).
Proof. destruct hi as [[|h]|]; simpl; intros; try discriminate; lia. Qed.

Lemma within_succ (hi : option nat) (n : nat) :
  within hi (S n) -> Re.allows hi = true /\ within (pred <$> hi) n.
Proof. destruct hi as [[|h]|]; simpl; intros; split; try reflexivity; lia. Qed.

(** What a quantifier returns comes from a run of the class in the bounds,
    and from the continuation after it. *)
Lemma rep_sound (greedy : bool) (p : ascii -> bool) (s : string) :
  forall (lo : nat) (hi : option nat) (prev : option ascii) k (x : R),
  Re.rep greedy p lo hi prev s k = Some x ->
  exists a b, s = a +:+ b /\ all_chars p a = true /\ lo <= Str.len a
              /\ within hi (Str.len a) /\ k (prev_after prev a) b = Some x.
Proof.
  induction s as [|c s IH]; intros lo hi prev k x H.
  - rewrite rep_nil in H. destruct lo; [|discriminate].
    exists "", "". repeat split; auto. destruct hi; simpl; lia.
  - rewrite rep_cons in H.
    assert (Hmore : rep_more greedy p lo hi c s k = Some x ->
      exists a b, String c s = a +:+ b /\ all_chars p a = true /\ lo <= Str.len a
                  /\ within hi (Str.len a) /\ k (prev_after prev a) b = Some x).
    { unfold rep_more. destruct (p c && Re.allows hi) eqn:Hc; [|discriminate].
      apply andb_true_iff in Hc as [Hc Hhi]. intros Hrec.
      apply IH in Hrec as (a & b & -> & Ha & Hlo & Hwi & Hk).
      exists (String c a), b. rewrite app_cons. simpl. rewrite Hc, Ha.
      repeat split; auto; [lia | apply within_pred; assumption]. }
    assert (Hstop : lo = 0 -> k prev (String c s) = Some x ->
      exists a b, String c s = a +:+ b /\ all_chars p a = true /\ lo <= Str.len a
                  /\ within hi (Str.len a) /\ k (prev_after prev a) b = Some x).
    { intros -> Hk. exists "", (String c s). repeat split; auto.
      destruct hi; simpl; lia. }
    destruct lo as [|lo']; [|auto].
    destruct greedy.
    + destruct (rep_more true p 0 hi c s k) eqn:E; [injection H as ->; auto | auto].
    + destruct (k prev (String c s)) eqn:E; [injection H as ->; auto | auto].
Qed.

(** A quantifier returns when the continuation does after some run. *)
Lemma rep_complete (greedy : bool) (p : ascii -> bool) (a : string) :
  forall (b : string) (lo : nat) (hi : option nat) (prev : option ascii) k,
  all_chars p a = true -> lo <= Str.len a -> within hi (Str.len a) ->
  is_Some (k (prev_after prev a) b) ->
  is_Some (Re.rep greedy p lo hi prev (a +:+ b) k).
Proof.
  induction a as [|c a IH]; intros b lo hi prev k Ha Hlo Hhi Hk.
  - rewrite app_nil_l. simpl in Hlo. assert (lo = 0) as -> by lia.
    simpl in Hk. destruct b as [|c b].
    + rewrite rep_nil. exact Hk.
    + rewrite rep_cons. destruct greedy.
      * destruct (rep_more true p 0 hi c b k); [eauto | exact Hk].
      * destruct Hk as [x ->]. eauto.
  - rewrite app_cons, rep_cons. simpl in Ha. apply andb_true_iff in Ha as [Hc Ha].
    simpl in Hhi. apply within_succ in Hhi as [Hal Hhi].
    assert (Hmore : is_Some (rep_more greedy p lo hi c (a +:+ b) k)).
    { unfold rep_more. rewrite Hc, Hal. simpl.
      apply IH; auto. simpl in Hlo. lia. }
    destruct lo as [|lo']; [|exact Hmore].
    destruct greedy.
    + destruct Hmore as [x ->]. eauto.
    + destruct (k prev (String c (a +:+ b))); [eauto | exact Hmore].
Qed.

(** A lazy quantifier without a lower bound stops at the first position
    where the continuation returns. *)
Lemma rep_lazy_first (p : ascii -> bool) (s : string) :
  forall (hi : option nat) (prev : option ascii) k (x : R),
  Re.rep false p 0 hi prev s k = Some x ->
  exists a b, s = a +:+ b /\ all_chars p a = true /\ within hi (Str.len a)
              /\ k (prev_after prev a) b = Some x
              /\ forall a' b', s = a' +:+ b' -> Str.len a' < Str.len a ->
                               k (prev_after prev a') b' = None.
Proof.
  induction s as [|c s IH]; intros hi prev k x H.
  - rewrite rep_nil in H. exists "", "". repeat split; auto.
    + destruct hi; simpl; lia.
    + simpl. intros; lia.
  - rewrite rep_cons in H.
    destruct (k prev (String c s)) eqn:E.
    + injection H as ->. exists "", (String c s). repeat split; auto.
      * destruct hi; simpl; lia.
      * simpl. intros; lia.
    + unfold rep_more in H. destruct (p c && Re.allows hi) eqn:Hc; [|discriminate].
      apply andb_true_iff in Hc as [Hc Hhi].
      apply IH in H as (a & b & -> & Ha & Hwi & Hk & Hmin).
      exists (String c a), b. rewrite app_cons. simpl. rewrite Hc, Ha.
      repeat split; auto; [apply within_pred; assumption|].
      intros a' b' Heq Hlen. destruct a' as [|c' a'].
      * rewrite app_nil_l in Heq. subst b'. exact E.
      * rewrite app_cons in Heq. injection Heq as <- Heq. simpl.
        apply Hmin; [exact Heq | simpl in Hlen; lia].
Qed.

End MatcherFacts.

Section ExecFacts.
Context {R : Type}.
Implicit Types k : option ascii -> string -> Re.captures -> option R.

Lemma exec_Cat (r1 r2 : Re.regex) (prev : option ascii) (s : string)
    (caps : Re.captures) k :
  Re.exec (Re.Cat r1 r2) prev s caps k
  = Re.exec r1 prev s caps (fun prev' s' caps' => Re.exec r2 prev' s' caps' k).
Proof. reflexivity. Qed.

Lemma exec_Grp (n : nat) (r : Re.regex) (prev : option ascii) (s : string)
    (caps : Re.captures) k :
  Re.exec (Re.Grp n r) prev s caps k
  = Re.exec r prev s caps (fun prev' s' caps' =>
      k prev' s' ((n, Str.take (Str.len s - Str.len s') s) :: caps')).
Proof. reflexivity. Qed.

Lemma exec_Lit (l : string) (prev : option ascii) (s : string)
    (caps : Re.captures) k :
  Re.exec (Re.Lit l) prev s caps k
  = if Str.startswith l s
    then k (prev_after prev l) (Str.drop (Str.len l) s) caps else None.
Proof. cbn [Re.exec]. apply lit_spec. Qed.

Lemma exec_Rep (greedy : bool) (lo : nat) (hi : option nat) (p : ascii -> bool)
    (prev : option ascii) (s : string) (caps : Re.captures) k :
  Re.exec (Re.Rep greedy lo hi p) prev s caps k
  = Re.rep greedy p lo hi prev s (fun prev' s' => k prev' s' caps).
Proof. reflexivity. Qed.

(** What the matcher returns, the continuation returned, after a text the
    expression consumed. *)
Lemma exec_sound (r : Re.regex) :
  forall (prev : option ascii) (s : string) (caps : Re.captures) k (x : R),
  Re.exec r prev s caps k = Some x ->
  exists a b caps', s = a +:+ b /\ k (prev_after prev a) b caps' = Some x.
Proof.
  induction r as [p|l|r1 IH1 r2 IH2|r1 IH1 r2 IH2|greedy lo hi p|n r IH| | |];
    intros prev s caps k x H.
  - cbn [Re.exec] in H. destruct s as [|c s]; [discriminate|].
    destruct (p c); [|discriminate].
    exists (String c ""), s, caps. split; [reflexivity | exact H].
  - rewrite exec_Lit in H. destruct (Str.startswith l s) eqn:E; [|discriminate].
    exists l, (Str.drop (Str.len l) s), caps.
    split; [apply startswith_split, E | exact H].
  - rewrite exec_Cat in H.
    apply IH1 in H as (a1 & b1 & caps1 & -> & H).
    apply IH2 in H as (a2 & b2 & caps2 & -> & H).
    exists (a1 +:+ a2), b2, caps2. rewrite app_assoc, prev_after_app. auto.
  - cbn [Re.exec] in H. destruct (Re.exec r1 prev s caps k) eqn:E.
    + injection H as ->. eauto.
    + eauto.
  - rewrite exec_Rep in H. apply rep_sound in H as (a & b & -> & _ & _ & _ & H).
    eauto.
  - rewrite exec_Grp in H. apply IH in H as (a & b & caps' & -> & H). eauto.
  - cbn [Re.exec] in H. destruct (Re.at_bol prev); [|discriminate].
    exists "", s, caps. auto.
  - cbn [Re.exec] in H. destruct (Re.at_eol s); [|discriminate].
    exists "", s, caps. auto.
  - cbn [Re.exec] in H. destruct (Re.at_wordb prev s); [|discriminate].
    exists "", s, caps. auto.
Qed.

Lemma exec_Lit_sound (l : string) (prev : option ascii) (s : string)
    (caps : Re.captures) k (x : R) :
  Re.exec (Re.Lit l) prev s caps k = Some x ->
  exists t, s = l +:+ t /\ k (prev_after prev l) t caps = Some x.
Proof.
  intros H. rewrite exec_Lit in H.
  destruct (Str.startswith l s) eqn:E; [|discriminate].
  eexists. split; [apply startswith_split, E | exact H].
Qed.

(** An alternation of literals consumes one of them. *)
Lemma exec_alts_sound {Y : Type} (f : Y -> string) (ys : list Y)
    (prev : option ascii) (s : string) (caps : Re.captures) k (x : R) :
  Re.exec (Re.alts (map (fun y => Re.Lit (f y)) ys)) prev s caps k = Some x ->
  exists y t, y ∈ ys /\ s = f y +:+ t /\ k (prev_after prev (f y)) t caps = Some x.
Proof.
  assert (Hone : forall y, Re.exec (Re.Lit (f y)) prev s caps k = Some x ->
    exists t, s = f y +:+ t /\ k (prev_after prev (f y)) t caps = Some x).
  { intros y H. rewrite exec_Lit in H.
    destruct (Str.startswith (f y) s) eqn:E; [|discriminate].
    eexists. split; [apply startswith_split, E | exact H]. }
  induction ys as [|y ys IH]; intros H.
  - cbn in H. destruct s; discriminate.
  - destruct ys as [|y' ys].
    + apply Hone in H as (t & Hs & Hk). exists y, t. split; [left|auto].
    + change (Re.alts (map (fun y => Re.Lit (f y)) (y :: y' :: ys)))
        with (Re.Alt (Re.Lit (f y)) (Re.alts (map (fun y => Re.Lit (f y)) (y' :: ys))))
        in H.
      cbn [Re.exec] in H. fold (@Re.exec R) in H.
      destruct (Re.lit (f y) prev s (fun prev' s' => k prev' s' caps)) eqn:E.
      * injection H as ->. apply Hone in E as (t & Hs & Hk).
        exists y, t. split; [left|auto].
      * apply IH in H as (y0 & t & Hin & Hs & Hk).
        exists y0, t. split; [right; exact Hin | auto].
Qed.

End ExecFacts.

(** Every match of a scan is a match of the expression at some position of
    the text; group 0 is the matched text. *)
Lemma finditer_go_match (r : Re.regex) (s : string) :
  forall (skip : nat) (prev : option ascii) (caps : Re.captures),
  caps ∈ Re.finditer_go r skip prev s ->
  exists prev0 pre a b caps',
    s = pre +:+ a +:+ b
    /\ Re.match_at r prev0 (a +:+ b) = Some (b, caps') /\ caps = (0, a) :: caps'.
Proof.
  assert (Hat : forall prev s0 s1 caps',
    Re.match_at r prev s0 = Some (s1, caps') ->
    exists a, s0 = a +:+ s1 /\ Str.take (Str.len s0 - Str.len s1) s0 = a).
  { intros prev s0 s1 caps' H. unfold Re.match_at in H.
    apply exec_sound in H as (a & b & caps2 & -> & H).
    injection H as <- _. exists a. split; [reflexivity | apply take_consumed]. }
  assert (Hnext : forall (c : ascii) (s : string) (caps : Re.captures),
    (exists prev0 pre a b caps',
       s = pre +:+ a +:+ b
       /\ Re.match_at r prev0 (a +:+ b) = Some (b, caps') /\ caps = (0, a) :: caps') ->
    exists prev0 pre a b caps',
      String c s = pre +:+ a +:+ b
      /\ Re.match_at r prev0 (a +:+ b) = Some (b, caps') /\ caps = (0, a) :: caps').
  { intros c s0 caps (prev0 & pre & a & b & caps' & -> & H1 & H2).
    exists prev0, (String c pre), a, b, caps'. rewrite app_cons. auto. }
  induction s as [|c s IH]; intros skip prev caps Hin.
  - destruct skip as [|n]; cbn [Re.finditer_go] in Hin; [|inversion Hin].
    destruct (Re.match_at r prev "") as [[s1 caps']|] eqn:E; [|inversion Hin].
    apply list_elem_of_singleton in Hin. subst caps.
    destruct (Hat _ _ _ _ E) as (a & Hs & ->).
    exists prev, "", a, s1, caps'. rewrite <- Hs. auto.
  - destruct skip as [|n]; cbn [Re.finditer_go] in Hin;
      [|apply Hnext; eauto].
    destruct (Re.match_at r prev (String c s)) as [[s1 caps']|] eqn:E;
      [|apply Hnext; eauto].
    apply elem_of_cons in Hin as [->|Hin]; [|apply Hnext; eauto].
    destruct (Hat _ _ _ _ E) as (a & Hs & ->).
    exists prev, "", a, s1, caps'. rewrite <- Hs. auto.
Qed.

Lemma finditer_match (r : Re.regex) (s : string) (caps : Re.captures) :
  caps ∈ Re.finditer r s ->
  exists prev0 pre a b caps',
    s = pre +:+ a +:+ b
    /\ Re.match_at r prev0 (a +:+ b) = Some (b, caps') /\ caps = (0, a) :: caps'.
Proof. apply finditer_go_match. Qed.

(** ** The generic fallback parser (C3) *)

Lemma for_each_total_on {S A : Type} (body : S -> A -> result S) (l : list A) :
  (forall s x, x ∈ l -> exists s', body s x = Ok s') ->
  forall s, exists s', for_each body l s = Ok s'.
Proof.
  induction l as [|x l IH]; intros Hbody s; simpl; [eauto|].
  destruct (Hbody s x) as [s1 ->]; [left|]. simpl.
  apply IH. intros s2 y Hy. apply Hbody. right. exact Hy.
Qed.

Lemma dict_get_elem {V : Type} (d : list (string * V)) (key : string) (v : V) :
  (key, v) ∈ d -> exists v', dict_get d key = Ok v'.
Proof.
  induction d as [|[k0 v0] d IH]; intros Hin; [inversion Hin|].
  cbn [dict_get]. destruct (String.eqb k0 key) eqn:E; [eauto|].
  apply elem_of_cons in Hin as [Heq|Hin]; [|auto].
  injection Heq as -> ->. rewrite String.eqb_refl in E. discriminate.
Qed.

(** Group 2 of a match of an expression that ends in the alternation of the
    synonyms is a key of the table. *)
Lemma unittest_keys_group (prev : option ascii) (s b : string)
    (caps0 caps : Re.captures) :
  Re.exec (Re.Grp 2 unittest_keys) prev s caps0
          (fun _ s' caps' => Some (s', caps')) = Some (b, caps) ->
  exists st, dict_get UNITTEST_TO_PYTESTSTATUS (Re.group 2 caps) = Ok st.
Proof.
  intros H. rewrite exec_Grp in H. unfold unittest_keys in H.
  apply exec_alts_sound in H as ([key st] & t & Hin & -> & H).
  injection H as <- <-. cbn [fst Re.group Nat.eqb]. rewrite take_consumed.
  eapply dict_get_elem, Hin.
Qed.

Lemma unittest_dots_group (log : string) (caps : Re.captures) :
  caps ∈ Re.finditer unittest_dots log ->
  exists st, dict_get UNITTEST_TO_PYTESTSTATUS (Re.group 2 caps) = Ok st.
Proof.
  intros Hin. apply finditer_match in Hin as (prev & pre & a & b & caps' & _ & H & ->).
  unfold Re.match_at, unittest_dots in H. cbn [Re.seq] in H.
  rewrite exec_Cat in H. apply exec_sound in H as (a1 & b1 & c1 & _ & H).
  rewrite exec_Cat in H. apply exec_sound in H as (a2 & b2 & c2 & _ & H).
  rewrite exec_Cat in H. apply exec_sound in H as (a3 & b3 & c3 & _ & H).
  rewrite exec_Cat in H. apply exec_sound in H as (a4 & b4 & c4 & _ & H).
  apply unittest_keys_group in H. exact H.
Qed.

Lemma unittest_newline_group (log : string) (caps : Re.captures) :
  caps ∈ Re.finditer unittest_newline log ->
  exists st, dict_get UNITTEST_TO_PYTESTSTATUS (Re.group 2 caps) = Ok st.
Proof.
  intros Hin. apply finditer_match in Hin as (prev & pre & a & b & caps' & _ & H & ->).
  unfold Re.match_at, unittest_newline in H. cbn [Re.seq] in H.
  rewrite exec_Cat in H. apply exec_sound in H as (a1 & b1 & c1 & _ & H).
  rewrite exec_Cat in H. apply exec_sound in H as (a2 & b2 & c2 & _ & H).
  apply unittest_keys_group in H. exact H.
Qed.

Lemma unittest_record_total (d : gmap string string) (caps : Re.captures) :
  (exists st, dict_get UNITTEST_TO_PYTESTSTATUS (Re.group 2 caps) = Ok st) ->
  exists d', unittest_record d caps = Ok d'.
Proof.
  intros [st Hst]. unfold unittest_record.
  destruct (negb _); [eauto|]. destruct (bool_decide _); [eauto|].
  rewrite Hst. simpl. eauto.
Qed.

(** The second pass never raises: the status it looks up is a key. *)
Lemma parser_unittest_total (log : string) : exists d, parser_unittest log = Ok d.
Proof.
  unfold parser_unittest.
  destruct (for_each_total_on unittest_record (Re.finditer unittest_dots log))
    with (s := (∅ : gmap string string)) as [d ->].
  { intros d caps Hin. eapply unittest_record_total, unittest_dots_group, Hin. }
  simpl. apply for_each_total_on.
  intros d' caps Hin. eapply unittest_record_total, unittest_newline_group, Hin.
Qed.

(** The update keeps the first pass and adds the new names of the second. *)
Lemma first_wins_lookup (first second : gmap string string) (name : string) :
  dict_update first (filter (fun kv => first !! kv.1 = None) second) !! name
  = match first !! name with
    | Some status => Some status
    | None => second !! name
    end.
Proof.
  unfold dict_update. rewrite lookup_union.
  destruct (first !! name) as [status|] eqn:Hfirst.
  - rewrite (proj2 (map_lookup_filter_None _ _ _)); [reflexivity|].
    right. intros v _. simpl. congruence.
  - destruct (second !! name) as [v|] eqn:Hsecond.
    + rewrite (map_lookup_filter_Some_2 _ _ _ v); [reflexivity | exact Hsecond|].
      exact Hfirst.
    + rewrite (proj2 (map_lookup_filter_None _ _ _)); [reflexivity|].
      left. exact Hsecond.
Qed.

(** C3.  The generic fallback parser returns on every log, and its result
    gives every name of the status-prefix pass the status of that pass, and
    any other name what the second pass gives it.  On the log of the lines
    [FAILED test_x] and [test_x ... ok] the first pass reports [test_x] as
    failed, the second as passed, and the result keeps it as failed. *)
Theorem swa_parser_first_wins :
  (forall log : string,
     exists second m,
       parser_unittest (normalize_log log) = Ok second
       /\ swa_parser log = Ok m
       /\ forall name,
            m !! name = match parser_pytest (normalize_log log) !! name with
                        | Some status => Some status
                        | None => second !! name
                        end)
  /\ parser_pytest (normalize_log both_passes_log) = {["test_x" := "FAILED"]}
  /\ parser_unittest (normalize_log both_passes_log) = Ok {["test_x" := "PASSED"]}
  /\ swa_parser both_passes_log = Ok {["test_x" := "FAILED"]}.
Proof.
  split; [|repeat split; vm_compute; reflexivity].
  intros log. destruct (parser_unittest_total (normalize_log log)) as [second Hsecond].
  exists second. eexists. split; [exact Hsecond|].
  unfold swa_parser. rewrite Hsecond. split; [reflexivity|].
  intros name. apply first_wins_lookup.
Qed.

(** ** Names with options (C5) *)

(** A match of the pattern of options: the name, the options in brackets. *)
Lemma option_pattern_match (prev : option ascii) (s0 s1 : string)
    (caps : Re.captures) :
  Re.match_at option_pattern prev s0 = Some (s1, caps) ->
  exists main option,
    s0 = (main +:+ "[" +:+ option +:+ "]") +:+ s1
    /\ caps = [(2, option); (1, main)].
Proof.
  unfold Re.match_at, option_pattern, Re.lazy_star, Re.star. cbn [Re.seq].
  intros H. rewrite exec_Cat, exec_Grp, exec_Rep in H.
  apply rep_sound in H as (main & b1 & -> & _ & _ & _ & H).
  rewrite take_consumed, exec_Cat in H.
  apply exec_Lit_sound in H as (b2 & -> & H).
  rewrite exec_Cat, exec_Grp, exec_Rep in H.
  apply rep_sound in H as (option & b3 & -> & _ & _ & _ & H).
  rewrite take_consumed in H.
  apply exec_Lit_sound in H as (b4 & -> & H).
  injection H as <- <-. exists main, option.
  rewrite !app_assoc. auto.
Qed.

Lemma split_slash_cons (c : ascii) (s : string) :
  Str.split "/" (String c s)
  = if Char.one "/"%char c then "" :: Str.split "/" s
    else Str.cons_head c (Str.split "/" s).
Proof.
  unfold Str.split. cbn [Str.split_go]. rewrite startswith_cons.
  cbn [Str.startswith]. rewrite andb_true_r. reflexivity.
Qed.

Lemma contains_slash_cons (c : ascii) (s : string) :
  Str.contains "/" (String c s) = Char.one "/"%char c || Str.contains "/" s.
Proof.
  cbn [Str.contains]. rewrite startswith_cons. cbn [Str.startswith].
  rewrite andb_true_r. reflexivity.
Qed.

(** The last piece of a split at the slashes has no slash, and it is the
    whole text or what follows its last slash. *)
Lemma split_slash_last (s : string) :
  exists comp,
    last (Str.split "/" s) = Some comp /\ Str.contains "/" comp = false
    /\ ((Str.split "/" s = [comp] /\ s = comp)
        \/ (exists dir, s = dir +:+ "/" +:+ comp /\ 2 <= length (Str.split "/" s))).
Proof.
  induction s as [|c s (comp & Hlast & Hno & Hshape)].
  - exists "". repeat split; auto.
  - rewrite split_slash_cons. destruct (Char.one "/"%char c) eqn:Hc.
    + apply Ascii.eqb_eq in Hc. subst c. exists comp.
      assert (Hne : Str.split "/" s <> []) by apply split_go_nonempty.
      destruct (Str.split "/" s) as [|h t] eqn:E; [contradiction|].
      split; [exact Hlast|]. split; [exact Hno|]. right.
      destruct Hshape as [[_ ->]|(dir & -> & _)].
      * exists "". split; [reflexivity | simpl; lia].
      * exists (String "/"%char dir). split; [reflexivity | simpl; lia].
    + destruct Hshape as [[-> ->]|(dir & -> & Hlen)].
      * exists (String c comp). cbn [Str.cons_head last].
        rewrite contains_slash_cons, Hc, Hno. auto.
      * exists comp. destruct (Str.split "/" (dir +:+ "/" +:+ comp)) as [|h [|h' t]];
          simpl in Hlen; try lia.
        cbn [Str.cons_head]. split; [exact Hlast|]. split; [exact Hno|]. right.
        exists (String c dir). split; [reflexivity | simpl; lia].
Qed.

Lemma collapsible_slash (option : string) :
  collapsible option = true -> Str.contains "/" option = true.
Proof.
  unfold collapsible. intros H.
  apply andb_true_iff in H as [H _]. apply andb_true_iff in H as [H _].
  destruct option as [|c option]; [discriminate|].
  rewrite startswith_cons in H. apply andb_true_iff in H as [H _].
  rewrite contains_slash_cons. unfold Char.one. rewrite H. reflexivity.
Qed.

(** The rule on the name a test is recorded under, for any second token of
    a status line. *)
Lemma option_test_name_rule (token : string) :
  match Re.search option_pattern token with
  | None => option_test_name token = Ok token
  | Some caps =>
      let main := Re.group 1 caps in
      let option := Re.group 2 caps in
      (exists pre tail, token = pre +:+ main +:+ "[" +:+ option +:+ "]" +:+ tail)
      /\ if collapsible option
         then exists dir comp,
                option = dir +:+ "/" +:+ comp /\ Str.contains "/" comp = false
                /\ option_test_name token = Ok (main +:+ "[" +:+ "/" +:+ comp +:+ "]")
         else option_test_name token = Ok (main +:+ "[" +:+ option +:+ "]")
  end.
Proof.
  unfold option_test_name.
  destruct (Re.search option_pattern token) as [caps|] eqn:Hsearch; [|reflexivity].
  cbn zeta. split.
  - unfold Re.search in Hsearch.
    assert (Hin : caps ∈ Re.finditer option_pattern token).
    { destruct (Re.finditer option_pattern token); [discriminate|].
      injection Hsearch as ->. left. }
    apply finditer_match in Hin as (prev0 & pre & a & b & caps' & -> & H & ->).
    apply option_pattern_match in H as (main & option & Hab & ->).
    cbn [Re.group Nat.eqb]. exists pre, b. rewrite Hab, !app_assoc. reflexivity.
  - fold (collapsible (Re.group 2 caps)).
    destruct (collapsible (Re.group 2 caps)) eqn:Hcoll; [|reflexivity].
    destruct (split_slash_last (Re.group 2 caps))
      as (comp & Hlast & Hno & [[_ Heq]|(dir & Heq & _)]).
    + apply collapsible_slash in Hcoll. rewrite Heq in Hcoll. congruence.
    + exists dir, comp. split; [exact Heq|]. split; [exact Hno|].
      unfold index_last. rewrite Hlast. reflexivity.
Qed.

(** C5.  In the dialect with parameters the options in brackets are
    replaced by a slash and their last path component exactly when they
    start with one slash, not two, and have no star; otherwise they are kept
    as they are.  The line [PASSED test_foo[/home/user/data/file.txt]]
    records [test_foo[/file.txt]] as passed, and the line
    [PASSED test_foo[abc*]] records [test_foo[abc*]]. *)
Theorem options_collapsed_to_last_component :
  (forall token : string,
     match Re.search option_pattern token with
     | None => option_test_name token = Ok token
     | Some caps =>
         let main := Re.group 1 caps in
         let option := Re.group 2 caps in
         (exists pre tail, token = pre +:+ main +:+ "[" +:+ option +:+ "]" +:+ tail)
         /\ if Str.startswith "/" option && negb (Str.startswith "//" option)
               && negb (Str.contains "*" option)
            then exists dir comp,
                   option = dir +:+ "/" +:+ comp /\ Str.contains "/" comp = false
                   /\ option_test_name token
                      = Ok (main +:+ "[" +:+ "/" +:+ comp +:+ "]")
            else option_test_name token = Ok (main +:+ "[" +:+ option +:+ "]")
     end)
  /\ parse_log_pytest_options "PASSED test_foo[/home/user/data/file.txt]"
     = Ok {["test_foo[/file.txt]" := "PASSED"]}
  /\ parse_log_pytest_options "PASSED test_foo[abc*]"
     = Ok {["test_foo[abc*]" := "PASSED"]}.
Proof.
  split; [exact option_test_name_rule|].
  split; vm_compute; reflexivity.
Qed.

(** ** White space and tokens *)

Lemma contains_split (sub s : string) :
  Str.contains sub s = true -> exists a b, s = a +:+ sub +:+ b.
Proof.
  induction s as [|c s IH]; cbn [Str.contains]; intros H.
  - exists "", (Str.drop (Str.len sub) ""). apply startswith_split in H.
    rewrite app_nil_l. exact H.
  - apply orb_true_iff in H as [H|H].
    + exists "", (Str.drop (Str.len sub) (String c s)).
      rewrite app_nil_l. apply startswith_split, H.
    + destruct (IH H) as (a & b & ->). exists (String c a), b. reflexivity.
Qed.

Lemma contains_app (sub a b : string) : Str.contains sub (a +:+ sub +:+ b) = true.
Proof.
  induction a as [|c a IH].
  - rewrite app_nil_l. destruct (sub +:+ b) eqn:E; cbn [Str.contains];
      rewrite <- E, startswith_app; reflexivity.
  - rewrite app_cons. cbn [Str.contains]. rewrite IH. apply orb_true_r.
Qed.

Lemma rstrip_cons (c : ascii) (s : string) :
  Char.isspace c = false -> Str.rstrip (String c s) = String c (Str.rstrip s).
Proof.
  intros Hc. cbn [Str.rstrip]. destruct (Str.rstrip s); [rewrite Hc|]; reflexivity.
Qed.

Lemma rstrip_idem (s : string) : Str.rstrip (Str.rstrip s) = Str.rstrip s.
Proof.
  induction s as [|c s IH]; [reflexivity|].
  cbn [Str.rstrip]. destruct (Str.rstrip s) as [|c' r] eqn:E.
  - destruct (Char.isspace c) eqn:Hc; [reflexivity|].
    cbn [Str.rstrip]. rewrite Hc. reflexivity.
  - cbn [Str.rstrip] in *. rewrite IH. reflexivity.
Qed.

Lemma lstrip_head (s : string) :
  Str.lstrip s = "" \/ exists c t, Str.lstrip s = String c t /\ Char.isspace c = false.
Proof.
  induction s as [|c s IH]; [left; reflexivity|].
  cbn [Str.lstrip]. destruct (Char.isspace c) eqn:Hc; [exact IH|].
  right. exists c, s. auto.
Qed.

Lemma lstrip_nonspace (c : ascii) (s : string) :
  Char.isspace c = false -> Str.lstrip (String c s) = String c s.
Proof. intros Hc. cbn [Str.lstrip]. rewrite Hc. reflexivity. Qed.

(** A stripped text is empty or starts with a character that is no white
    space. *)
Lemma strip_head (s : string) :
  Str.strip s = "" \/ exists c t, Str.strip s = String c t /\ Char.isspace c = false.
Proof.
  unfold Str.strip. destruct (lstrip_head s) as [->|(c & t & -> & Hc)].
  - left. reflexivity.
  - right. rewrite (rstrip_cons c t Hc). eauto.
Qed.

Lemma strip_idem (s : string) : Str.strip (Str.strip s) = Str.strip s.
Proof.
  destruct (strip_head s) as [->|(c & t & E & Hc)]; [reflexivity|].
  unfold Str.strip at 1. rewrite E, (lstrip_nonspace c t Hc), <- E.
  unfold Str.strip. apply rstrip_idem.
Qed.

(** The number of tokens, character by character. *)
Lemma split_ws_space (c : ascii) (s : string) :
  Char.isspace c = true -> Str.split_ws (String c s) = Str.split_ws s.
Proof. intros Hc. cbn [Str.split_ws]. rewrite Hc. reflexivity. Qed.

Lemma split_ws_length_cons (c : ascii) (s : string) :
  Char.isspace c = false ->
  length (Str.split_ws (String c s))
  = match s with
    | "" => 1
    | String c' _ =>
        if Char.isspace c' then S (length (Str.split_ws s))
        else length (Str.split_ws s)
    end.
Proof.
  intros Hc. cbn [Str.split_ws]. rewrite Hc. destruct s as [|c' s']; [reflexivity|].
  destruct (Char.isspace c') eqn:Hc'; [reflexivity|].
  destruct (split_ws_first c' s' Hc') as (t & ts & ->). reflexivity.
Qed.

Lemma split_ws_length_pos (a : string) (c : ascii) (s : string) :
  Char.isspace c = false -> 1 <= length (Str.split_ws (a +:+ String c s)).
Proof.
  intros Hc. induction a as [|a0 a IH].
  - rewrite app_nil_l. destruct (split_ws_first c s Hc) as (t & ts & ->). simpl. lia.
  - rewrite app_cons. destruct (Char.isspace a0) eqn:Ha0.
    + rewrite split_ws_space; assumption.
    + rewrite split_ws_length_cons by assumption.
      destruct (a +:+ String c s) as [|c' s'] eqn:E; [lia|].
      destruct (Char.isspace c'); lia.
Qed.

(** A text that starts with a token and has a space before a later token
    has two tokens. *)
Lemma split_ws_two (c0 : ascii) (a : string) (sp c : ascii) (s : string) :
  Char.isspace c0 = false -> Char.isspace sp = true -> Char.isspace c = false ->
  2 <= length (Str.split_ws (String c0 (a +:+ String sp (String c s)))).
Proof.
  intros Hc0 Hsp Hc. revert c0 Hc0. induction a as [|a0 a IH]; intros c0 Hc0.
  - rewrite app_nil_l, split_ws_length_cons, Hsp by assumption.
    rewrite split_ws_space by assumption.
    destruct (split_ws_first c s Hc) as (t & ts & ->). simpl. lia.
  - rewrite app_cons, split_ws_length_cons by assumption.
    destruct (Char.isspace a0) eqn:Ha0.
    + rewrite split_ws_space by assumption.
      pose proof (split_ws_length_pos (a +:+ String sp "") c s Hc) as Hpos.
      rewrite app_assoc in Hpos. change (String sp "" +:+ String c s)
        with (String sp (String c s)) in Hpos. lia.
    + apply IH, Ha0.
Qed.

(** ** The django parser (C6) *)

Lemma django_ok_line (m : gmap string string) (t : string) :
  django_line {| status_map := m; prev_test := Some t |} "ok"
  = Ok {| status_map := <[t := "PASSED"]> m; prev_test := Some t |}.
Proof. reflexivity. Qed.

Lemma django_error_line (st : django_state) :
  django_line st "test_x ... ERROR"
  = Ok {| status_map := <["test_x" := "ERROR"]> (status_map st);
          prev_test := Some "test_x" |}.
Proof. reflexivity. Qed.

Lemma split_index0 (sep s : string) : exists x, index (Str.split sep s) 0 = Ok x.
Proof.
  unfold Str.split. pose proof (split_go_nonempty sep 0 s) as Hne.
  destruct (Str.split_go sep 0 s) as [|x l]; [contradiction|]. exists x. reflexivity.
Qed.

Lemma django_record_before_total (cond : bool) (sep line : string)
    (x : TestStatus) (m : gmap string string) :
  exists m', django_record_before cond sep line x m = Ok m'.
Proof.
  unfold django_record_before. destruct cond; [|eauto].
  destruct (split_index0 sep line) as [t ->]. simpl. eauto.
Qed.

Lemma django_record_labelled_total (label line : string) (x : TestStatus)
    (m : gmap string string) :
  (Str.startswith label line = true -> 2 <= length (Str.split_ws line)) ->
  exists m', django_record_labelled label line x m = Ok m'.
Proof.
  intros Hlen. unfold django_record_labelled.
  destruct (Str.startswith label line); [|eauto].
  destruct (index_Ok (Str.split_ws line) 1) as [t ->]; [specialize (Hlen eq_refl); lia|].
  simpl. eauto.
Qed.

(** The line after the loop on the suffixes is the line before it, or what
    follows the name of the migration. *)
Lemma django_pass_suffixes_line (suffixes : list string) (l : string)
    (m : gmap string string) :
  Str.strip l = l ->
  exists l1 m1, django_pass_suffixes suffixes l m = Ok (l1, m1)
                /\ (l1 = l \/ exists rest, l1 = String "t"%char rest).
Proof.
  intros Hstrip. induction suffixes as [|suffix suffixes IH];
    cbn [django_pass_suffixes]; [eauto|].
  destruct (Str.endswith suffix l); [|exact IH].
  rewrite Hstrip. destruct (Str.startswith migration_noise l) eqn:Hnoise.
  - apply startswith_split in Hnoise.
    set (rest := Str.drop (Str.len migration_noise) l) in Hnoise.
    rewrite Hnoise.
    change (Str.split1 "..." (migration_noise +:+ rest))
      with ["Applying sites.0002_alter_domain_unique"; "test_no_migrations" +:+ rest].
    cbn [index_last last mbind result_bind].
    change ("test_no_migrations" +:+ rest)
      with (String "t"%char ("est_no_migrations" +:+ rest)).
    unfold Str.strip. rewrite lstrip_nonspace, rstrip_cons by reflexivity.
    eexists _, _. split; [reflexivity|]. right. eauto.
  - cbn [mbind result_bind]. eauto.
Qed.

(** A stripped line with the infix marker has two tokens. *)
Lemma marker_line_tokens (l : string) :
  Str.strip l = l -> Str.contains " ... " l = true -> 2 <= length (Str.split_ws l).
Proof.
  intros Hstrip Hc. apply contains_split in Hc as (a & b & E).
  destruct (strip_head l) as [H0|(c0 & t & H0 & Hc0)]; rewrite Hstrip in H0.
  - rewrite H0 in E. destruct a; discriminate.
  - destruct a as [|a0 a].
    + rewrite E in H0. injection H0 as <- _. discriminate.
    + rewrite E in H0. rewrite app_cons in H0. injection H0 as -> _.
      rewrite E, app_cons.
      change (" ... " +:+ b) with (String " "%char (String "."%char (".. " +:+ b))).
      apply split_ws_two; [exact Hc0 | reflexivity | reflexivity].
Qed.

(** A line with the infix marker sets the pending name, and a line [ok]
    after it records that name as passed. *)
Lemma django_pending_then_ok (st : django_state) (line : string) :
  Str.contains " ... " (Str.strip line) = true ->
  exists name st1 st2,
    index (Str.split " ... " (Str.strip line)) 0 = Ok name
    /\ django_line st line = Ok st1 /\ prev_test st1 = Some name
    /\ django_line st1 "ok" = Ok st2
    /\ status_map st2 !! name = Some "PASSED".
Proof.
  intros Hmarker. unfold django_line.
  set (l := Str.strip line) in *. rewrite Hmarker.
  match goal with |- context [django_pass_suffixes _ l ?m] => set (m0 := m) end.
  destruct (split_index0 " ... " l) as [name Hname]. rewrite Hname.
  cbn [mbind result_bind].
  assert (Hstrip : Str.strip l = l) by apply strip_idem.
  destruct (django_pass_suffixes_line pass_suffixes l m0 Hstrip)
    as (l1 & m1 & -> & Hl1).
  cbn [mbind result_bind].
  assert (Hlabel : forall label, (label = "FAIL:" \/ label = "ERROR:") ->
            Str.startswith label l1 = true -> 2 <= length (Str.split_ws l1)).
  { intros label Hlab Hstart. destruct Hl1 as [->|[rest ->]].
    - apply marker_line_tokens; assumption.
    - destruct Hlab as [->| ->]; discriminate Hstart. }
  destruct (django_record_before_total
              (Str.contains " ... skipped" l1) " ... skipped" l1 SKIPPED m1)
    as [m2 ->]. cbn [mbind result_bind].
  destruct (django_record_before_total
              (Str.endswith " ... FAIL" l1) " ... FAIL" l1 FAILED m2)
    as [m3 ->]. cbn [mbind result_bind].
  destruct (django_record_labelled_total "FAIL:" l1 FAILED m3) as [m4 ->];
    [apply Hlabel; auto|]. cbn [mbind result_bind].
  destruct (django_record_before_total
              (Str.endswith " ... ERROR" l1) " ... ERROR" l1 ERROR m4)
    as [m5 ->]. cbn [mbind result_bind].
  destruct (django_record_labelled_total "ERROR:" l1 ERROR m5) as [m6 ->];
    [apply Hlabel; auto|]. cbn [mbind result_bind].
  eexists name, _, _. split; [reflexivity|]. split; [reflexivity|].
  split; [reflexivity|]. split; [apply django_ok_line|].
  cbn [status_map]. apply lookup_insert_eq.
Qed.

(** The pass on the interrupted status lines records passed tests only. *)
Lemma django_matches_keep_passed (log name : string) (patterns : list Re.regex)
    (m : gmap string string) :
  m !! name = Some "PASSED" ->
  foldl (django_record_matches log) m patterns !! name = Some "PASSED".
Proof.
  revert m. induction patterns as [|p patterns IH]; intros m Hm; [exact Hm|].
  cbn [foldl]. apply IH. unfold django_record_matches.
  generalize (Re.finditer p log). intros l. revert m Hm.
  induction l as [|caps l IHl]; intros m Hm; [exact Hm|].
  cbn [foldl]. apply IHl. rewrite lookup_insert.
  destruct (decide (Re.group 1 caps = name)); [reflexivity | exact Hm].
Qed.

(** A claim that does not hold: that a log with the line
    [test_x ... ERROR] maps [test_x] to the error status whatever its other
    lines are.  A later line of the same test overwrites the status. *)
Lemma django_error_line_overwritten :
  ~ (forall log : string,
       "test_x ... ERROR" ∈ Str.split nl log ->
       exists m, parse_log_django log = Ok m /\ m !! "test_x" = Some "ERROR").
Proof.
  intros H.
  destruct (H ("test_x ... ERROR" +:+ nl +:+ "test_x ... ok")) as (m & Hm & Hx).
  - vm_compute. left.
  - vm_compute in Hm. injection Hm as <-. vm_compute in Hx. discriminate.
Qed.

(** C6, in the form that holds.  The one-line log [test_thing (module.Case) ... ok] yields
    that name as passed and nothing else.  The line [test_x ... ERROR]
    records [test_x] as error when it is scanned, whatever was recorded
    before, and the log of this line alone maps [test_x] to error; later
    lines can record the test again.  A line with the infix marker sets the
    pending name to the text before the marker, and a line [ok] after it
    records that name as passed: the log of such a line and the line [ok]
    maps the name to passed. *)
Theorem django_narrative_lines :
  parse_log_django "test_thing (module.Case) ... ok"
  = Ok {["test_thing (module.Case)" := "PASSED"]}
  /\ parse_log_django "test_x ... ERROR" = Ok {["test_x" := "ERROR"]}
  /\ (forall st : django_state,
        django_line st "test_x ... ERROR"
        = Ok {| status_map := <["test_x" := "ERROR"]> (status_map st);
                prev_test := Some "test_x" |})
  /\ (forall (st : django_state) (line : string),
        Str.contains " ... " (Str.strip line) = true ->
        exists name st1 st2,
          index (Str.split " ... " (Str.strip line)) 0 = Ok name
          /\ django_line st line = Ok st1 /\ prev_test st1 = Some name
          /\ django_line st1 "ok" = Ok st2
          /\ status_map st2 !! name = Some "PASSED")
  /\ (forall line : string,
        is_line line = true -> Str.contains " ... " (Str.strip line) = true ->
        exists name m,
          index (Str.split " ... " (Str.strip line)) 0 = Ok name
          /\ parse_log_django (line +:+ nl +:+ "ok") = Ok m
          /\ m !! name = Some "PASSED").
Proof.
  split; [vm_compute; reflexivity|].
  split; [vm_compute; reflexivity|].
  split; [exact django_error_line|].
  split; [exact django_pending_then_ok|].
  intros line Hline Hmarker.
  destruct (django_pending_then_ok {| status_map := ∅; prev_test := None |}
              line Hmarker) as (name & st1 & st2 & Hname & H1 & _ & H2 & Hlook).
  exists name. unfold parse_log_django.
  rewrite (split_nl_line line "ok" Hline).
  change (Str.split nl "ok") with ["ok"].
  cbn [for_each]. rewrite H1. cbn [mbind result_bind]. rewrite H2.
  cbn [mbind result_bind]. eexists. split; [exact Hname|].
  split; [reflexivity|]. apply django_matches_keep_passed, Hlook.
Qed.

(** C6 at a line: the line [a ... b] sets the pending name [a], which the
    line [ok] records as passed. *)
Lemma django_narrative_lines_witness :
  Str.contains " ... " (Str.strip "a ... b") = true
  /\ exists name m,
       index (Str.split " ... " (Str.strip "a ... b")) 0 = Ok name
       /\ parse_log_django ("a ... b" +:+ nl +:+ "ok") = Ok m
       /\ m !! name = Some "PASSED".
Proof.
  split; [reflexivity|].
  apply (proj2 (proj2 (proj2 (proj2 django_narrative_lines))));
    reflexivity.
Defined.

(** ** The sympy parser (C10) *)

(** A greedy quantifier without bounds stops at the last position where the
    continuation returns. *)
Lemma rep_greedy_last {R : Type} (p : ascii -> bool) (s : string) :
  forall (prev : option ascii) (k : option ascii -> string -> option R) (x : R),
  Re.rep true p 0 None prev s k = Some x ->
  exists a b, s = a +:+ b /\ all_chars p a = true
              /\ k (prev_after prev a) b = Some x
              /\ forall a' b', s = a' +:+ b' -> all_chars p a' = true ->
                               Str.len a < Str.len a' ->
                               k (prev_after prev a') b' = None.
Proof.
  induction s as [|c s IH]; intros prev k x H.
  - rewrite rep_nil in H. exists "", "". repeat split; auto.
    intros a' b' Heq _ Hlen. destruct a'; [simpl in Hlen; lia | discriminate].
  - rewrite rep_cons in H. unfold rep_more in H. cbn [Re.allows] in H.
    rewrite andb_true_r in H. change (pred <$> None) with (@None nat) in H.
    change (pred 0) with 0 in H.
    destruct (p c) eqn:Hc.
    + destruct (Re.rep true p 0 None (Some c) s k) as [y|] eqn:Hrec;
        cbv beta iota in H.
      * injection H as ->. apply IH in Hrec as (a & b & -> & Ha & Hk & Hmax).
        exists (String c a), b. rewrite app_cons. cbn [all_chars prev_after].
        rewrite Hc, Ha. repeat split; auto.
        intros a' b' Heq Ha' Hlen. destruct a' as [|c' a']; [simpl in Hlen; lia|].
        rewrite app_cons in Heq. injection Heq as <- Heq.
        cbn [all_chars] in Ha'. apply andb_true_iff in Ha' as [_ Ha'].
        apply Hmax; [exact Heq | exact Ha' | simpl in Hlen; simpl; lia].
      * exists "", (String c s). repeat split; auto.
        intros a' b' Heq Ha' Hlen. destruct a' as [|c' a']; [simpl in Hlen; lia|].
        rewrite app_cons in Heq. injection Heq as <- Heq.
        cbn [all_chars] in Ha'. apply andb_true_iff in Ha' as [_ Ha'].
        cbn [prev_after].
        destruct (k (prev_after (Some c) a') b') as [y|] eqn:Hk; [|reflexivity].
        assert (Hsome : is_Some (Re.rep true p 0 None (Some c) s k)).
        { rewrite Heq. apply rep_complete; [exact Ha' | lia | exact I |].
          rewrite Hk. eauto. }
        rewrite Hrec in Hsome. destruct Hsome as [? [=]].
    + exists "", (String c s). repeat split; auto.
      intros a' b' Heq Ha' Hlen. destruct a' as [|c' a']; [simpl in Hlen; lia|].
      rewrite app_cons in Heq. injection Heq as <- Heq.
      cbn [all_chars] in Ha'. rewrite Hc in Ha'. discriminate.
Qed.

Lemma app_inv_tail (a b t : string) : a +:+ t = b +:+ t -> a = b.
Proof.
  revert b. induction a as [|c a IH]; intros b H.
  - destruct b as [|c' b]; [reflexivity|]. exfalso.
    apply (f_equal Str.len) in H. rewrite app_nil_l, len_app in H. simpl in H. lia.
  - destruct b as [|c' b].
    + exfalso. apply (f_equal Str.len) in H. rewrite app_nil_l, len_app in H.
      simpl in H. lia.
    + rewrite !app_cons in H. injection H as -> H. f_equal. apply IH, H.
Qed.

Lemma app_len_nil (a b : string) : Str.len (a +:+ b) <= Str.len a -> b = "".
Proof. rewrite len_app. destruct b; [reflexivity | simpl; lia]. Qed.

Lemma app_eq_nil (a b : string) : a +:+ b = "" -> a = "" /\ b = "".
Proof. destruct a; [rewrite app_nil_l; auto | discriminate]. Qed.

(** A text that ends a text with a last space, and is not empty, has that
    last space. *)
Lemma app_last_space (u t body : string) :
  body +:+ " " = u +:+ t -> t <> "" ->
  exists t1, t = t1 +:+ " " /\ body = u +:+ t1.
Proof.
  revert body. induction u as [|c0 u IH]; intros body Heq Hne.
  - rewrite app_nil_l in Heq. exists body. auto.
  - destruct body as [|c1 body].
    + rewrite app_nil_l, app_cons in Heq. injection Heq as _ Heq.
      symmetry in Heq. apply app_eq_nil in Heq as [_ ->]. contradiction.
    + rewrite !app_cons in Heq. injection Heq as -> Heq.
      destruct (IH body Heq Hne) as (t1 & -> & ->). exists t1. auto.
Qed.

(** A match of the banner pattern at the front of a line between two
    spaces takes the whole line. *)
Lemma sympy_pattern_whole_line (body s1 : string) (caps : Re.captures) :
  is_line body = true ->
  Re.match_at sympy_pattern None (" " +:+ body +:+ " ") = Some (s1, caps) ->
  s1 = "" /\ Re.group 2 caps +:+ ".py:" +:+ Re.group 3 caps = body.
Proof.
  intros Hline. unfold Re.match_at, sympy_pattern, Re.star. cbn [Re.seq]. intros H.
  rewrite exec_Cat, exec_Grp, exec_Rep in H.
  apply rep_sound in H as (g1 & b1 & Hs & Hg1 & _ & _ & H).
  destruct g1 as [|c g1]; [|rewrite app_cons in Hs; injection Hs as <- _;
                            discriminate Hg1].
  rewrite app_nil_l in Hs. subst b1. cbn [prev_after Str.len] in H.
  rewrite exec_Cat in H. apply exec_Lit_sound in H as (b2 & Hs & H).
  apply (inj (String.app " ")) in Hs. subst b2.
  rewrite exec_Cat, exec_Grp, exec_Rep in H.
  apply rep_sound in H as (g2 & b3 & Hs & _ & _ & _ & H).
  rewrite Hs, take_consumed in H.
  rewrite exec_Cat in H. apply exec_Lit_sound in H as (b4 & -> & H).
  rewrite exec_Cat, exec_Grp, exec_Rep in H.
  apply rep_greedy_last in H as (g3 & b5 & -> & Hg3 & H & Hmax).
  rewrite take_consumed in H.
  rewrite exec_Cat in H. apply exec_Lit_sound in H as (b6 & -> & H).
  rewrite exec_Grp, exec_Rep in H.
  apply rep_sound in H as (g4 & b7 & -> & _ & _ & _ & H).
  rewrite take_consumed in H. injection H as -> <-.
  cbn [Re.group Nat.eqb].
  assert (Hend : g4 +:+ s1 = "").
  { destruct (g4 +:+ s1) as [|c t] eqn:E; [reflexivity|]. exfalso.
    assert (Hu : body +:+ " " = (g2 +:+ ".py:" +:+ g3 +:+ " ") +:+ String c t).
    { rewrite Hs, !app_assoc. reflexivity. }
    apply app_last_space in Hu as (t1 & Ht1 & Hbody); [|discriminate].
    assert (Hdots : all_chars Char.isdot (g3 +:+ " " +:+ t1) = true).
    { unfold is_line in Hline. rewrite Hbody, !app_assoc in Hline.
      rewrite !all_chars_app in Hline. rewrite !all_chars_app.
      repeat (apply andb_true_iff in Hline as [? Hline]).
      repeat (apply andb_true_iff; split); assumption. }
    specialize (Hmax (g3 +:+ " " +:+ t1) " ").
    rewrite Ht1, !app_assoc in Hmax. specialize (Hmax eq_refl Hdots).
    rewrite !len_app in Hmax. specialize (Hmax ltac:(simpl; lia)).
    rewrite exec_Cat, exec_Lit in Hmax.
    change (Str.startswith " " " ") with true in Hmax. cbv beta iota in Hmax.
    change (Str.drop (Str.len " ") " ") with "" in Hmax.
    rewrite exec_Grp, exec_Rep, rep_nil in Hmax. discriminate Hmax. }
  apply app_eq_nil in Hend as [-> ->]. split; [reflexivity|].
  apply (app_inv_tail _ _ " "). rewrite Hs, !app_assoc. reflexivity.
Qed.

(** The banner pattern matches at the front of a line between two spaces
    that has the marker of a file: no underscore is needed. *)
Lemma sympy_pattern_matches_line (body : string) :
  is_line body = true -> Str.contains ".py:" body = true ->
  is_Some (Re.match_at sympy_pattern None (" " +:+ body +:+ " ")).
Proof.
  intros Hline Hmarker. apply contains_split in Hmarker as (a & b & ->).
  unfold is_line in Hline. rewrite !all_chars_app in Hline.
  apply andb_true_iff in Hline as [Ha Hline].
  apply andb_true_iff in Hline as [_ Hb].
  unfold Re.match_at, sympy_pattern, Re.star. cbn [Re.seq].
  rewrite exec_Cat, exec_Grp, exec_Rep.
  apply (rep_complete true (Char.one "_"%char) "" _ 0 None None);
    [reflexivity | simpl; lia | exact I|].
  cbn [prev_after].
  change (String " "%char ((a +:+ ".py:" +:+ b) +:+ " "))
    with (" " +:+ (a +:+ ".py:" +:+ b) +:+ " ").
  rewrite exec_Cat, exec_Lit, startswith_app, drop_app.
  rewrite exec_Cat, exec_Grp, exec_Rep, !app_assoc.
  apply rep_complete; [exact Ha | lia | exact I|].
  rewrite exec_Cat, exec_Lit, startswith_app, drop_app.
  rewrite exec_Cat, exec_Grp, exec_Rep.
  apply rep_complete; [exact Hb | lia | exact I|].
  rewrite exec_Cat, exec_Lit. change (Str.startswith " " " ") with true.
  cbv beta iota. change (Str.drop (Str.len " ") " ") with "".
  rewrite exec_Grp, exec_Rep, rep_nil. eauto.
Qed.

(** The first loop records failed tests only. *)
Lemma sympy_matches_keep_failed (name : string) (l : list Re.captures)
    (m : gmap string string) :
  m !! name = Some "FAILED" ->
  foldl (fun m caps =>
           <[Re.group 2 caps +:+ ".py:" +:+ Re.group 3 caps := value FAILED]> m)
        m l !! name = Some "FAILED".
Proof.
  revert m. induction l as [|caps l IH]; intros m Hm; [exact Hm|].
  cbn [foldl]. apply IH. rewrite lookup_insert.
  destruct (decide _); [reflexivity | exact Hm].
Qed.

Lemma sympy_matches_line (body : string) :
  is_line body = true -> Str.contains ".py:" body = true ->
  sympy_matches (" " +:+ body +:+ " ") !! body = Some "FAILED".
Proof.
  intros Hline Hmarker. unfold sympy_matches, Re.finditer.
  change (" " +:+ body +:+ " ") with (String " "%char (body +:+ " ")).
  cbn [Re.finditer_go].
  change (String " "%char (body +:+ " ")) with (" " +:+ body +:+ " ").
  destruct (sympy_pattern_matches_line body Hline Hmarker) as [[s1 caps] E].
  rewrite E. destruct (sympy_pattern_whole_line body s1 caps Hline E) as [_ Hkey].
  cbn [foldl]. apply sympy_matches_keep_failed.
  cbn [Re.group Nat.eqb]. rewrite Hkey. apply lookup_insert_eq.
Qed.

(** Tokens have no white space. *)
Lemma split_ws_tokens (s : string) :
  Forall (fun t => all_chars (Char.non Char.isspace) t = true) (Str.split_ws s).
Proof.
  induction s as [|c s IH]; [constructor|].
  cbn [Str.split_ws]. destruct (Char.isspace c) eqn:Hc; [exact IH|].
  assert (Hone : all_chars (Char.non Char.isspace) (String c "") = true).
  { cbn [all_chars]. unfold Char.non. rewrite Hc. reflexivity. }
  destruct s as [|c' s']; [repeat constructor; exact Hone|].
  destruct (Char.isspace c') eqn:Hc'; [constructor; [exact Hone | exact IH]|].
  unfold Str.cons_head. destruct (Str.split_ws (String c' s')) as [|h t].
  - repeat constructor. exact Hone.
  - inversion IH as [|? ? Hh Ht]; subst. constructor; [|exact Ht].
    cbn [all_chars]. unfold Char.non at 1. rewrite Hc, Hh. reflexivity.
Qed.

Lemma all_chars_drop (p : ascii -> bool) (n : nat) (s : string) :
  all_chars p s = true -> all_chars p (Str.drop n s) = true.
Proof.
  revert n. induction s as [|c s IH]; intros n H; [destruct n; exact H|].
  destruct n as [|n]; [exact H|]. cbn [Str.drop].
  cbn [all_chars] in H. apply andb_true_iff in H as [_ H]. apply IH, H.
Qed.

(** A text without white space does not end with a mark that has a space. *)
Lemma endswith_space_mark (mark s : string) :
  all_chars (Char.non Char.isspace) s = true ->
  Str.endswith (String " "%char mark) s = false.
Proof.
  intros Hs. unfold Str.endswith.
  destruct (String.eqb (Str.drop _ s) (String " "%char mark)) eqn:E;
    [|apply andb_false_r].
  apply String.eqb_eq in E.
  apply (all_chars_drop _ (Str.len s - Str.len (String " "%char mark))) in Hs.
  rewrite E in Hs. discriminate Hs.
Qed.

(** A text without white space, between two spaces, is what is left after
    stripping. *)
Lemma strip_padded (body : string) :
  all_chars (Char.non Char.isspace) body = true ->
  Str.strip (" " +:+ body +:+ " ") = body.
Proof.
  intros Hbody. unfold Str.strip.
  change (" " +:+ body +:+ " ") with (String " "%char (body +:+ " ")).
  cbn [Str.lstrip]. change (Char.isspace " ") with true. cbv iota.
  destruct body as [|c0 body0] eqn:Ebody; [reflexivity|]. rewrite <- Ebody in *.
  assert (Hl : Str.lstrip (body +:+ " ") = body +:+ " ").
  { rewrite Ebody in *. cbn [all_chars] in Hbody.
    apply andb_true_iff in Hbody as [Hc _].
    unfold Char.non in Hc. apply negb_true_iff in Hc.
    rewrite app_cons. apply lstrip_nonspace, Hc. }
  rewrite Hl. clear Hl Ebody. induction body as [|c body IH]; [reflexivity|].
  cbn [all_chars] in Hbody. apply andb_true_iff in Hbody as [Hc Hbody].
  unfold Char.non in Hc. apply negb_true_iff in Hc.
  rewrite app_cons, rstrip_cons, IH by assumption. reflexivity.
Qed.

(** The second loop leaves the name of the banner alone. *)
Lemma sympy_record_other (mark line name : string) (x : TestStatus)
    (m m' : gmap string string) :
  (Str.endswith mark line = true ->
   forall key, index (Str.split_ws line) 0 = Ok key -> key <> name) ->
  sympy_record mark line x m = Ok m' -> m' !! name = m !! name.
Proof.
  intros Hkey. unfold sympy_record.
  destruct (Str.endswith mark line); [|intros [= <-]; reflexivity].
  destruct (index (Str.split_ws line) 0) as [key|e] eqn:E; [|discriminate].
  cbn [mbind result_bind]. intros [= <-].
  apply lookup_insert_ne. apply Hkey; reflexivity.
Qed.

Lemma sympy_line_other (body : string) (m m' : gmap string string) :
  sympy_line m (" " +:+ body +:+ " ") = Ok m' -> m' !! body = m !! body.
Proof.
  unfold sympy_line. set (l := Str.strip (" " +:+ body +:+ " ")).
  assert (Hkey : forall mark, Str.endswith (String " "%char mark) l = true ->
            forall key, index (Str.split_ws l) 0 = Ok key -> key <> body).
  { intros mark Hend key Hidx ->. unfold index in Hidx.
    destruct (Str.split_ws l !! 0) as [t|] eqn:Ht; [|discriminate].
    injection Hidx as ->.
    pose proof (split_ws_tokens l) as Htok.
    rewrite Forall_lookup in Htok. specialize (Htok 0 body Ht). cbv beta in Htok.
    unfold l in Hend. rewrite (strip_padded body Htok) in Hend.
    rewrite (endswith_space_mark mark body Htok) in Hend. discriminate. }
  destruct (Str.startswith "test_" l); [|intros [= <-]; reflexivity].
  intros H. apply bind_Ok in H as (m1 & H1 & H).
  apply bind_Ok in H as (m2 & H2 & H3).
  apply (sympy_record_other _ _ body) in H1; [|apply Hkey].
  apply (sympy_record_other _ _ body) in H2; [|apply Hkey].
  apply (sympy_record_other _ _ body) in H3; [|apply Hkey].
  congruence.
Qed.

(** A claim that does not hold: that every occurrence of a name with the
    marker of a file between two spaces is recorded under that name.  The
    groups of the pattern are as long as can be: on a line with two
    occurrences the one recorded name spans both. *)
Lemma sympy_inner_occurrence_not_recorded :
  ~ (forall log name rest : string,
       Str.contains (" " +:+ name +:+ ".py:" +:+ rest +:+ " ") log = true ->
       exists m, parse_log_sympy log = Ok m
                 /\ m !! (name +:+ ".py:" +:+ rest) = Some "FAILED").
Proof.
  intros H.
  destruct (H " a.py:1 b.py:2 " "a" "1") as (m & Hm & Hx); [reflexivity|].
  vm_compute in Hm. injection Hm as <-. vm_compute in Hx. discriminate.
Qed.

(** C10, in the form that holds.  The banner pattern needs no underscore: its runs of
    underscores can be empty.  A log that is one line of the shape of a
    space, a text with the marker [.py:], and a space records that text as
    failed; the log [ a.py:1 ] yields [a.py:1] as failed and nothing else.
    The groups being as long as can be, a line with several such
    occurrences records one name only, up to the last space of the line. *)
Theorem sympy_banner_needs_no_underscore :
  parse_log_sympy " a.py:1 " = Ok {["a.py:1" := "FAILED"]}
  /\ (forall body : string,
        is_line body = true -> Str.contains ".py:" body = true ->
        exists m, parse_log_sympy (" " +:+ body +:+ " ") = Ok m
                  /\ m !! body = Some "FAILED")
  /\ parse_log_sympy " a.py:1 b.py:2 " = Ok {["a.py:1 b.py:2" := "FAILED"]}.
Proof.
  split; [vm_compute; reflexivity|]. split; [|vm_compute; reflexivity].
  intros body Hline Hmarker. unfold parse_log_sympy.
  assert (Hl : is_line (" " +:+ body +:+ " ") = true).
  { unfold is_line in *. rewrite !all_chars_app, Hline. reflexivity. }
  rewrite (split_nl_single _ Hl). cbn [for_each].
  destruct (sympy_line_total (sympy_matches (" " +:+ body +:+ " "))
              (" " +:+ body +:+ " ")) as [m Hm].
  rewrite Hm. cbn [mbind result_bind]. exists m. split; [reflexivity|].
  rewrite (sympy_line_other body _ m Hm).
  apply sympy_matches_line; assumption.
Qed.

(** C10 on the log [ dir/mod.py:12 ]. *)
Lemma sympy_banner_needs_no_underscore_witness :
  is_line "dir/mod.py:12" = true /\ Str.contains ".py:" "dir/mod.py:12" = true
  /\ exists m, parse_log_sympy (" " +:+ "dir/mod.py:12" +:+ " ") = Ok m
               /\ m !! "dir/mod.py:12" = Some "FAILED".
Proof.
  split; [reflexivity|]. split; [reflexivity|].
  apply (proj1 (proj2 sympy_banner_needs_no_underscore)); reflexivity.
Defined.

(** ** Occurrences of a text *)

Lemma startswith_nil_false (c : ascii) (sub : string) :
  Str.startswith (String c sub) "" = false.
Proof. reflexivity. Qed.

Lemma contains_cons (sub : string) (c : ascii) (s : string) :
  Str.contains sub (String c s) = Str.startswith sub (String c s) || Str.contains sub s.
Proof. reflexivity. Qed.

Lemma count_go_cons (sub : string) (c : ascii) (s : string) :
  Str.count_go sub 0 (String c s)
  = if Str.startswith sub (String c s)
    then S (Str.count_go sub (Str.len sub - 1) s)
    else Str.count_go sub 0 s.
Proof. reflexivity. Qed.

Lemma startswith_nonempty_nil (sub : string) :
  sub <> "" -> Str.startswith sub "" = false.
Proof. destruct sub; [contradiction | reflexivity]. Qed.

(** A text that is not empty occurs when it is counted at least once. *)
Lemma contains_count (sub s : string) :
  sub <> "" -> Str.contains sub s = (0 <? Str.count sub s).
Proof.
  intros Hsub. unfold Str.count. induction s as [|c s IH].
  - cbn [Str.contains Str.count_go]. apply startswith_nonempty_nil, Hsub.
  - rewrite contains_cons, count_go_cons.
    destruct (Str.startswith sub (String c s)); [reflexivity | exact IH].
Qed.

Lemma find_startswith (sub s : string) :
  Str.startswith sub s = true -> Str.find sub s = 0%Z.
Proof. intros H. destruct s; cbn [Str.find]; rewrite H; reflexivity. Qed.

Lemma find_cons (sub : string) (c : ascii) (s : string) :
  Str.startswith sub (String c s) = false ->
  Str.find sub (String c s)
  = if (Str.find sub s <? 0)%Z then (-1)%Z else (Str.find sub s + 1)%Z.
Proof. intros H. cbn [Str.find]. rewrite H. reflexivity. Qed.

(** [find] gives [-1] when there is no occurrence, and the place of the
    first one otherwise. *)
Lemma find_spec (sub s : string) :
  (Str.contains sub s = false /\ Str.find sub s = (-1)%Z)
  \/ exists pre rest,
       s = pre +:+ sub +:+ rest /\ Str.find sub s = Z.of_nat (Str.len pre)
       /\ starts_after sub pre (sub +:+ rest).
Proof.
  induction s as [|c s IH].
  - destruct (Str.startswith sub "") eqn:E.
    + right. exists "", (Str.drop (Str.len sub) "").
      split; [rewrite app_nil_l; apply startswith_split, E|].
      split; [apply find_startswith, E|].
      intros a b Hab Hb. apply eq_sym, app_eq_nil in Hab as [_ ->]. contradiction.
    + left. cbn [Str.contains Str.find]. rewrite E. auto.
  - destruct (Str.startswith sub (String c s)) eqn:E.
    + right. exists "", (Str.drop (Str.len sub) (String c s)).
      split; [rewrite app_nil_l; apply startswith_split, E|].
      split; [apply find_startswith, E|].
      intros a b Hab Hb. apply eq_sym, app_eq_nil in Hab as [_ ->]. contradiction.
    + rewrite contains_cons, E, (find_cons _ _ _ E).
      destruct IH as [[Hc Hf]|(pre & rest & Hs & Hf & Hfirst)].
      * left. rewrite Hc, Hf. auto.
      * right. exists (String c pre), rest. rewrite Hf.
        split; [rewrite Hs; reflexivity|].
        split; [destruct (Z.ltb_spec (Z.of_nat (Str.len pre)) 0);
                [lia | unfold Str.len; simpl String.length; lia]|].
        intros a b Hab Hb. destruct a as [|c' a].
        -- rewrite app_nil_l in Hab. subst b. rewrite app_cons, <- Hs. exact E.
        -- rewrite app_cons in Hab. injection Hab as _ Hab.
           apply (Hfirst a b Hab Hb).
Qed.

Lemma slice_from_len (pre rest : string) :
  Str.slice_from (Z.of_nat (Str.len pre)) (pre +:+ rest) = rest.
Proof.
  unfold Str.slice_from. destruct (Z.ltb_spec (Z.of_nat (Str.len pre)) 0); [lia|].
  rewrite Nat2Z.id. apply drop_app.
Qed.

(** The count does not see what is before the first occurrence. *)
Lemma count_starts_after (sub pre rest : string) :
  starts_after sub pre rest -> Str.count sub (pre +:+ rest) = Str.count sub rest.
Proof.
  unfold Str.count. induction pre as [|c pre IH]; intros H; [reflexivity|].
  rewrite app_cons, count_go_cons, <- app_cons.
  rewrite (H "" (String c pre) eq_refl); [|discriminate].
  apply IH. intros a b Hab Hb. apply (H (String c a) b); [|exact Hb].
  rewrite Hab. reflexivity.
Qed.

(** A line that starts a text with a newline starts the part before the
    newline. *)
Lemma startswith_line (sub x rest : string) :
  is_line sub = true ->
  Str.startswith sub (x +:+ nl +:+ rest) = Str.startswith sub x.
Proof.
  revert x. induction sub as [|c0 sub IH]; intros x Hline; [reflexivity|].
  rewrite is_line_cons in Hline. apply andb_true_iff in Hline as [Hc0 Hline].
  destruct x as [|c x].
  - rewrite app_nil_l. change (nl +:+ rest) with (String "010"%char rest).
    rewrite startswith_cons. unfold Char.one in Hc0.
    rewrite Ascii.eqb_sym. apply negb_true_iff in Hc0. rewrite Hc0. reflexivity.
  - rewrite app_cons, !startswith_cons, IH by assumption. reflexivity.
Qed.

(** A line occurs in a text with a newline when it occurs before or after
    the newline. *)
Lemma contains_line (sub a rest : string) :
  sub <> "" -> is_line sub = true ->
  Str.contains sub (a +:+ nl +:+ rest) = Str.contains sub a || Str.contains sub rest.
Proof.
  intros Hsub Hline. induction a as [|c a IH].
  - rewrite app_nil_l. change (nl +:+ rest) with (String "010"%char rest).
    rewrite contains_cons. change (String "010"%char rest) with ("" +:+ nl +:+ rest).
    rewrite (startswith_line _ "" rest Hline). cbn [Str.contains].
    rewrite (startswith_nonempty_nil sub Hsub). reflexivity.
  - rewrite app_cons, !contains_cons, <- app_cons.
    rewrite (startswith_line _ (String c a) rest Hline), IH, orb_assoc.
    reflexivity.
Qed.

(** ** Summary blocks *)

Lemma pytest_pattern_parts :
  pytest_pattern
  = Re.Cat (Re.Lit SHORT_TEST_SUMMARY_SEPARATOR)
      (Re.Cat (Re.Grp 1 (Re.Rep false 0 None Char.any)) summary_terminator).
Proof. reflexivity. Qed.

Section Terminator.
Context {R : Type}.
Implicit Types k : option ascii -> string -> Re.captures -> option R.

(** What the terminator consumes has its shape. *)
Lemma terminator_sound (prev : option ascii) (s : string) (caps : Re.captures)
    k (x : R) :
  Re.exec summary_terminator prev s caps k = Some x ->
  exists term rest prev',
    s = term +:+ rest /\ terminator_shape term /\ k prev' rest caps = Some x.
Proof.
  unfold summary_terminator, Re.at_least, Re.lazy_star, Re.plus. cbn [Re.seq].
  intros H.
  rewrite exec_Cat, exec_Rep in H.
  apply rep_sound in H as (e1 & b1 & -> & He1 & Hl1 & _ & H).
  rewrite exec_Cat, exec_Rep in H.
  apply rep_sound in H as (mid & b2 & -> & _ & _ & _ & H).
  rewrite exec_Cat in H. apply exec_Lit_sound in H as (b3 & -> & H).
  rewrite exec_Cat, exec_Rep in H.
  apply rep_sound in H as (d & b4 & -> & Hd & Hld & _ & H).
  rewrite exec_Cat in H. apply exec_Lit_sound in H as (b5 & -> & H).
  rewrite exec_Rep in H.
  apply rep_sound in H as (e2 & rest & -> & He2 & Hl2 & _ & H).
  exists (e1 +:+ mid +:+ " in " +:+ d +:+ "s " +:+ e2), rest. eexists.
  split; [rewrite !app_assoc; reflexivity|]. split; [|exact H].
  exists e1, mid, d, e2. auto 10.
Qed.

(** A text of the shape of a terminator is consumed as one. *)
Lemma terminator_complete (prev : option ascii) (term rest : string)
    (caps : Re.captures) k :
  terminator_shape term ->
  (forall prev' caps', is_Some (k prev' rest caps')) ->
  is_Some (Re.exec summary_terminator prev (term +:+ rest) caps k).
Proof.
  intros (e1 & mid & d & e2 & -> & He1 & Hl1 & Hd & Hld & He2 & Hl2) Hk.
  unfold summary_terminator, Re.at_least, Re.lazy_star, Re.plus. cbn [Re.seq].
  rewrite !app_assoc.
  rewrite exec_Cat, exec_Rep. apply rep_complete; [exact He1 | exact Hl1 | exact I|].
  rewrite exec_Cat, exec_Rep. apply rep_complete; [|simpl; lia | exact I|].
  { clear. induction mid; [reflexivity | assumption]. }
  rewrite exec_Cat, exec_Lit, startswith_app, drop_app.
  rewrite exec_Cat, exec_Rep. apply rep_complete; [exact Hd | exact Hld | exact I|].
  rewrite exec_Cat, exec_Lit, startswith_app, drop_app.
  rewrite exec_Rep. apply rep_complete; [exact He2 | exact Hl2 | exact I|].
  apply Hk.
Qed.

End Terminator.

Lemma all_chars_any (s : string) : all_chars Char.any s = true.
Proof. induction s; [reflexivity | assumption]. Qed.

Lemma separator_parts : SHORT_TEST_SUMMARY_SEPARATOR = "=====" +:+ sep_tail.
Proof. reflexivity. Qed.

(** After a separator and any text, a terminator is still a terminator:
    the separator starts with a run of [=]. *)
Lemma separator_then_terminator (v term : string) :
  terminator_shape term ->
  terminator_shape (SHORT_TEST_SUMMARY_SEPARATOR +:+ v +:+ term).
Proof.
  intros (e1 & mid & d & e2 & -> & He1 & Hl1 & Hd & Hld & He2 & Hl2).
  exists "=====", (sep_tail +:+ v +:+ e1 +:+ mid), d, e2.
  rewrite separator_parts, !app_assoc.
  repeat split; auto; simpl; lia.
Qed.

(** A match of the pattern of the summary blocks: the separator, the
    block, which no separator occurs in, and a terminator. *)
Lemma pytest_pattern_match (prev : option ascii) (s0 s1 : string)
    (caps : Re.captures) :
  Re.match_at pytest_pattern prev s0 = Some (s1, caps) ->
  exists block term,
    s0 = (SHORT_TEST_SUMMARY_SEPARATOR +:+ block +:+ term) +:+ s1
    /\ caps = [(1, block)] /\ terminator_shape term
    /\ Str.contains SHORT_TEST_SUMMARY_SEPARATOR block = false.
Proof.
  unfold Re.match_at. rewrite pytest_pattern_parts. intros H.
  rewrite exec_Cat in H. apply exec_Lit_sound in H as (t & -> & H).
  rewrite exec_Cat, exec_Grp, exec_Rep in H.
  apply rep_lazy_first in H as (block & r & -> & _ & _ & H & Hfirst).
  rewrite take_consumed in H.
  apply terminator_sound in H as (term & rest & prev' & -> & Hterm & H).
  injection H as -> <-.
  exists block, term. split; [rewrite !app_assoc; reflexivity|].
  split; [reflexivity|]. split; [exact Hterm|].
  destruct (Str.contains SHORT_TEST_SUMMARY_SEPARATOR block) eqn:Hc; [|reflexivity].
  exfalso. apply contains_split in Hc as (u & v & ->).
  specialize (Hfirst u (SHORT_TEST_SUMMARY_SEPARATOR +:+ v +:+ term +:+ s1)).
  rewrite !app_assoc in Hfirst. specialize (Hfirst eq_refl).
  assert (Hlen : Str.len u < Str.len (u +:+ SHORT_TEST_SUMMARY_SEPARATOR +:+ v))
    by (rewrite !len_app; simpl; lia).
  specialize (Hfirst Hlen).
  match type of Hfirst with
  | Re.exec _ ?p _ ?c ?k = None =>
      pose proof (terminator_complete p
                    (SHORT_TEST_SUMMARY_SEPARATOR +:+ v +:+ term) s1 c k
                    (separator_then_terminator v term Hterm)) as Hsome
  end.
  rewrite !app_assoc in Hsome. rewrite Hfirst in Hsome.
  destruct Hsome as [? [=]]. intros; eauto.
Qed.

(** ** The narrowing step (C4) *)

Lemma separator_nonempty : SHORT_TEST_SUMMARY_SEPARATOR <> "".
Proof. discriminate. Qed.

Lemma separator_line : is_line SHORT_TEST_SUMMARY_SEPARATOR = true.
Proof. reflexivity. Qed.

Lemma narrow_blocks (acc : string) (blocks : list string) :
  foldl (fun log block => log +:+ (block +:+ nl)) acc blocks
  = acc +:+ Str.concat (map (fun block => block +:+ nl) blocks).
Proof.
  revert acc. induction blocks as [|b blocks IH]; intros acc; cbn [foldl map Str.concat].
  - symmetry. apply app_nil_r.
  - rewrite IH, !app_assoc. reflexivity.
Qed.

(** The blocks of a log: group 0 is the separator, the block and a
    terminator, somewhere in the log, and no separator occurs in the
    block. *)
Lemma summary_block (log : string) (caps : Re.captures) :
  caps ∈ Re.finditer pytest_pattern log ->
  exists pre term rest,
    log = pre +:+ (SHORT_TEST_SUMMARY_SEPARATOR +:+ Re.group 1 caps +:+ term) +:+ rest
    /\ Re.group 0 caps = SHORT_TEST_SUMMARY_SEPARATOR +:+ Re.group 1 caps +:+ term
    /\ terminator_shape term
    /\ Str.contains SHORT_TEST_SUMMARY_SEPARATOR (Re.group 1 caps) = false.
Proof.
  intros Hin. apply finditer_match in Hin as (prev & pre & a & b & caps' & -> & H & ->).
  apply pytest_pattern_match in H as (block & term & Hab & -> & Hterm & Hno).
  apply app_inv_tail in Hab. subst a. cbn [Re.group Nat.eqb].
  exists pre, term, b. auto.
Qed.

(** The narrowing step, by the number of separators of the log. *)
Lemma narrow_summary_cases (log : string) :
  match Str.count SHORT_TEST_SUMMARY_SEPARATOR log with
  | 0 => narrow_summary log = log
  | 1 =>
      exists pre rest,
        log = pre +:+ SHORT_TEST_SUMMARY_SEPARATOR +:+ rest
        /\ starts_after SHORT_TEST_SUMMARY_SEPARATOR pre
             (SHORT_TEST_SUMMARY_SEPARATOR +:+ rest)
        /\ narrow_summary log = SHORT_TEST_SUMMARY_SEPARATOR +:+ rest
  | _ =>
      narrow_summary log
      = Str.concat (map (fun caps => Re.group 1 caps +:+ nl)
                        (Re.finditer pytest_pattern log))
  end.
Proof.
  unfold narrow_summary.
  rewrite (contains_count _ log separator_nonempty).
  destruct (Str.count SHORT_TEST_SUMMARY_SEPARATOR log) as [|[|n]] eqn:Hcount.
  - reflexivity.
  - cbn [Nat.ltb Nat.leb Nat.eqb].
    destruct (find_spec SHORT_TEST_SUMMARY_SEPARATOR log)
      as [[Hc _]|(pre & rest & Hlog & Hfind & Hfirst)].
    + rewrite (contains_count _ log separator_nonempty), Hcount in Hc. discriminate.
    + exists pre, rest. split; [exact Hlog|]. split; [exact Hfirst|].
      rewrite Hfind. rewrite Hlog at 1. apply slice_from_len.
  - cbn [Nat.ltb Nat.leb Nat.eqb].
    rewrite narrow_blocks, app_nil_l, map_map. reflexivity.
Qed.

(** A claim that does not hold: that with several separators the result
    is the blocks with a newline between them, be a block the text between
    separator and terminator or the text from the one to the other.  Each
    block is followed by a newline, the last one too, and the separator
    and the terminator are left out. *)
Lemma narrow_blocks_not_joined :
  ~ (forall log : string,
       2 <= Str.count SHORT_TEST_SUMMARY_SEPARATOR log ->
       narrow_summary log
       = Str.join nl (map (Re.group 1) (Re.finditer pytest_pattern log))
       \/ narrow_summary log
          = Str.join nl (map (Re.group 0) (Re.finditer pytest_pattern log))).
Proof.
  intros H. specialize (H two_summaries).
  assert (Hcount : 2 <= Str.count SHORT_TEST_SUMMARY_SEPARATOR two_summaries)
    by (vm_compute; lia).
  destruct (H Hcount) as [Heq|Heq]; vm_compute in Heq; discriminate Heq.
Qed.

(** C4, in the form that holds.  A log is not changed by the narrowing step when it has
    no separator.  When it has exactly one, the result is the log from that
    separator on, to its end.  When it has more, the result is, for each
    match of the pattern of a block from the left, the text between the
    separator and the terminator followed by a newline; a separator after
    which no terminator comes gives no block. *)
Theorem narrow_summary_blocks (log : string) :
  Str.contains SHORT_TEST_SUMMARY_SEPARATOR log
  = (0 <? Str.count SHORT_TEST_SUMMARY_SEPARATOR log)
  /\ match Str.count SHORT_TEST_SUMMARY_SEPARATOR log with
     | 0 => narrow_summary log = log
     | 1 =>
         exists pre rest,
           log = pre +:+ SHORT_TEST_SUMMARY_SEPARATOR +:+ rest
           /\ starts_after SHORT_TEST_SUMMARY_SEPARATOR pre
                (SHORT_TEST_SUMMARY_SEPARATOR +:+ rest)
           /\ narrow_summary log = SHORT_TEST_SUMMARY_SEPARATOR +:+ rest
     | _ =>
         narrow_summary log
         = Str.concat (map (fun caps => Re.group 1 caps +:+ nl)
                           (Re.finditer pytest_pattern log))
         /\ forall caps, caps ∈ Re.finditer pytest_pattern log ->
              exists pre term rest,
                log = pre +:+ (SHORT_TEST_SUMMARY_SEPARATOR +:+ Re.group 1 caps
                               +:+ term) +:+ rest
                /\ Re.group 0 caps
                   = SHORT_TEST_SUMMARY_SEPARATOR +:+ Re.group 1 caps +:+ term
                /\ terminator_shape term
                /\ Str.contains SHORT_TEST_SUMMARY_SEPARATOR (Re.group 1 caps) = false
     end.
Proof.
  split; [apply contains_count, separator_nonempty|].
  pose proof (narrow_summary_cases log) as H.
  destruct (Str.count SHORT_TEST_SUMMARY_SEPARATOR log) as [|[|n]]; try exact H.
  split; [exact H | apply summary_block].
Qed.

(** The examples of the specification: one summary, two summaries. *)
Example narrow_summary_examples :
  narrow_summary ("x" +:+ SHORT_TEST_SUMMARY_SEPARATOR +:+ "a")
  = SHORT_TEST_SUMMARY_SEPARATOR +:+ "a"
  /\ narrow_summary two_summaries = "a" +:+ nl +:+ "b" +:+ nl
  /\ narrow_summary
       ("x" +:+ SHORT_TEST_SUMMARY_SEPARATOR +:+ "a" +:+ "===== 1 failed in 0.1s ====="
        +:+ SHORT_TEST_SUMMARY_SEPARATOR +:+ "b")
     = "a" +:+ nl.
Proof. repeat split; vm_compute; reflexivity. Qed.

(** ** Idempotence (C7) *)

(** No separator occurs in the blocks put one after the other. *)
Lemma blocks_without_separator (matches : list Re.captures) :
  (forall caps, caps ∈ matches ->
     Str.contains SHORT_TEST_SUMMARY_SEPARATOR (Re.group 1 caps) = false) ->
  Str.contains SHORT_TEST_SUMMARY_SEPARATOR
    (Str.concat (map (fun caps => Re.group 1 caps +:+ nl) matches)) = false.
Proof.
  induction matches as [|caps matches IH]; intros Hno; [reflexivity|].
  cbn [map Str.concat]. rewrite app_assoc.
  rewrite (contains_line _ _ _ separator_nonempty separator_line).
  rewrite (Hno caps), IH; [reflexivity | | left].
  intros caps' Hin. apply Hno. right. exact Hin.
Qed.

Lemma narrow_summary_idempotent (log : string) :
  narrow_summary (narrow_summary log) = narrow_summary log.
Proof.
  pose proof (narrow_summary_cases log) as H.
  destruct (Str.count SHORT_TEST_SUMMARY_SEPARATOR log) as [|[|n]] eqn:Hcount.
  - rewrite H. exact H.
  - destruct H as (pre & rest & Hlog & Hfirst & ->).
    unfold narrow_summary.
    pose proof (contains_app SHORT_TEST_SUMMARY_SEPARATOR "" rest) as Hc.
    rewrite app_nil_l in Hc. rewrite Hc.
    replace (Str.count SHORT_TEST_SUMMARY_SEPARATOR
               (SHORT_TEST_SUMMARY_SEPARATOR +:+ rest)) with 1.
    + cbn [Nat.eqb]. rewrite find_startswith by apply startswith_app.
      apply (slice_from_len "").
    + rewrite <- (count_starts_after _ pre _ Hfirst), <- Hlog, Hcount. reflexivity.
  - rewrite H. unfold narrow_summary at 1.
    rewrite blocks_without_separator; [reflexivity|].
    intros caps Hin. apply summary_block in Hin as (_ & _ & _ & _ & _ & _ & Hno).
    exact Hno.
Qed.

(** ** Addresses *)

(** A quantifier with equal bounds takes exactly that many characters. *)
Lemma rep_exact {R : Type} (greedy : bool) (p : ascii -> bool) (n : nat) :
  forall (prev : option ascii) (s : string) (k : option ascii -> string -> option R),
  Re.rep greedy p n (Some n) prev s k
  = if (n <=? Str.len s) && all_chars p (Str.take n s)
    then k (prev_after prev (Str.take n s)) (Str.drop n s)
    else None.
Proof.
  induction n as [|n IH]; intros prev s k.
  - destruct s as [|c s]; [rewrite rep_nil; reflexivity|].
    rewrite rep_cons. unfold rep_more. cbn [Re.allows]. rewrite andb_false_r.
    cbn. destruct greedy; [reflexivity|].
    destruct (k prev (String c s)); reflexivity.
  - destruct s as [|c s]; [rewrite rep_nil; reflexivity|].
    rewrite rep_cons. unfold rep_more. cbn [Re.allows pred fmap option_fmap option_map].
    rewrite andb_true_r. cbn [Str.take Str.drop all_chars prev_after].
    change (S n <=? Str.len (String c s)) with (n <=? Str.len s).
    destruct (p c); [|rewrite andb_false_r; reflexivity].
    rewrite IH. reflexivity.
Qed.

Lemma ishex_isword (c : ascii) : Char.ishex c = true -> Char.isword c = true.
Proof.
  destruct c as [[] [] [] [] [] [] [] []]; vm_compute; intros H;
    first [reflexivity | discriminate H].
Qed.

Lemma take_hex_all (s : string) : all_chars Char.ishex (take_hex s) = true.
Proof.
  induction s as [|c s IH]; [reflexivity|]. cbn [take_hex].
  destruct (Char.ishex c) eqn:Hc; [|reflexivity].
  cbn [all_chars]. rewrite Hc, IH. reflexivity.
Qed.

Lemma hex_parts (s : string) : s = take_hex s +:+ skip_hex s.
Proof.
  induction s as [|c s IH]; [reflexivity|]. cbn [take_hex skip_hex].
  destruct (Char.ishex c); [|reflexivity]. rewrite app_cons, <- IH. reflexivity.
Qed.

(** What follows the longest run is empty or starts with a character that
    is no digit. *)
Lemma skip_hex_first (s : string) :
  match Re.first_char (skip_hex s) with
  | Some c => Char.ishex c = false
  | None => True
  end.
Proof.
  induction s as [|c s IH]; [exact I|]. cbn [skip_hex].
  destruct (Char.ishex c) eqn:Hc; [exact IH | exact Hc].
Qed.

(** The longest run of a text that is a run and a rest that starts with no
    digit. *)
Lemma hex_parts_unique (h t : string) :
  all_chars Char.ishex h = true ->
  match Re.first_char t with
  | Some c => Char.ishex c = false
  | None => True
  end ->
  take_hex (h +:+ t) = h /\ skip_hex (h +:+ t) = t.
Proof.
  intros Hh Ht. induction h as [|c h IH].
  - rewrite app_nil_l. destruct t as [|c t]; [auto|].
    cbn [Re.first_char] in Ht. cbn [take_hex skip_hex]. rewrite Ht. auto.
  - cbn [all_chars] in Hh. apply andb_true_iff in Hh as [Hc Hh].
    rewrite app_cons. cbn [take_hex skip_hex]. rewrite Hc.
    destruct (IH Hh) as [-> ->]. auto.
Qed.

Lemma take_drop (n : nat) (s : string) : Str.take n s +:+ Str.drop n s = s.
Proof.
  revert s. induction n as [|n IH]; intros s; [destruct s; reflexivity|].
  destruct s as [|c s]; [reflexivity|]. cbn [Str.take Str.drop].
  rewrite app_cons, IH. reflexivity.
Qed.

Lemma len_take (n : nat) (s : string) : n <= Str.len s -> Str.len (Str.take n s) = n.
Proof.
  revert s. induction n as [|n IH]; intros s H; [destruct s; reflexivity|].
  destruct s as [|c s]; [simpl in H; lia|]. cbn [Str.take]. simpl.
  rewrite IH; [reflexivity | simpl in H; lia].
Qed.

(** After a run of digits that is not empty the last character is a word
    character. *)
Lemma prev_after_hex (prev : option ascii) (h : string) :
  all_chars Char.ishex h = true -> 1 <= Str.len h ->
  Re.isword_opt (prev_after prev h) = true.
Proof.
  revert prev. induction h as [|c h IH]; intros prev Hh Hlen; [simpl in Hlen; lia|].
  cbn [all_chars] in Hh. apply andb_true_iff in Hh as [Hc Hh].
  cbn [prev_after]. destruct h as [|c' h].
  - cbn [prev_after Re.isword_opt]. apply ishex_isword, Hc.
  - apply IH; [exact Hh | simpl; lia].
Qed.

Lemma exec_address_alt (n : nat) (prev : option ascii) (s : string) :
  1 <= n ->
  Re.exec (Re.seq [Re.Lit "0x"; Re.exactly n Char.ishex; Re.WordB]) prev s []
          (fun _ s' caps => Some (s', caps))
  = match address_alt n s with
    | Some s1 => Some (s1, [])
    | None => None
    end.
Proof.
  intros Hn. unfold address_alt, Re.exactly. cbn [Re.seq].
  rewrite exec_Cat, exec_Lit. change (Str.len "0x") with 2.
  destruct (Str.startswith "0x" s); [|reflexivity]. cbn [andb].
  rewrite exec_Cat, exec_Rep, rep_exact.
  set (digits := Str.drop 2 s).
  destruct (n <=? Str.len digits) eqn:Hlen; [|reflexivity]. cbn [andb].
  destruct (all_chars Char.ishex (Str.take n digits)) eqn:Hhex; [|reflexivity].
  cbn [andb Re.exec]. unfold Re.at_wordb.
  rewrite prev_after_hex;
    [| exact Hhex | rewrite len_take; [exact Hn | apply Nat.leb_le, Hlen]].
  cbn [xorb].
  destruct (Re.isword_opt (Re.first_char (Str.drop n digits))); reflexivity.
Qed.

(** An alternative matches when the longest run has its number of digits. *)
Lemma address_alt_hex (n : nat) (s : string) :
  address_alt n s
  = let digits := Str.drop 2 s in
    if Str.startswith "0x" s && (Str.len (take_hex digits) =? n)
       && negb (Re.isword_opt (Re.first_char (skip_hex digits)))
    then Some (skip_hex digits)
    else None.
Proof.
  unfold address_alt. cbv zeta. set (digits := Str.drop 2 s).
  destruct (Str.startswith "0x" s); [|reflexivity]. cbn [andb].
  destruct ((n <=? Str.len digits) && all_chars Char.ishex (Str.take n digits)
            && negb (Re.isword_opt (Re.first_char (Str.drop n digits)))) eqn:E.
  - apply andb_true_iff in E as [E Hw]. apply andb_true_iff in E as [Hlen Hhex].
    apply Nat.leb_le in Hlen.
    assert (Hfirst : match Re.first_char (Str.drop n digits) with
                     | Some c => Char.ishex c = false
                     | None => True
                     end).
    { destruct (Re.first_char (Str.drop n digits)) as [c|]; [|exact I].
      cbn [Re.isword_opt] in Hw. apply negb_true_iff in Hw.
      destruct (Char.ishex c) eqn:Hc; [|reflexivity].
      apply ishex_isword in Hc. congruence. }
    destruct (hex_parts_unique _ _ Hhex Hfirst) as [Ht Hs].
    rewrite take_drop in Ht, Hs. rewrite Ht, Hs, (len_take _ _ Hlen), Nat.eqb_refl, Hw.
    reflexivity.
  - destruct ((Str.len (take_hex digits) =? n)
              && negb (Re.isword_opt (Re.first_char (skip_hex digits)))) eqn:E';
      [|reflexivity].
    exfalso. apply andb_true_iff in E' as [Hn Hw]. apply Nat.eqb_eq in Hn.
    assert (Htake : Str.take n digits = take_hex digits).
    { rewrite (hex_parts digits) at 1. rewrite <- Hn. apply take_app. }
    assert (Hdrop : Str.drop n digits = skip_hex digits).
    { rewrite (hex_parts digits) at 1. rewrite <- Hn. apply drop_app. }
    rewrite Htake, Hdrop, take_hex_all, Hw, !andb_true_r in E.
    apply Nat.leb_gt in E. rewrite (hex_parts digits), len_app in E. lia.
Qed.

(** The pattern of addresses matches where there is an address, whatever
    the character before. *)
Lemma match_at_address (prev : option ascii) (s : string) :
  Re.match_at memory_addr_regex prev s
  = match address_at s with
    | Some s1 => Some (s1, [])
    | None => None
    end.
Proof.
  unfold Re.match_at, memory_addr_regex.
  change (Re.exec (Re.Alt ?r1 ?r2) prev s [] ?k)
    with (match Re.exec r1 prev s [] k with
          | Some x => Some x
          | None => Re.exec r2 prev s [] k
          end).
  rewrite (exec_address_alt 8), (exec_address_alt 16) by lia.
  rewrite !address_alt_hex.
  unfold address_at. cbv zeta.
  destruct (Str.startswith "0x" s); [|reflexivity]. cbn [andb].
  destruct (Str.len (take_hex (Str.drop 2 s)) =? 8) eqn:E8.
  - cbn [orb andb].
    destruct (negb (Re.isword_opt (Re.first_char (skip_hex (Str.drop 2 s)))));
      [reflexivity|].
    destruct (Str.len (take_hex (Str.drop 2 s)) =? 16); reflexivity.
  - cbn [orb andb].
    destruct (Str.len (take_hex (Str.drop 2 s)) =? 16); [|reflexivity].
    cbn [andb].
    destruct (negb (Re.isword_opt (Re.first_char (skip_hex (Str.drop 2 s)))));
      reflexivity.
Qed.

(** ** Masking *)

(** The scan passes the characters of a match it has replaced. *)
Lemma sub_go_skip (r : Re.regex) (repl a b : string) (prev : option ascii) :
  Re.sub_go r repl (Str.len a) prev (a +:+ b)
  = Re.sub_go r repl 0 (prev_after prev a) b.
Proof.
  revert prev. induction a as [|c a IH]; intros prev.
  - rewrite app_nil_l. reflexivity.
  - rewrite app_cons. cbn [Str.len String.length Re.sub_go prev_after]. apply IH.
Qed.

Lemma address_at_parts (s s1 : string) :
  address_at s = Some s1 ->
  exists h, s = String "0"%char (String "x"%char h) +:+ s1
            /\ Str.len s1 < Str.len s.
Proof.
  unfold address_at. cbv zeta.
  pose proof (hex_parts (Str.drop 2 s)) as Hparts.
  set (digits := Str.drop 2 s) in *.
  destruct (Str.startswith "0x" s) eqn:Hstart; [|discriminate].
  match goal with |- (if ?b then _ else _) = _ -> _ => destruct b end;
    [|discriminate].
  intros Heq. injection Heq as Heq. apply startswith_split in Hstart.
  change (Str.drop (Str.len "0x") s) with digits in Hstart.
  exists (take_hex digits). rewrite <- Heq. split.
  - rewrite Hstart at 1. rewrite Hparts at 1. reflexivity.
  - apply (f_equal Str.len) in Hstart. apply (f_equal Str.len) in Hparts.
    rewrite len_app in Hstart, Hparts. unfold Str.len in *.
    change (String.length "0x") with 2 in Hstart. lia.
Qed.

Lemma len_cons (c : ascii) (s : string) : Str.len (String c s) = S (Str.len s).
Proof. reflexivity. Qed.

(** The masking, step by step. *)
Lemma mask_nil (prev : option ascii) :
  Re.sub_go memory_addr_regex placeholder 0 prev "" = "".
Proof. reflexivity. Qed.

Lemma mask_address (prev : option ascii) (s s1 : string) :
  address_at s = Some s1 ->
  Re.sub_go memory_addr_regex placeholder 0 prev s
  = placeholder +:+ mask_addresses s1.
Proof.
  intros Haddr. destruct (address_at_parts s s1 Haddr) as (h & Hs & Hlen).
  destruct s as [|c s']; [discriminate|].
  cbn [Re.sub_go]. rewrite match_at_address, Haddr.
  destruct (Str.len (String c s') - Str.len s1) as [|n] eqn:Hn; [lia|].
  f_equal. rewrite app_cons in Hs. injection Hs as -> ->.
  assert (n = Str.len (String "x"%char h)) as ->.
  { rewrite app_cons, !len_cons, len_app in Hn. rewrite len_cons. lia. }
  rewrite sub_go_skip.
  unfold mask_addresses, Re.sub.
  destruct s1 as [|c1 s1]; [reflexivity|].
  cbn [Re.sub_go]. rewrite !match_at_address. reflexivity.
Qed.

Lemma mask_other (prev : option ascii) (c : ascii) (s : string) :
  address_at (String c s) = None ->
  Re.sub_go memory_addr_regex placeholder 0 prev (String c s)
  = String c (mask_addresses s).
Proof.
  intros Haddr. cbn [Re.sub_go]. rewrite match_at_address, Haddr. f_equal.
  unfold mask_addresses, Re.sub.
  destruct s as [|c1 s1]; [reflexivity|].
  cbn [Re.sub_go]. rewrite !match_at_address. reflexivity.
Qed.

Lemma address_at_first (c : ascii) (s s1 : string) :
  address_at (String c s) = Some s1 ->
  c = "0"%char /\ exists s', s = String "x"%char s'.
Proof.
  intros H. apply address_at_parts in H as (h & Hs & _).
  rewrite app_cons in Hs. injection Hs as -> ->. eauto.
Qed.

Lemma address_at_None (s : string) : address_at s = None <-> is_address s = false.
Proof.
  unfold address_at, is_address. cbv zeta.
  match goal with |- (if ?b then _ else _) = _ <-> _ => destruct b end;
    split; congruence.
Qed.

(** Masking keeps the longest run of digits at the front of a text, and
    the character after it. *)
Lemma mask_hex_prefix (s : string) :
  take_hex (mask_addresses s) = take_hex s
  /\ Re.first_char (skip_hex (mask_addresses s)) = Re.first_char (skip_hex s).
Proof.
  induction s as [|c s [IHt IHs]]; [auto|].
  unfold mask_addresses, Re.sub.
  destruct (address_at (String c s)) as [s1|] eqn:Haddr.
  - rewrite (mask_address _ _ _ Haddr).
    apply address_at_first in Haddr as [-> [s' ->]]. auto.
  - rewrite (mask_other _ _ _ Haddr). cbn [take_hex skip_hex].
    destruct (Char.ishex c); [|auto]. rewrite IHt. auto.
Qed.

(** A text that is no address is none after the masking of its tail. *)
Lemma mask_tail_no_address (c : ascii) (s : string) :
  address_at (String c s) = None ->
  address_at (String c (mask_addresses s)) = None.
Proof.
  rewrite !address_at_None. unfold is_address.
  rewrite !startswith_cons. cbn [Str.drop].
  destruct (Ascii.eqb "0" c); [|reflexivity]. cbn [andb].
  destruct s as [|c' s]; [auto|].
  unfold mask_addresses, Re.sub.
  destruct (address_at (String c' s)) as [s1|] eqn:Haddr.
  - rewrite (mask_address _ _ _ Haddr). intros _. reflexivity.
  - rewrite (mask_other _ _ _ Haddr). rewrite !startswith_cons. cbn [Str.drop].
    destruct (mask_hex_prefix s) as [-> ->]. auto.
Qed.

(** No address starts in the placeholder. *)
Lemma placeholder_no_address (pre m0 t : string) :
  placeholder = pre +:+ m0 -> m0 <> "" -> address_at (m0 +:+ t) = None.
Proof.
  unfold placeholder. intros H Hne.
  do 11 (destruct pre as [|? pre];
         [rewrite app_nil_l in H; subst m0; reflexivity
         |rewrite app_cons in H; injection H as _ H]).
  destruct pre; [rewrite app_nil_l in H; subst m0; contradiction | discriminate].
Qed.

Lemma app_split (pre t a b : string) :
  pre +:+ t = a +:+ b ->
  (exists m0, a = pre +:+ m0 /\ t = m0 +:+ b)
  \/ (exists m0, pre = a +:+ m0 /\ b = m0 +:+ t).
Proof.
  revert a. induction pre as [|c pre IH]; intros a H.
  - left. exists a. rewrite app_nil_l in *. auto.
  - destruct a as [|c' a].
    + right. exists (String c pre). rewrite app_nil_l in *. auto.
    + rewrite !app_cons in H. injection H as -> H.
      destruct (IH a H) as [(m0 & -> & ->)|(m0 & -> & ->)];
        [left | right]; exists m0; auto.
Qed.

(** After the masking no address is left, at any place. *)
Lemma mask_no_address (n : nat) :
  forall s, Str.len s <= n ->
  forall pre t, mask_addresses s = pre +:+ t -> address_at t = None.
Proof.
  induction n as [|n IH]; intros s Hlen pre t Hsplit.
  - destruct s; [|simpl in Hlen; lia].
    change (mask_addresses "") with "" in Hsplit.
    apply eq_sym, app_eq_nil in Hsplit as [_ ->]. reflexivity.
  - destruct s as [|c s].
    { change (mask_addresses "") with "" in Hsplit.
      apply eq_sym, app_eq_nil in Hsplit as [_ ->]. reflexivity. }
    unfold mask_addresses, Re.sub in Hsplit.
    destruct (address_at (String c s)) as [s1|] eqn:Haddr.
    + rewrite (mask_address _ _ _ Haddr) in Hsplit.
      apply address_at_parts in Haddr as (_ & _ & Hshort).
      symmetry in Hsplit.
      apply app_split in Hsplit as [(m0 & Hp & ->)|(m0 & -> & Hm)].
      * destruct m0 as [|c0 m0].
        -- rewrite app_nil_l. apply (IH s1 ltac:(lia) "" (mask_addresses s1)).
           reflexivity.
        -- apply (placeholder_no_address pre); [exact Hp | discriminate].
      * apply (IH s1 ltac:(lia) m0 t Hm).
    + rewrite (mask_other _ _ _ Haddr) in Hsplit.
      destruct pre as [|c' pre].
      * rewrite app_nil_l in Hsplit. subst t. apply mask_tail_no_address, Haddr.
      * rewrite app_cons in Hsplit. injection Hsplit as _ Hsplit.
        apply (IH s ltac:(simpl in Hlen; lia) pre t Hsplit).
Qed.

(** A text without an address is not changed by the masking. *)
Lemma mask_fixed (s : string) :
  (forall pre t, s = pre +:+ t -> address_at t = None) -> mask_addresses s = s.
Proof.
  induction s as [|c s IH]; intros Hno; [reflexivity|].
  unfold mask_addresses, Re.sub.
  rewrite (mask_other _ _ _ (Hno "" (String c s) eq_refl)). f_equal.
  apply IH. intros pre t Hs. apply (Hno (String c pre) t). rewrite Hs. reflexivity.
Qed.

Lemma mask_addresses_idempotent (log : string) :
  mask_addresses (mask_addresses log) = mask_addresses log.
Proof.
  apply mask_fixed. intros pre t H.
  apply (mask_no_address (Str.len log) log (le_n _) pre t H).
Qed.

(** ** The normalizer *)

Lemma mask_addresses_no_address (s : string) : no_address (mask_addresses s).
Proof. intros pre t H. apply (mask_no_address (Str.len s) s (le_n _) pre t H). Qed.

Lemma no_address_suffix (pre s : string) : no_address (pre +:+ s) -> no_address s.
Proof.
  intros H p t Hs. apply (H (pre +:+ p) t). rewrite Hs, app_assoc. reflexivity.
Qed.

(** The longest run of digits of a text before a character that is no
    digit. *)
Lemma hex_before (b : string) (c : ascii) (x : string) :
  Char.ishex c = false ->
  take_hex (b +:+ String c x) = take_hex b
  /\ Re.first_char (skip_hex (b +:+ String c x))
     = match Re.first_char (skip_hex b) with
       | Some d => Some d
       | None => Some c
       end.
Proof.
  intros Hc. induction b as [|a b [IHt IHs]].
  - rewrite app_nil_l. cbn [take_hex skip_hex]. rewrite Hc. auto.
  - rewrite app_cons. cbn [take_hex skip_hex].
    destruct (Char.ishex a); [rewrite IHt; auto | auto].
Qed.

Lemma not_word_not_hex (c : ascii) : Char.isword c = false -> Char.ishex c = false.
Proof.
  intros H. destruct (Char.ishex c) eqn:E; [|reflexivity].
  apply ishex_isword in E. congruence.
Qed.

(** Whether a text before a character that is no word character is an
    address does not depend on that character, nor on what follows it. *)
Lemma is_address_before (b : string) (c1 c2 : ascii) (x1 x2 : string) :
  Char.isword c1 = false -> Char.isword c2 = false ->
  is_address (b +:+ String c1 x1) = is_address (b +:+ String c2 x2).
Proof.
  intros H1 H2. unfold is_address.
  destruct b as [|a1 [|a2 b]].
  - rewrite !app_nil_l, !startswith_cons.
    assert (Hz : forall c, Char.isword c = false -> Ascii.eqb "0" c = false).
    { intros c Hc. destruct (Ascii.eqb_spec "0"%char c) as [<-|]; [discriminate Hc|].
      reflexivity. }
    rewrite (Hz c1 H1), (Hz c2 H2). reflexivity.
  - rewrite !app_cons, !app_nil_l, !startswith_cons.
    assert (Hx : forall c, Char.isword c = false -> Ascii.eqb "x" c = false).
    { intros c Hc. destruct (Ascii.eqb_spec "x"%char c) as [<-|]; [discriminate Hc|].
      reflexivity. }
    rewrite (Hx c1 H1), (Hx c2 H2), !andb_false_r. reflexivity.
  - rewrite !app_cons, !startswith_cons. cbn [Str.drop Str.startswith].
    destruct (hex_before b c1 x1 (not_word_not_hex c1 H1)) as [-> ->].
    destruct (hex_before b c2 x2 (not_word_not_hex c2 H2)) as [-> ->].
    destruct (Re.first_char (skip_hex b)); [reflexivity|].
    cbn [Re.isword_opt]. rewrite H1, H2. reflexivity.
Qed.

(** A text that ends a text with a last newline, and is not empty, has
    that newline. *)
Lemma app_last_nl (u t body : string) :
  body +:+ nl = u +:+ t -> t <> "" ->
  exists t1, t = t1 +:+ nl /\ body = u +:+ t1.
Proof.
  revert body. induction u as [|c0 u IH]; intros body Heq Hne.
  - rewrite app_nil_l in Heq. exists body. auto.
  - destruct body as [|c1 body].
    + rewrite app_nil_l, app_cons in Heq. injection Heq as _ Heq.
      symmetry in Heq. apply app_eq_nil in Heq as [_ ->]. contradiction.
    + rewrite !app_cons in Heq. injection Heq as -> Heq.
      destruct (IH body Heq Hne) as (t1 & -> & ->). exists t1. auto.
Qed.

(** A terminator starts with a character that is no word character. *)
Lemma terminator_first (term rest : string) :
  terminator_shape term ->
  exists x, term +:+ rest = String "="%char x.
Proof.
  intros (e1 & mid & d & e2 & -> & He1 & Hl1 & _).
  destruct e1 as [|c e1]; [simpl in Hl1; lia|].
  cbn [all_chars] in He1. apply andb_true_iff in He1 as [Hc _].
  apply Ascii.eqb_eq in Hc. subst c. rewrite !app_cons. eauto.
Qed.

(** The blocks of a text without an address have no address, one after
    the other. *)
Lemma blocks_no_address (log : string) (matches : list Re.captures) :
  no_address log ->
  (forall caps, caps ∈ matches ->
     exists pre term rest,
       log = pre +:+ (SHORT_TEST_SUMMARY_SEPARATOR +:+ Re.group 1 caps +:+ term)
             +:+ rest
       /\ terminator_shape term) ->
  no_address (Str.concat (map (fun caps => Re.group 1 caps +:+ nl) matches)).
Proof.
  intros Hlog. induction matches as [|caps matches IH]; intros Hblocks.
  - intros pre t H. cbn [map Str.concat] in H.
    apply eq_sym, app_eq_nil in H as [_ ->]. reflexivity.
  - assert (IH' : no_address
                    (Str.concat (map (fun caps => Re.group 1 caps +:+ nl) matches))).
    { apply IH. intros caps' Hin. apply Hblocks. right. exact Hin. }
    destruct (Hblocks caps ltac:(left)) as (pre0 & term & rest & Hl & Hterm).
    clear IH Hblocks. cbn [map Str.concat].
    set (C := Str.concat (map (fun caps => Re.group 1 caps +:+ nl) matches)) in *.
    set (b := Re.group 1 caps) in *.
    intros p t H. symmetry in H.
    apply app_split in H as [(m0 & Hp & ->)|(m0 & -> & Hm)].
    + destruct m0 as [|c0 m0]; [apply (IH' "" C); reflexivity|].
      apply app_last_nl in Hp as (b' & Hm0 & Hb); [|discriminate].
      rewrite Hm0, app_assoc.
      destruct (terminator_first term rest Hterm) as [x Hx].
      apply address_at_None.
      change (nl +:+ C) with (String "010"%char C).
      rewrite (is_address_before b' _ "="%char C x) by reflexivity.
      apply address_at_None. rewrite <- Hx.
      apply (Hlog (pre0 +:+ SHORT_TEST_SUMMARY_SEPARATOR +:+ p)).
      rewrite Hl, Hb, !app_assoc. reflexivity.
    + apply (IH' m0 t Hm).
Qed.

(** The narrowing step keeps a text without an address without one. *)
Lemma narrow_summary_no_address (log : string) :
  no_address log -> no_address (narrow_summary log).
Proof.
  intros Hlog. pose proof (narrow_summary_cases log) as H.
  destruct (Str.count SHORT_TEST_SUMMARY_SEPARATOR log) as [|[|n]].
  - rewrite H. exact Hlog.
  - destruct H as (pre & rest & Hl & _ & ->). rewrite Hl in Hlog.
    apply (no_address_suffix pre), Hlog.
  - rewrite H. apply (blocks_no_address log); [exact Hlog|].
    intros caps Hin. apply summary_block in Hin as (pre & term & rest & Hl & _ & Ht & _).
    eauto.
Qed.

(** The normalizer changes its own result only by stripping it. *)
Lemma normalize_log_twice (log : string) :
  strip_escapes (normalize_log log) = normalize_log log ->
  normalize_log (normalize_log log) = normalize_log log.
Proof.
  intros Hstrip. unfold normalize_log at 1. rewrite Hstrip.
  unfold normalize_log.
  rewrite (mask_fixed (narrow_summary _));
    [apply narrow_summary_idempotent|].
  apply narrow_summary_no_address, mask_addresses_no_address.
Qed.

(** A claim that does not hold: that stripping the escape sequences is
    idempotent, and that the normalizer is.  The sequence that is left when
    the inner one is removed is removed by a second pass only. *)
Lemma stripping_not_idempotent :
  ~ (forall log : string, strip_escapes (strip_escapes log) = strip_escapes log)
  /\ ~ (forall log : string, normalize_log (normalize_log log) = normalize_log log).
Proof.
  split; intros H; specialize (H nested_escape); vm_compute in H; discriminate H.
Qed.

(** C7, in the form that holds.  Masking the addresses and narrowing to the summary are
    idempotent, each on every text.  Stripping the escape sequences is not,
    so the normalizer is not either; it leaves its own result unchanged
    whenever stripping does. *)
Theorem normalizer_idempotence :
  (forall log : string, mask_addresses (mask_addresses log) = mask_addresses log)
  /\ (forall log : string, narrow_summary (narrow_summary log) = narrow_summary log)
  /\ (forall log : string,
        strip_escapes (normalize_log log) = normalize_log log ->
        normalize_log (normalize_log log) = normalize_log log)
  /\ strip_escapes nested_escape = ESC +:+ "[0m"
  /\ strip_escapes (strip_escapes nested_escape) = "".
Proof.
  split; [exact mask_addresses_idempotent|].
  split; [exact narrow_summary_idempotent|].
  split; [exact normalize_log_twice|].
  split; vm_compute; reflexivity.
Qed.

(** C7 on a log with a colour sequence, an address and two summaries. *)
Lemma normalizer_idempotence_witness :
  let log := ESC +:+ "[31m" +:+ "object at 0x1A2B3C4D" +:+ two_summaries in
  strip_escapes (normalize_log log) = normalize_log log
  /\ normalize_log (normalize_log log) = normalize_log log.
Proof.
  cbv zeta. split; [vm_compute; reflexivity|].
  apply (proj1 (proj2 (proj2 normalizer_idempotence))).
  vm_compute. reflexivity.
Defined.

(** C4 on the log with two summaries: the result is the two blocks, each
    with its newline, and the first block lies in the log between a
    separator and a terminator. *)
Lemma narrow_summary_blocks_witness :
  narrow_summary two_summaries = "a" +:+ nl +:+ "b" +:+ nl
  /\ exists caps pre term rest,
       caps ∈ Re.finditer pytest_pattern two_summaries
       /\ two_summaries
          = pre +:+ (SHORT_TEST_SUMMARY_SEPARATOR +:+ Re.group 1 caps +:+ term)
            +:+ rest
       /\ terminator_shape term.
Proof.
  split; [exact (proj1 (proj2 (narrow_summary_blocks two_summaries)))|].
  destruct (Re.finditer pytest_pattern two_summaries) as [|caps l] eqn:E;
    [vm_compute in E; discriminate E|].
  assert (Hin : caps ∈ Re.finditer pytest_pattern two_summaries)
    by (rewrite E; left).
  destruct (proj2 (proj2 (narrow_summary_blocks two_summaries)) caps Hin)
    as (pre & term & rest & Hlog & _ & Hterm & _).
  exists caps, pre, term, rest. rewrite <- E. auto.
Defined.

(** * More on the parsers *)

(** ** Outcomes *)

Lemma outcome_bind {A B : Type} (P' : A -> Prop) (P : B -> Prop) (Q : exn -> Prop)
    (m : result A) (f : A -> result B) :
  outcome P' Q m -> (forall a, P' a -> outcome P Q (f a)) -> outcome P Q (m ≫= f).
Proof. destruct m as [a|e]; simpl; auto. Qed.

Lemma outcome_for_each {S A : Type} (P : S -> Prop) (Q : exn -> Prop)
    (body : S -> A -> result S) (l : list A) :
  (forall s x, P s -> outcome P Q (body s x)) ->
  forall s, P s -> outcome P Q (for_each body l s).
Proof.
  intros Hbody. induction l as [|x l IH]; intros s Hs; [exact Hs|].
  cbn [for_each]. eapply outcome_bind; [apply Hbody, Hs | exact IH].
Qed.

Lemma outcome_weaken {A : Type} (P P' : A -> Prop) (Q : exn -> Prop) (r : result A) :
  outcome P Q r -> (forall a, P a -> P' a) -> outcome P' Q r.
Proof. destruct r; simpl; auto. Qed.

Lemma index_outcome {A : Type} (l : list A) (i : nat) :
  outcome (fun _ => True) (fun e => e = IndexError) (index l i).
Proof. unfold index. destruct (l !! i); simpl; auto. Qed.

Lemma index_last_outcome {A : Type} (l : list A) :
  outcome (fun _ => True) (fun e => e = IndexError) (index_last l).
Proof. unfold index_last. destruct (last l); simpl; auto. Qed.

(** ** The statuses a dialect parser records *)

Lemma values_among_empty (allowed : list TestStatus) : values_among allowed ∅.
Proof. apply map_Forall_empty. Qed.

Lemma values_among_insert (allowed : list TestStatus) (m : gmap string string)
    (k v : string) :
  (exists x, x ∈ allowed /\ v = value x) -> values_among allowed m ->
  values_among allowed (<[k := v]> m).
Proof. intros Hv H. apply map_Forall_insert_2; assumption. Qed.

(** Finds the status of a value among the allowed ones. *)
Ltac among :=
  first [ exists FAILED; split; [set_solver | reflexivity]
        | exists PASSED; split; [set_solver | reflexivity]
        | exists SKIPPED; split; [set_solver | reflexivity]
        | exists ERROR; split; [set_solver | reflexivity]
        | exists XFAIL; split; [set_solver | reflexivity] ].

(** Closes the goals on the outcome of a step that indexes a list and adds
    an entry. *)
Ltac outcome_step :=
  repeat match goal with
    | |- outcome _ _ (if ?b then _ else _) => destruct b
    | |- outcome _ _ (Ok _) => cbn [outcome]
    | |- outcome _ _ (index _ _ ≫= _) =>
        eapply outcome_bind; [apply index_outcome | intros ? _; cbn beta]
    | |- outcome _ _ (index_last _ ≫= _) =>
        eapply outcome_bind; [apply index_last_outcome | intros ? _; cbn beta]
    | |- values_among _ (<[_ := _]> _) => apply values_among_insert; [among|]
    end; try assumption.

Lemma seaborn_line_outcome (m : gmap string string) (line : string) :
  values_among [FAILED; PASSED] m ->
  outcome (values_among [FAILED; PASSED]) (fun e => e = IndexError)
          (seaborn_line m line).
Proof. intros Hm. unfold seaborn_line. outcome_step. Qed.

(** X5.  The seaborn parser records failed and passed tests only, and the only
    exception it raises is [IndexError]. *)
Theorem parse_log_seaborn_outcome (log : string) :
  outcome (values_among [FAILED; PASSED]) (fun e => e = IndexError)
          (parse_log_seaborn log).
Proof.
  apply outcome_for_each; [|apply values_among_empty].
  intros m line Hm. apply seaborn_line_outcome, Hm.
Qed.

Lemma sympy_matches_among (log : string) :
  values_among [FAILED; ERROR; PASSED] (sympy_matches log).
Proof.
  unfold sympy_matches. generalize (Re.finditer sympy_pattern log).
  assert (H : values_among [FAILED; ERROR; PASSED] ∅) by apply values_among_empty.
  revert H. generalize (∅ : gmap string string). intros m Hm l. revert m Hm.
  induction l as [|caps l IH]; intros m Hm; [exact Hm|].
  cbn [foldl]. apply IH. apply values_among_insert; [among | exact Hm].
Qed.

Lemma sympy_record_outcome (mark line : string) (x : TestStatus)
    (m : gmap string string) :
  x ∈ [FAILED; ERROR; PASSED] ->
  values_among [FAILED; ERROR; PASSED] m ->
  outcome (values_among [FAILED; ERROR; PASSED]) (fun e => e = IndexError)
          (sympy_record mark line x m).
Proof.
  intros Hx Hm. unfold sympy_record.
  destruct (Str.endswith mark line); [|exact Hm].
  eapply outcome_bind; [apply index_outcome | intros t _; cbn beta].
  apply values_among_insert; [eauto | exact Hm].
Qed.

(** X10.  The sympy parser returns on every log, and it records failed, error
    and passed tests only. *)
Theorem parse_log_sympy_outcome (log : string) :
  outcome (values_among [FAILED; ERROR; PASSED]) (fun _ => False)
          (parse_log_sympy log).
Proof.
  assert (H : outcome (values_among [FAILED; ERROR; PASSED])
                      (fun e => e = IndexError) (parse_log_sympy log)).
  { apply outcome_for_each; [|apply sympy_matches_among].
    intros m line Hm. unfold sympy_line.
    destruct (Str.startswith "test_" (Str.strip line)); [|exact Hm].
    eapply outcome_bind; [apply sympy_record_outcome; [set_solver | exact Hm]|].
    intros m1 Hm1.
    eapply outcome_bind; [apply sympy_record_outcome; [set_solver | exact Hm1]|].
    intros m2 Hm2. apply sympy_record_outcome; [set_solver | exact Hm2]. }
  destruct (parse_log_sympy_total log) as [m Hm]. rewrite Hm in *. exact H.
Qed.

Lemma django_pass_suffixes_outcome (suffixes : list string) (line : string)
    (m : gmap string string) :
  values_among django_statuses m ->
  outcome (fun lm => values_among django_statuses lm.2) (fun e => e = IndexError)
          (django_pass_suffixes suffixes line m).
Proof.
  intros Hm. induction suffixes as [|suffix suffixes IH];
    cbn [django_pass_suffixes]; [exact Hm|].
  destruct (Str.endswith suffix line); [|exact IH].
  eapply (outcome_bind (fun _ => True)).
  - destruct (Str.startswith migration_noise (Str.strip line)); [|exact I].
    eapply outcome_bind; [apply index_last_outcome | intros t _; exact I].
  - intros l _. cbn [outcome snd]. apply values_among_insert; [|exact Hm].
    unfold django_statuses. among.
Qed.

Lemma django_record_before_outcome (cond : bool) (sep line : string)
    (x : TestStatus) (m : gmap string string) :
  x ∈ django_statuses -> values_among django_statuses m ->
  outcome (values_among django_statuses) (fun e => e = IndexError)
          (django_record_before cond sep line x m).
Proof.
  intros Hx Hm. unfold django_record_before. destruct cond; [|exact Hm].
  eapply outcome_bind; [apply index_outcome | intros t _; cbn beta].
  apply values_among_insert; [eauto | exact Hm].
Qed.

Lemma django_record_labelled_outcome (label line : string) (x : TestStatus)
    (m : gmap string string) :
  x ∈ django_statuses -> values_among django_statuses m ->
  outcome (values_among django_statuses) (fun e => e = IndexError)
          (django_record_labelled label line x m).
Proof.
  intros Hx Hm. unfold django_record_labelled.
  destruct (Str.startswith label line); [|exact Hm].
  eapply outcome_bind; [apply index_outcome | intros t _; cbn beta].
  apply values_among_insert; [eauto | exact Hm].
Qed.

Lemma django_line_outcome (st : django_state) (line : string) :
  values_among django_statuses (status_map st) ->
  outcome (fun st' => values_among django_statuses (status_map st'))
          (fun e => e = IndexError) (django_line st line).
Proof.
  intros Hm. unfold django_line.
  eapply (outcome_bind (fun _ => True)).
  { match goal with |- outcome _ _ (if ?b then _ else _) => destruct b end;
      [|exact I].
    eapply outcome_bind; [apply index_outcome | intros t _; exact I]. }
  intros prev _.
  eapply outcome_bind.
  { apply django_pass_suffixes_outcome.
    match goal with |- values_among _ (if ?b then _ else _) => destruct b end;
      [|exact Hm].
    apply values_among_insert; [unfold django_statuses; among | exact Hm]. }
  intros [line1 m1] H1. cbn [snd] in H1.
  eapply outcome_bind;
    [apply django_record_before_outcome; [unfold django_statuses; set_solver | exact H1]|].
  intros m2 H2.
  eapply outcome_bind;
    [apply django_record_before_outcome; [unfold django_statuses; set_solver | exact H2]|].
  intros m3 H3.
  eapply outcome_bind;
    [apply django_record_labelled_outcome; [unfold django_statuses; set_solver | exact H3]|].
  intros m4 H4.
  eapply outcome_bind;
    [apply django_record_before_outcome; [unfold django_statuses; set_solver | exact H4]|].
  intros m5 H5.
  eapply outcome_bind;
    [apply django_record_labelled_outcome; [unfold django_statuses; set_solver | exact H5]|].
  intros m6 H6. cbn [outcome status_map].
  destruct prev as [t|]; [|exact H6].
  match goal with |- values_among _ (if ?b then _ else _) => destruct b end;
    [|exact H6].
  apply values_among_insert; [unfold django_statuses; among | exact H6].
Qed.

Lemma django_record_matches_among (log : string) (m : gmap string string)
    (pattern : Re.regex) :
  values_among django_statuses m ->
  values_among django_statuses (django_record_matches log m pattern).
Proof.
  unfold django_record_matches. generalize (Re.finditer pattern log).
  intros l. revert m. induction l as [|caps l IH]; intros m Hm; [exact Hm|].
  cbn [foldl]. apply IH.
  apply values_among_insert; [unfold django_statuses; among | exact Hm].
Qed.

(** X8.  The django parser records passed, skipped, failed and error tests
    only, never an expected failure, and the only exception it raises is
    [IndexError]. *)
Theorem parse_log_django_outcome (log : string) :
  outcome (values_among [PASSED; SKIPPED; FAILED; ERROR])
          (fun e => e = IndexError) (parse_log_django log).
Proof.
  unfold parse_log_django. eapply outcome_bind.
  - apply (outcome_for_each
             (fun st => values_among django_statuses (status_map st))).
    + intros st line Hst. apply django_line_outcome, Hst.
    + apply values_among_empty.
  - intros st Hst. cbv beta in Hst. cbn [outcome]. fold django_statuses.
    set (m0 := status_map st) in *. clearbody m0. revert m0 Hst.
    induction django_patterns as [|p ps IH]; intros m Hm; [exact Hm|].
    cbn [foldl]. apply IH, django_record_matches_among, Hm.
Qed.

(** ** Logs put one after the other *)

Lemma cons_head_app (c : ascii) (l1 l2 : list string) :
  l1 <> [] -> Str.cons_head c (l1 ++ l2) = Str.cons_head c l1 ++ l2.
Proof. destruct l1; [contradiction | reflexivity]. Qed.

(** The lines of two texts with a newline between them. *)
Lemma split_nl_app (a b : string) :
  Str.split nl (a +:+ nl +:+ b) = Str.split nl a ++ Str.split nl b.
Proof.
  induction a as [|c a IH].
  - rewrite app_nil_l. change (nl +:+ b) with (String "010"%char b).
    rewrite split_nl_cons. reflexivity.
  - rewrite app_cons, !split_nl_cons, IH.
    destruct (Char.one "010"%char c); [reflexivity|].
    apply cons_head_app, split_go_nonempty.
Qed.

Lemma adds_entries_for_each body (l : list string) (m : gmap string string) :
  adds_entries body ->
  for_each body l m = d ← for_each body l ∅; Ok (d ∪ m).
Proof.
  intros Hbody. revert m. induction l as [|x l IH]; intros m.
  - cbn [for_each mbind result_bind]. rewrite (left_id_L ∅ (∪)). reflexivity.
  - cbn [for_each]. rewrite (Hbody m x).
    destruct (body ∅ x) as [d|e]; [|reflexivity].
    cbn [mbind result_bind]. rewrite (IH (d ∪ m)), (IH d).
    destruct (for_each body l ∅) as [d'|e]; [|reflexivity].
    cbn [mbind result_bind]. rewrite (assoc_L (∪)). reflexivity.
Qed.

(** A parser that scans the lines with such a body, on two logs with a
    newline between them: the entries of the second log over those of the
    first. *)
Lemma adds_entries_app body (a b : string) :
  adds_entries body ->
  for_each body (Str.split nl (a +:+ nl +:+ b)) ∅
  = ma ← for_each body (Str.split nl a) ∅;
    mb ← for_each body (Str.split nl b) ∅;
    Ok (mb ∪ ma).
Proof.
  intros Hbody. rewrite split_nl_app, for_each_app.
  destruct (for_each body (Str.split nl a) ∅) as [ma|e]; [|reflexivity].
  cbn [mbind result_bind]. apply adds_entries_for_each, Hbody.
Qed.

Lemma insert_over (m : gmap string string) (k v : string) :
  <[k := v]> m = <[k := v]> ∅ ∪ m.
Proof. rewrite <- insert_union_l, (left_id_L ∅ (∪)). reflexivity. Qed.

(** Shows that a body adds entries: each of its ways out returns the map
    or the map with one entry more. *)
Ltac adds_entries_body :=
  repeat match goal with
    | |- context [if ?b then _ else _] => destruct b
    | |- context [index ?l ?i] => destruct (index l i); cbn [mbind result_bind]
    | |- context [option_test_name ?t] =>
        destruct (option_test_name t); cbn [mbind result_bind]
    end;
  cbn [mbind result_bind];
  first [ reflexivity
        | rewrite (left_id_L ∅ (∪)); reflexivity
        | f_equal; apply insert_over ].

Lemma pytest_line_adds : adds_entries pytest_line.
Proof. intros m line. unfold pytest_line. adds_entries_body. Qed.

Lemma pytest_options_line_adds : adds_entries pytest_options_line.
Proof. intros m line. unfold pytest_options_line. adds_entries_body. Qed.

Lemma pytest_v2_line_adds : adds_entries pytest_v2_line.
Proof. intros m line. unfold pytest_v2_line. adds_entries_body. Qed.

Lemma matplotlib_line_adds : adds_entries matplotlib_line.
Proof. intros m line. unfold matplotlib_line. adds_entries_body. Qed.

Lemma seaborn_line_adds : adds_entries seaborn_line.
Proof. intros m line. unfold seaborn_line. adds_entries_body. Qed.

(** X3.  The prefix parsers on two logs with a newline between them: the
    entries of the second log over those of the first. *)
Theorem prefix_parsers_compose (a b : string) :
  parse_log_pytest (a +:+ nl +:+ b)
  = (ma ← parse_log_pytest a; mb ← parse_log_pytest b; Ok (mb ∪ ma))
  /\ parse_log_pytest_options (a +:+ nl +:+ b)
     = (ma ← parse_log_pytest_options a; mb ← parse_log_pytest_options b;
        Ok (mb ∪ ma))
  /\ parse_log_pytest_v2 (a +:+ nl +:+ b)
     = (ma ← parse_log_pytest_v2 a; mb ← parse_log_pytest_v2 b; Ok (mb ∪ ma))
  /\ parse_log_matplotlib (a +:+ nl +:+ b)
     = (ma ← parse_log_matplotlib a; mb ← parse_log_matplotlib b; Ok (mb ∪ ma)).
Proof.
  repeat split.
  - apply adds_entries_app, pytest_line_adds.
  - apply adds_entries_app, pytest_options_line_adds.
  - apply adds_entries_app, pytest_v2_line_adds.
  - apply adds_entries_app, matplotlib_line_adds.
Qed.

(** X7.  The seaborn parser on two logs with a newline between them: it raises
    when it does on one of them, the first one first, and otherwise gives
    the entries of the second log over those of the first. *)
Theorem parse_log_seaborn_compose (a b : string) :
  parse_log_seaborn (a +:+ nl +:+ b)
  = (ma ← parse_log_seaborn a; mb ← parse_log_seaborn b; Ok (mb ∪ ma)).
Proof. apply adds_entries_app, seaborn_line_adds. Qed.

(** ** What the simple prefix parser records *)

Lemma is_token_cons (c : ascii) (s : string) :
  is_token (String c s) = negb (Char.isspace c) && is_token s.
Proof. reflexivity. Qed.

Lemma token_not_space (c : ascii) :
  Char.isspace c = false -> Ascii.eqb " " c = false.
Proof.
  intros H. destruct (Ascii.eqb_spec " "%char c) as [<-|]; [discriminate H|].
  reflexivity.
Qed.

(** Replacing a text that starts with a space keeps a prefix without
    white space. *)
Lemma replace_keeps_prefix (p old new s : string) :
  is_token p = true -> Str.startswith p s = true ->
  Str.startswith p (Str.replace (String " "%char old) new s) = true.
Proof.
  unfold Str.replace. revert s. induction p as [|c p IH]; intros s Hp Hs;
    [reflexivity|].
  destruct s as [|b s]; [discriminate|].
  rewrite startswith_cons in Hs. apply andb_true_iff in Hs as [Hcb Hs].
  apply Ascii.eqb_eq in Hcb. subst b.
  rewrite is_token_cons in Hp. apply andb_true_iff in Hp as [Hc Hp].
  apply negb_true_iff in Hc.
  cbn [Str.replace_go]. rewrite startswith_cons, (token_not_space c Hc).
  cbn [andb]. rewrite startswith_cons, Ascii.eqb_refl. apply IH; assumption.
Qed.

(** The first token of a text that starts with a text without white space
    starts with it. *)
Lemma split_ws_prefix (c : ascii) (p s : string) :
  is_token (String c p) = true -> Str.startswith (String c p) s = true ->
  exists t ts, Str.split_ws s = t :: ts /\ Str.startswith (String c p) t = true.
Proof.
  revert c s. induction p as [|c2 p IH]; intros c s Hp Hs.
  - destruct s as [|b s]; [discriminate|].
    rewrite startswith_cons in Hs. apply andb_true_iff in Hs as [Hcb _].
    apply Ascii.eqb_eq in Hcb. subst b.
    rewrite is_token_cons in Hp. apply andb_true_iff in Hp as [Hc _].
    apply negb_true_iff in Hc. cbn [Str.split_ws]. rewrite Hc.
    destruct s as [|c' s']; [exists (String c ""), []; split; [reflexivity|];
                              rewrite startswith_cons, Ascii.eqb_refl; reflexivity|].
    destruct (Char.isspace c') eqn:Hc'.
    + eexists _, _. split; [reflexivity|].
      rewrite startswith_cons, Ascii.eqb_refl. reflexivity.
    + destruct (split_ws_first c' s' Hc') as (t & ts & ->).
      exists (String c t), ts. split; [reflexivity|].
      rewrite startswith_cons, Ascii.eqb_refl. reflexivity.
  - destruct s as [|b s]; [discriminate|].
    rewrite startswith_cons in Hs. apply andb_true_iff in Hs as [Hcb Hs].
    apply Ascii.eqb_eq in Hcb. subst b.
    rewrite is_token_cons in Hp. apply andb_true_iff in Hp as [Hc Hp].
    apply negb_true_iff in Hc.
    destruct (IH c2 s Hp Hs) as (t & ts & Ht & Hstart).
    destruct s as [|b s]; [discriminate|].
    pose proof Hs as Hs'. rewrite startswith_cons in Hs'.
    apply andb_true_iff in Hs' as [Hcb _]. apply Ascii.eqb_eq in Hcb. subst b.
    pose proof Hp as Hp'. rewrite is_token_cons in Hp'.
    apply andb_true_iff in Hp' as [Hc2 _]. apply negb_true_iff in Hc2.
    cbn [Str.split_ws] in *. rewrite Hc, Hc2 in *. rewrite Ht.
    exists (String c t), ts. split; [reflexivity|].
    rewrite startswith_cons, Ascii.eqb_refl, Hstart. reflexivity.
Qed.

Lemma value_token (x : TestStatus) : is_token (value x) = true.
Proof. destruct x; reflexivity. Qed.

Lemma value_cons (x : TestStatus) : exists c p, value x = String c p.
Proof. destruct x; cbn [value]; eauto. Qed.

Lemma starts_with_status_iff (s : string) :
  starts_with_status s = true <-> exists x, Str.startswith (value x) s = true.
Proof.
  unfold starts_with_status. rewrite existsb_exists. split.
  - intros (x & _ & H). eauto.
  - intros (x & H). exists x. split; [destruct x; simpl; tauto | exact H].
Qed.

Lemma split_ws_token_at (s : string) (i : nat) (t : string) :
  Str.split_ws s !! i = Some t -> is_token t = true /\ t <> "".
Proof.
  intros H. split.
  - pose proof (split_ws_tokens s) as Htok. rewrite Forall_lookup in Htok.
    apply (Htok i t H).
  - revert i H. induction s as [|c s IH]; intros i H; [discriminate|].
    cbn [Str.split_ws] in H. destruct (Char.isspace c) eqn:Hc; [eauto|].
    destruct s as [|c' s'].
    + destruct i; [injection H as <-; discriminate | discriminate].
    + destruct (Char.isspace c') eqn:Hc'.
      * destruct i; [injection H as <-; discriminate | eauto].
      * destruct (split_ws_first c' s' Hc') as (t' & ts & E). rewrite E in *.
        destruct i; [injection H as <-; discriminate|].
        apply (IH (S i)). exact H.
Qed.

Lemma pytest_line_entries (m m' : gmap string string) (line : string) :
  map_Forall prefix_entry m -> pytest_line m line = Ok m' ->
  map_Forall prefix_entry m'.
Proof.
  intros Hm. unfold pytest_line.
  destruct (starts_with_status line) eqn:Hstart; [|intros [= <-]; exact Hm].
  set (line' := if Str.startswith (value FAILED) line
                then Str.replace " - " " " line else line).
  assert (Hstart' : exists x, Str.startswith (value x) line' = true).
  { unfold line'. destruct (Str.startswith (value FAILED) line) eqn:Hf.
    - exists FAILED. apply replace_keeps_prefix; [reflexivity | exact Hf].
    - apply starts_with_status_iff, Hstart. }
  destruct Hstart' as [x Hx]. destruct (value_cons x) as (c & p & Hv).
  pose proof (value_token x) as Htok. rewrite Hv in Hx, Htok.
  destruct (split_ws_prefix c p line' Htok Hx) as (t & ts & Hsplit & Ht).
  destruct (length (Str.split_ws line') <=? 1); [intros [= <-]; exact Hm|].
  unfold index. destruct (Str.split_ws line' !! 1) as [k|] eqn:Hk; [|discriminate].
  rewrite Hsplit. cbn [lookup list_lookup mbind result_bind]. intros [= <-].
  apply map_Forall_insert_2; [|exact Hm].
  destruct (split_ws_token_at line' 1 k Hk) as [Hk1 Hk2].
  assert (Ht0 : Str.split_ws line' !! 0 = Some t) by (rewrite Hsplit; reflexivity).
  destruct (split_ws_token_at line' 0 t Ht0) as [Ht1 _].
  repeat split; try assumption.
  apply starts_with_status_iff. exists x. rewrite Hv. exact Ht.
Qed.

(** X1.  The simple prefix parser returns on every log; every name it records
    is a token, and every status a token that starts with a status
    label. *)
Theorem parse_log_pytest_entries (log : string) :
  outcome (map_Forall prefix_entry) (fun _ => False) (parse_log_pytest log).
Proof.
  destruct (parse_log_pytest_total log) as [m Hm]. rewrite Hm. cbn [outcome].
  revert Hm. apply (for_each_invariant (map_Forall prefix_entry) pytest_line).
  - intros s x s' Hs H. eapply pytest_line_entries; eauto.
  - apply map_Forall_empty.
Qed.

(** ** The last line of a test *)

Lemma replace_absent (c0 : ascii) (old new s : string) :
  Str.contains (String c0 old) s = false ->
  Str.replace (String c0 old) new s = s.
Proof.
  unfold Str.replace. induction s as [|c s IH]; intros H; [reflexivity|].
  rewrite contains_cons in H. apply orb_false_iff in H as [H1 H2].
  cbn [Str.replace_go]. rewrite H1, (IH H2). reflexivity.
Qed.

Lemma token_no_dash (w : string) :
  is_token w = true -> Str.contains " - " w = false.
Proof.
  induction w as [|c w IH]; intros H; [reflexivity|].
  rewrite is_token_cons in H. apply andb_true_iff in H as [Hc H].
  apply negb_true_iff in Hc.
  rewrite contains_cons, startswith_cons, (token_not_space c Hc), (IH H).
  reflexivity.
Qed.

(** Two tokens with a space between them have no dash between spaces. *)
Lemma tokens_no_dash (u w : string) :
  is_token u = true -> is_token w = true ->
  Str.contains " - " (u +:+ " " +:+ w) = false.
Proof.
  intros Hu Hw. induction u as [|c u IH].
  - rewrite app_nil_l. change (" " +:+ w) with (String " "%char w).
    rewrite contains_cons, (token_no_dash w Hw), orb_false_r.
    rewrite startswith_cons. cbn [andb Ascii.eqb]. change (Ascii.eqb " " " ") with true.
    cbn [andb]. destruct w as [|c1 [|c2 w]]; [reflexivity | |].
    { rewrite startswith_cons. cbn [Str.startswith]. apply andb_false_r. }
    rewrite !is_token_cons in Hw. apply andb_true_iff in Hw as [_ Hw].
    apply andb_true_iff in Hw as [Hc2 _]. apply negb_true_iff in Hc2.
    rewrite !startswith_cons, (token_not_space c2 Hc2), andb_false_r. reflexivity.
  - rewrite is_token_cons in Hu. apply andb_true_iff in Hu as [Hc Hu].
    apply negb_true_iff in Hc.
    rewrite app_cons, contains_cons, startswith_cons, (token_not_space c Hc).
    apply IH, Hu.
Qed.

Lemma split_ws_token_token (c c' : ascii) (s : string) :
  Char.isspace c = false -> Char.isspace c' = false ->
  Str.split_ws (String c (String c' s))
  = Str.cons_head c (Str.split_ws (String c' s)).
Proof. intros Hc Hc'. cbn [Str.split_ws]. rewrite Hc, Hc'. reflexivity. Qed.

Lemma split_ws_token_space (c c' : ascii) (s : string) :
  Char.isspace c = false -> Char.isspace c' = true ->
  Str.split_ws (String c (String c' s)) = String c "" :: Str.split_ws s.
Proof. intros Hc Hc'. cbn [Str.split_ws]. rewrite Hc, Hc'. reflexivity. Qed.

Lemma split_ws_one_token (c : ascii) (w : string) :
  is_token (String c w) = true -> Str.split_ws (String c w) = [String c w].
Proof.
  revert c. induction w as [|c' w IH]; intros c H.
  - rewrite is_token_cons in H. apply andb_true_iff in H as [Hc _].
    apply negb_true_iff in Hc. cbn [Str.split_ws]. rewrite Hc. reflexivity.
  - rewrite is_token_cons in H. apply andb_true_iff in H as [Hc H].
    apply negb_true_iff in Hc. pose proof H as H'.
    rewrite is_token_cons in H'. apply andb_true_iff in H' as [Hc' _].
    apply negb_true_iff in Hc'.
    rewrite (split_ws_token_token c c' w Hc Hc'), (IH c' H). reflexivity.
Qed.

(** The tokens of two tokens with a space between them. *)
Lemma split_ws_two_tokens (c : ascii) (u : string) (c' : ascii) (w : string) :
  is_token (String c u) = true -> is_token (String c' w) = true ->
  Str.split_ws (String c u +:+ " " +:+ String c' w) = [String c u; String c' w].
Proof.
  intros Hu Hw. revert c Hu. induction u as [|c2 u IH]; intros c Hu.
  - rewrite is_token_cons in Hu. apply andb_true_iff in Hu as [Hc _].
    apply negb_true_iff in Hc.
    change (String c "" +:+ " " +:+ String c' w)
      with (String c (String " "%char (String c' w))).
    rewrite (split_ws_token_space c " " _ Hc eq_refl).
    f_equal. apply (split_ws_one_token c' w Hw).
  - rewrite is_token_cons in Hu. apply andb_true_iff in Hu as [Hc Hu].
    apply negb_true_iff in Hc. pose proof Hu as Hu'.
    rewrite is_token_cons in Hu'. apply andb_true_iff in Hu' as [Hc2 _].
    apply negb_true_iff in Hc2.
    change (String c (String c2 u) +:+ " " +:+ String c' w)
      with (String c (String c2 (u +:+ " " +:+ String c' w))).
    rewrite (split_ws_token_token c c2 _ Hc Hc2).
    change (String c2 (u +:+ " " +:+ String c' w))
      with (String c2 u +:+ " " +:+ String c' w).
    rewrite (IH c2 Hu). reflexivity.
Qed.

Lemma token_line (s : string) : is_token s = true -> is_line s = true.
Proof.
  induction s as [|c s IH]; intros H; [reflexivity|].
  rewrite is_token_cons in H. apply andb_true_iff in H as [Hc H].
  rewrite is_line_cons, (IH H), andb_true_r.
  destruct (Char.one "010"%char c) eqn:E; [|reflexivity].
  apply Ascii.eqb_eq in E. subst c. discriminate Hc.
Qed.

(** A line of a status label, a space and a name records the name with
    that status. *)
Lemma pytest_line_status (m : gmap string string) (x : TestStatus) (name : string) :
  is_token name = true -> name <> "" ->
  pytest_line m (value x +:+ " " +:+ name) = Ok (<[name := value x]> m).
Proof.
  intros Hname Hne. unfold pytest_line.
  assert (Hstart : starts_with_status (value x +:+ " " +:+ name) = true)
    by (apply starts_with_status_iff; exists x; apply startswith_app).
  rewrite Hstart.
  assert (Hline : (if Str.startswith (value FAILED) (value x +:+ " " +:+ name)
                   then Str.replace " - " " " (value x +:+ " " +:+ name)
                   else value x +:+ " " +:+ name)
                  = value x +:+ " " +:+ name).
  { destruct (Str.startswith _ _); [|reflexivity].
    apply replace_absent, tokens_no_dash; [apply value_token | exact Hname]. }
  rewrite Hline.
  destruct name as [|c' w]; [contradiction|].
  destruct (value_cons x) as (c & u & Hv). pose proof (value_token x) as Hx.
  rewrite Hv in *. rewrite (split_ws_two_tokens c u c' w Hx Hname). reflexivity.
Qed.

(** X2.  After any log, a last line of a status label, a space and a name gives
    the name that status in the result of the simple prefix parser, and
    leaves the other names as the log before gives them. *)
Theorem parse_log_pytest_last_line (log : string) (x : TestStatus) (name : string) :
  is_token name = true -> name <> "" ->
  parse_log_pytest (log +:+ nl +:+ value x +:+ " " +:+ name)
  = (m ← parse_log_pytest log; Ok (<[name := value x]> m)).
Proof.
  intros Hname Hne. unfold parse_log_pytest.
  rewrite split_nl_app, for_each_app.
  destruct (for_each pytest_line (Str.split nl log) ∅) as [m|e]; [|reflexivity].
  cbn [mbind result_bind].
  rewrite split_nl_single.
  - cbn [for_each]. rewrite (pytest_line_status m x name Hname Hne). reflexivity.
  - unfold is_line. rewrite !all_chars_app.
    fold (is_line (value x)). fold (is_line name).
    rewrite (token_line _ (value_token x)), (token_line _ Hname). reflexivity.
Qed.

(** On a log with two lines for the same test the last one decides. *)
Lemma parse_log_pytest_last_line_witness :
  is_token "test_a" = true /\ "test_a" <> ""
  /\ parse_log_pytest (("PASSED test_a" +:+ nl +:+ "PASSED test_b")
                       +:+ nl +:+ value FAILED +:+ " " +:+ "test_a")
     = Ok (<["test_a" := "FAILED"]> (<["test_b" := "PASSED"]> {["test_a" := "PASSED"]})).
Proof.
  split; [reflexivity|]. split; [discriminate|].
  rewrite (parse_log_pytest_last_line _ FAILED "test_a" eq_refl ltac:(discriminate)).
  vm_compute. reflexivity.
Defined.

(** ** The logs on which a parser raises *)

Lemma for_each_raises {S A : Type} (bad : A -> bool) (e : exn)
    (body : S -> A -> result S) (l : list A) :
  (forall s x, bad x = true -> body s x = Raise e) ->
  (forall s x, bad x = false -> exists s', body s x = Ok s') ->
  forall s,
    if existsb bad l then for_each body l s = Raise e
    else exists s', for_each body l s = Ok s'.
Proof.
  intros Hbad Hgood. induction l as [|x l IH]; intros s; cbn [existsb for_each].
  - eauto.
  - destruct (bad x) eqn:Hx; cbn [orb].
    + rewrite (Hbad s x Hx). reflexivity.
    + destruct (Hgood s x Hx) as [s' ->]. cbn [mbind result_bind].
      apply IH.
Qed.

Lemma index_short {A : Type} (l : list A) :
  (length l <? 2) = true -> index l 1 = Raise IndexError.
Proof.
  intros H. apply Nat.ltb_lt in H. unfold index.
  rewrite lookup_ge_None_2; [reflexivity | lia].
Qed.

Lemma index_long {A : Type} (l : list A) :
  (length l <? 2) = false ->
  exists x y, index l 0 = Ok x /\ index l 1 = Ok y.
Proof.
  intros H. apply Nat.ltb_ge in H. apply index_pair. apply Nat.leb_gt. lia.
Qed.

Lemma seaborn_line_bad (m : gmap string string) (line : string) :
  seaborn_bad line = true -> seaborn_line m line = Raise IndexError.
Proof.
  unfold seaborn_bad, seaborn_line. intros H.
  apply andb_true_iff in H as [Hcond Hlen].
  rewrite (index_short _ Hlen).
  destruct (Str.startswith (value FAILED) line); [reflexivity|].
  destruct (Str.contains (" " +:+ value PASSED +:+ " ") line); [reflexivity|].
  destruct (Str.startswith (value PASSED) line); [reflexivity | discriminate].
Qed.

Lemma seaborn_line_good (m : gmap string string) (line : string) :
  seaborn_bad line = false -> exists m', seaborn_line m line = Ok m'.
Proof.
  unfold seaborn_bad, seaborn_line. intros H.
  destruct (Str.startswith (value FAILED) line);
    [|destruct (Str.contains (" " +:+ value PASSED +:+ " ") line);
      [|destruct (Str.startswith (value PASSED) line); [|eauto]]];
    cbn [orb andb] in H;
    destruct (index_long _ H) as (x & y & H0 & H1); cbv zeta; rewrite H1;
    cbn [mbind result_bind]; try (destruct (String.eqb y (value PASSED)));
    rewrite ?H0; cbn [mbind result_bind]; eauto.
Qed.

(** X6.  The seaborn parser raises [IndexError] exactly on the logs with a line
    that starts with [FAILED] or [PASSED], or has [PASSED] between spaces,
    and has less than two tokens; on the other logs it returns. *)
Theorem parse_log_seaborn_raises (log : string) :
  if existsb seaborn_bad (Str.split nl log)
  then parse_log_seaborn log = Raise IndexError
  else exists m, parse_log_seaborn log = Ok m.
Proof.
  apply (for_each_raises seaborn_bad IndexError seaborn_line).
  - intros m line. apply seaborn_line_bad.
  - intros m line. apply seaborn_line_good.
Qed.

(** The pass suffix loop on a stripped line: the line is left as it is,
    unless it starts with the migration text, and then the new line starts
    with the letter [t]. *)
Lemma django_pass_suffixes_noise (suffixes : list string) (l : string)
    (m : gmap string string) :
  Str.strip l = l ->
  exists l1 m1, django_pass_suffixes suffixes l m = Ok (l1, m1)
                /\ (l1 = l \/ (Str.startswith migration_noise l = true
                               /\ exists rest, l1 = String "t"%char rest)).
Proof.
  intros Hstrip. induction suffixes as [|suffix suffixes IH];
    cbn [django_pass_suffixes]; [eauto|].
  destruct (Str.endswith suffix l); [|exact IH].
  rewrite Hstrip. destruct (Str.startswith migration_noise l) eqn:Hnoise.
  - apply startswith_split in Hnoise.
    set (rest := Str.drop (Str.len migration_noise) l) in Hnoise.
    rewrite Hnoise.
    change (Str.split1 "..." (migration_noise +:+ rest))
      with ["Applying sites.0002_alter_domain_unique"; "test_no_migrations" +:+ rest].
    cbn [index_last last mbind result_bind].
    change ("test_no_migrations" +:+ rest)
      with (String "t"%char ("est_no_migrations" +:+ rest)).
    unfold Str.strip. rewrite lstrip_nonspace, rstrip_cons by reflexivity.
    eexists _, _. split; [reflexivity|]. right. eauto.
  - cbn [mbind result_bind]. eauto.
Qed.

Lemma noise_not_labelled (l : string) :
  Str.startswith migration_noise l = true ->
  Str.startswith "FAIL:" l = false /\ Str.startswith "ERROR:" l = false.
Proof.
  intros H. apply startswith_split in H. rewrite H. split; reflexivity.
Qed.

Lemma django_record_labelled_cases (label line : string) (x : TestStatus)
    (m : gmap string string) :
  if Str.startswith label line && (length (Str.split_ws line) <? 2)
  then django_record_labelled label line x m = Raise IndexError
  else exists m', django_record_labelled label line x m = Ok m'.
Proof.
  unfold django_record_labelled.
  destruct (Str.startswith label line); cbn [andb]; [|eauto].
  destruct (length (Str.split_ws line) <? 2) eqn:Hlen.
  - rewrite (index_short _ Hlen). reflexivity.
  - destruct (index_long _ Hlen) as (a & b & _ & ->).
    cbn [mbind result_bind]. eauto.
Qed.

Lemma django_line_cases (st : django_state) (line : string) :
  if django_bad line then django_line st line = Raise IndexError
  else exists st', django_line st line = Ok st'.
Proof.
  unfold django_bad, django_line.
  pose proof (strip_idem line) as Hstrip.
  set (l := Str.strip line) in *.
  set (m0 := if Str.contains "--version is equivalent to version" l
             then <["--version is equivalent to version" := value PASSED]> (status_map st)
             else status_map st).
  cbv zeta.
  assert (Hprev : exists prev,
             (if Str.contains " ... " l
              then t ← index (Str.split " ... " l) 0; Ok (Some t)
              else Ok (prev_test st)) = Ok prev).
  { destruct (Str.contains " ... " l); [|eauto].
    destruct (split_index0 " ... " l) as [t ->]. cbn [mbind result_bind]. eauto. }
  destruct Hprev as [prev ->]. cbn [mbind result_bind].
  destruct (django_pass_suffixes_noise pass_suffixes l m0 Hstrip)
    as (l1 & m1 & -> & Hl1).
  cbn [mbind result_bind].
  destruct (django_record_before_total (Str.contains " ... skipped" l1)
              " ... skipped" l1 SKIPPED m1) as [m2 ->].
  cbn [mbind result_bind].
  destruct (django_record_before_total (Str.endswith " ... FAIL" l1)
              " ... FAIL" l1 FAILED m2) as [m3 ->].
  cbn [mbind result_bind].
  pose proof (django_record_labelled_cases "FAIL:" l1 FAILED m3) as HF.
  assert (Hsame : Str.startswith "FAIL:" l1 = Str.startswith "FAIL:" l
                  /\ Str.startswith "ERROR:" l1 = Str.startswith "ERROR:" l
                  /\ (Str.startswith "FAIL:" l || Str.startswith "ERROR:" l = true
                      -> l1 = l)).
  { destruct Hl1 as [->|[Hnoise [rest ->]]]; [auto|].
    destruct (noise_not_labelled l Hnoise) as [-> ->].
    split; [reflexivity|]. split; [reflexivity|]. discriminate. }
  destruct Hsame as (EF & EE & Hl).
  rewrite EF in HF.
  destruct (Str.startswith "FAIL:" l) eqn:HsF; cbn [orb andb] in *.
  - rewrite (Hl eq_refl) in *.
    destruct (length (Str.split_ws l) <? 2) eqn:Hlen.
    + rewrite HF. reflexivity.
    + destruct HF as [m4 ->]. cbn [mbind result_bind].
      destruct (django_record_before_total (Str.endswith " ... ERROR" l)
                  " ... ERROR" l ERROR m4) as [m5 ->].
      cbn [mbind result_bind].
      pose proof (django_record_labelled_cases "ERROR:" l ERROR m5) as HE.
      rewrite Hlen, andb_false_r in HE. destruct HE as [m6 ->].
      cbn [mbind result_bind]. eauto.
  - destruct HF as [m4 ->]. cbn [mbind result_bind].
    destruct (django_record_before_total (Str.endswith " ... ERROR" l1)
                " ... ERROR" l1 ERROR m4) as [m5 ->].
    cbn [mbind result_bind].
    pose proof (django_record_labelled_cases "ERROR:" l1 ERROR m5) as HE.
    rewrite EE in HE.
    destruct (Str.startswith "ERROR:" l) eqn:HsE; cbn [andb] in *.
    + rewrite (Hl eq_refl) in *.
      destruct (length (Str.split_ws l) <? 2).
      * rewrite HE. reflexivity.
      * destruct HE as [m6 ->]. cbn [mbind result_bind]. eauto.
    + destruct HE as [m6 ->]. cbn [mbind result_bind]. eauto.
Qed.

(** X9.  The Django parser raises [IndexError] exactly on the logs with a line
    that, once stripped, starts with [FAIL:] or [ERROR:] and has no second
    token; on the other logs it returns. *)
Theorem parse_log_django_raises (log : string) :
  if existsb django_bad (Str.split nl log)
  then parse_log_django log = Raise IndexError
  else exists m, parse_log_django log = Ok m.
Proof.
  unfold parse_log_django.
  pose proof (for_each_raises django_bad IndexError django_line (Str.split nl log)) as H.
  specialize (H ltac:(intros st x Hx; pose proof (django_line_cases st x) as Hc;
                      rewrite Hx in Hc; exact Hc)
                ltac:(intros st x Hx; pose proof (django_line_cases st x) as Hc;
                      rewrite Hx in Hc; exact Hc)
                {| status_map := ∅; prev_test := None |}).
  destruct (existsb django_bad (Str.split nl log)).
  - rewrite H. reflexivity.
  - destruct H as [st ->]. cbn [mbind result_bind]. eauto.
Qed.

(** ** The generic parsers *)

Lemma pytest_ptr_match (prev : option ascii) (s0 s1 : string)
    (caps : Re.captures) :
  Re.match_at pytest_ptr prev s0 = Some (s1, caps) ->
  exists x gap name,
    s0 = (value x +:+ gap +:+ name) +:+ s1
    /\ caps = [(2, name); (1, value x)]
    /\ gap <> "" /\ all_chars Char.isspace gap = true
    /\ name <> "" /\ is_line name = true.
Proof.
  unfold Re.match_at, pytest_ptr, Re.plus. cbn [Re.seq].
  intros H. rewrite exec_Cat, exec_Grp in H.
  apply exec_alts_sound in H as (x & t & _ & -> & H).
  rewrite take_consumed, exec_Cat, exec_Rep in H.
  apply rep_sound in H as (gap & b1 & -> & Hgap & Hlen & _ & H).
  rewrite exec_Grp, exec_Rep in H.
  apply rep_sound in H as (name & b2 & -> & Hname & Hlen' & _ & H).
  rewrite take_consumed in H. injection H as <- <-.
  exists x, gap, name. rewrite !app_assoc.
  repeat split; try assumption.
  - intros ->. cbn in Hlen. lia.
  - intros ->. cbn in Hlen'. lia.
Qed.

Lemma parser_pytest_labelled (log : string) :
  map_Forall labelled_entry (parser_pytest log).
Proof.
  unfold parser_pytest.
  assert (Hall : Forall (fun caps => labelled_entry (Re.group 2 caps) (Re.group 1 caps))
                        (Re.finditer pytest_ptr log)).
  { apply Forall_forall. intros caps Hin.
    apply finditer_match in Hin as (prev0 & pre & a & b & caps' & _ & H & ->).
    apply pytest_ptr_match in H as (x & gap & name & _ & -> & _ & _ & Hne & Hline).
    cbn [Re.group Nat.eqb]. split; [exists x; reflexivity | auto]. }
  revert Hall. generalize (Re.finditer pytest_ptr log).
  intros l Hall.
  assert (Hgen : forall m : gmap string string, map_Forall labelled_entry m ->
                 map_Forall labelled_entry
                   (foldl (fun test_result_dict caps =>
                             <[Re.group 2 caps := Re.group 1 caps]> test_result_dict)
                          m l)).
  { induction Hall as [|caps l Hcaps Hall IH]; intros m Hm; [exact Hm|].
    cbn [foldl]. apply IH. apply map_Forall_insert_2; assumption. }
  apply Hgen, map_Forall_empty.
Qed.

(** X11.  The status-prefix pass of the generic parser records labels of the
    lexicon only, each for a non-empty name without a newline. *)
Theorem parser_pytest_entries (log : string) :
  map_Forall labelled_entry (parser_pytest log).
Proof. exact (parser_pytest_labelled log). Qed.

Lemma outcome_for_each_on {S A : Type} (P : S -> Prop) (Q : exn -> Prop)
    (body : S -> A -> result S) (l : list A) :
  (forall s x, x ∈ l -> P s -> outcome P Q (body s x)) ->
  forall s, P s -> outcome P Q (for_each body l s).
Proof.
  induction l as [|x l IH]; intros Hbody s Hs; [exact Hs|].
  cbn [for_each]. eapply outcome_bind.
  - apply Hbody; [left | exact Hs].
  - apply IH. intros s' y Hy. apply Hbody. right. exact Hy.
Qed.

(** One step of the second pass keeps what the dictionary holds, and adds
    entries of that shape only. *)
Lemma unittest_record_outcome (first d : gmap string string) (caps : Re.captures) :
  (exists st, dict_get UNITTEST_TO_PYTESTSTATUS (Re.group 2 caps) = Ok st) ->
  map_Forall unittest_entry d /\ first ⊆ d ->
  outcome (fun d' => map_Forall unittest_entry d' /\ first ⊆ d') (fun _ => False)
          (unittest_record d caps).
Proof.
  intros [st Hst] [Hd Hsub]. unfold unittest_record. cbv zeta.
  destruct (Str.contains "test" (Re.group 1 caps)) eqn:Htest; cbn [negb];
    [|split; assumption].
  destruct (bool_decide (is_Some (d !! Re.group 1 caps))) eqn:Hin;
    [split; assumption|].
  rewrite Hst. cbn [mbind result_bind outcome].
  apply bool_decide_eq_false in Hin. rewrite <- eq_None_not_Some in Hin.
  split.
  - apply map_Forall_insert_2; [|exact Hd]. split; [exact Htest | exists st; reflexivity].
  - etrans; [exact Hsub|]. apply insert_subseteq. exact Hin.
Qed.

Lemma unittest_loop_outcome (r : Re.regex) (log : string)
    (first d : gmap string string) :
  (forall caps, caps ∈ Re.finditer r log ->
     exists st, dict_get UNITTEST_TO_PYTESTSTATUS (Re.group 2 caps) = Ok st) ->
  map_Forall unittest_entry d /\ first ⊆ d ->
  outcome (fun d' => map_Forall unittest_entry d' /\ first ⊆ d') (fun _ => False)
          (for_each unittest_record (Re.finditer r log) d).
Proof.
  intros Hkeys Hd.
  apply (outcome_for_each_on
           (fun d' => map_Forall unittest_entry d' /\ first ⊆ d')); [|exact Hd].
  intros d' caps Hin Hd'. apply unittest_record_outcome; [apply Hkeys, Hin | exact Hd'].
Qed.

Lemma parser_unittest_outcome (log : string) :
  outcome (map_Forall unittest_entry) (fun _ => False) (parser_unittest log).
Proof.
  unfold parser_unittest.
  eapply outcome_bind.
  - apply (unittest_loop_outcome unittest_dots log ∅ ∅).
    + apply unittest_dots_group.
    + split; [apply map_Forall_empty | reflexivity].
  - intros d [Hd _]. cbv beta.
    eapply outcome_weaken.
    + apply (unittest_loop_outcome unittest_newline log ∅ d).
      * apply unittest_newline_group.
      * split; [exact Hd | apply map_empty_subseteq].
    + intros d' [Hd' _]. exact Hd'.
Qed.

(** X12.  The second pass of the generic parser raises on no log; the names it
    records have [test] in them and the statuses are labels of the
    lexicon. *)
Theorem parser_unittest_entries (log : string) :
  outcome (map_Forall unittest_entry) (fun _ => False) (parser_unittest log).
Proof. exact (parser_unittest_outcome log). Qed.

(** X13.  In the second pass, what the pattern with the dots has recorded is
    kept: the pattern with the newline only adds names that are new. *)
Theorem parser_unittest_dots_first (log : string) :
  exists d1 d,
    for_each unittest_record (Re.finditer unittest_dots log) ∅ = Ok d1
    /\ parser_unittest log = Ok d
    /\ forall name status, d1 !! name = Some status -> d !! name = Some status.
Proof.
  unfold parser_unittest.
  pose proof (unittest_loop_outcome unittest_dots log ∅ ∅
                (unittest_dots_group log)
                (conj (map_Forall_empty _) (reflexivity _))) as H1.
  destruct (for_each unittest_record (Re.finditer unittest_dots log) ∅)
    as [d1|e] eqn:E1; [|contradiction].
  destruct H1 as [Hd1 _]. cbn [mbind result_bind].
  pose proof (unittest_loop_outcome unittest_newline log d1 d1
                (unittest_newline_group log)
                (conj Hd1 (reflexivity _))) as H2.
  destruct (for_each unittest_record (Re.finditer unittest_newline log) d1)
    as [d|e] eqn:E2; [|contradiction].
  destruct H2 as [_ Hsub].
  exists d1, d. repeat split.
  intros name status Hname. eapply lookup_weaken; eassumption.
Qed.

(** X14.  The generic fallback parser raises on no log, and records labels of
    the lexicon only, each for a non-empty name. *)
Theorem swa_parser_entries (log : string) :
  outcome (map_Forall swa_entry) (fun _ => False) (swa_parser log).
Proof.
  unfold swa_parser. cbv zeta.
  eapply outcome_bind; [apply parser_unittest_outcome|].
  intros second Hsecond. cbn [outcome]. unfold dict_update.
  apply map_Forall_union_2.
  - apply map_Forall_lookup. intros name status H.
    apply map_lookup_filter_Some in H as [H _].
    destruct (Hsecond name status H) as [Htest Hcan].
    split; [exact Hcan|]. intros ->. discriminate.
  - eapply map_Forall_impl; [apply parser_pytest_labelled|].
    intros name status (Hcan & Hne & _). split; assumption.
Qed.

(** ** Names without options *)

Lemma split_nl_all_chars (p : ascii -> bool) (s : string) :
  all_chars p s = true -> Forall (fun l => all_chars p l = true) (Str.split nl s).
Proof.
  induction s as [|c s IH]; intros Hs; [repeat constructor|].
  cbn [all_chars] in Hs. apply andb_true_iff in Hs as [Hc Hs].
  specialize (IH Hs). rewrite split_nl_cons.
  destruct (Char.one "010"%char c).
  - constructor; [reflexivity | exact IH].
  - unfold Str.cons_head. destruct (Str.split nl s) as [|h t].
    + repeat constructor. cbn [all_chars]. rewrite Hc. reflexivity.
    + inversion IH as [|? ? Hh Ht]; subst. constructor; [|exact Ht].
      cbn [all_chars]. rewrite Hc, Hh. reflexivity.
Qed.

Lemma split_ws_all_chars (p : ascii -> bool) (s : string) :
  all_chars p s = true -> Forall (fun t => all_chars p t = true) (Str.split_ws s).
Proof.
  induction s as [|c s IH]; intros Hs; [constructor|].
  cbn [all_chars] in Hs. apply andb_true_iff in Hs as [Hc Hs].
  specialize (IH Hs). cbn [Str.split_ws].
  destruct (Char.isspace c); [exact IH|].
  assert (Hone : all_chars p (String c "") = true).
  { cbn [all_chars]. rewrite Hc. reflexivity. }
  destruct s as [|c' s']; [repeat constructor; exact Hone|].
  destruct (Char.isspace c'); [constructor; [exact Hone | exact IH]|].
  unfold Str.cons_head. destruct (Str.split_ws (String c' s')) as [|h t].
  - repeat constructor. exact Hone.
  - inversion IH as [|? ? Hh Ht]; subst. constructor; [|exact Ht].
    cbn [all_chars]. rewrite Hc, Hh. reflexivity.
Qed.

Lemma option_test_name_plain (token : string) :
  no_bracket token = true -> option_test_name token = Ok token.
Proof.
  intros Hno. pose proof (option_test_name_rule token) as H.
  destruct (Re.search option_pattern token) as [caps|]; [|exact H].
  cbv zeta in H. destruct H as [(pre & tail & E) _].
  unfold no_bracket in Hno. rewrite E in Hno.
  rewrite !all_chars_app in Hno.
  change (all_chars (Char.non (Char.one "["%char)) "[") with false in Hno.
  rewrite !andb_false_r, ?andb_false_l in Hno.
  repeat (rewrite ?andb_false_r, ?andb_false_l in Hno; cbn [andb] in Hno).
  discriminate.
Qed.

Lemma index_Forall {A : Type} (P : A -> Prop) (l : list A) (i : nat) (x : A) :
  Forall P l -> index l i = Ok x -> P x.
Proof.
  intros Hall H. unfold index in H.
  destruct (l !! i) as [y|] eqn:E; [|discriminate].
  injection H as <-. eapply Forall_lookup_1; eassumption.
Qed.

Lemma pytest_options_line_plain (m : gmap string string) (line : string) :
  no_bracket line = true -> pytest_options_line m line = pytest_line m line.
Proof.
  intros Hno. unfold pytest_options_line, pytest_line.
  destruct (starts_with_status line); [|reflexivity]. cbv zeta.
  match goal with |- context [Str.split_ws ?l] => set (line' := l) end.
  assert (Hno' : no_bracket line' = true).
  { subst line'. destruct (Str.startswith (value FAILED) line); [|exact Hno].
    apply replace_go_all_chars; [reflexivity | exact Hno]. }
  destruct (length (Str.split_ws line') <=? 1); [reflexivity|].
  destruct (index (Str.split_ws line') 1) as [token|e] eqn:E; [|reflexivity].
  cbn [mbind result_bind].
  rewrite option_test_name_plain; [reflexivity|].
  eapply (index_Forall (fun t => no_bracket t = true)); [|exact E].
  apply split_ws_all_chars, Hno'.
Qed.

Lemma for_each_ext_on {S A : Type} (body1 body2 : S -> A -> result S) (l : list A) :
  (forall s x, x ∈ l -> body1 s x = body2 s x) ->
  forall s, for_each body1 l s = for_each body2 l s.
Proof.
  induction l as [|x l IH]; intros H s; [reflexivity|].
  cbn [for_each]. rewrite (H s x) by left.
  destruct (body2 s x) as [s'|e]; [|reflexivity].
  cbn [mbind result_bind]. apply IH. intros s0 y Hy. apply H. right. exact Hy.
Qed.

(** X4.  On a log without an opening bracket the parser for names with options
    returns what the simple prefix parser returns. *)
Theorem parse_log_pytest_options_plain (log : string) :
  no_bracket log = true -> parse_log_pytest_options log = parse_log_pytest log.
Proof.
  intros Hno. unfold parse_log_pytest_options, parse_log_pytest.
  apply for_each_ext_on. intros m line Hin.
  apply pytest_options_line_plain.
  pose proof (split_nl_all_chars _ log Hno) as Hall.
  rewrite Forall_forall in Hall. apply Hall, Hin.
Qed.

(** X4 on a line with a path and no option. *)
Lemma parse_log_pytest_options_plain_witness :
  no_bracket "PASSED tests/test_a.py::test_one" = true
  /\ parse_log_pytest_options "PASSED tests/test_a.py::test_one"
     = parse_log_pytest "PASSED tests/test_a.py::test_one".
Proof.
  split; [reflexivity|].
  apply (parse_log_pytest_options_plain "PASSED tests/test_a.py::test_one").
  reflexivity.
Defined.

(** ** More on the normalizer *)

(** Where an expression matches at no place of a text, there is nothing
    to find and nothing to substitute. *)
Lemma finditer_go_none (r : Re.regex) (s : string) :
  (forall pre t prev, s = pre +:+ t -> Re.match_at r prev t = None) ->
  forall skip prev, Re.finditer_go r skip prev s = [].
Proof.
  induction s as [|c s IH]; intros Hno skip prev.
  - destruct skip; [|reflexivity]. cbn [Re.finditer_go].
    rewrite (Hno "" "" prev eq_refl). reflexivity.
  - assert (Hs : forall pre t prev, s = pre +:+ t -> Re.match_at r prev t = None).
    { intros pre t p ->. apply (Hno (String c pre)). reflexivity. }
    destruct skip as [|n]; cbn [Re.finditer_go].
    + rewrite (Hno "" (String c s) prev eq_refl). apply IH, Hs.
    + apply IH, Hs.
Qed.

Lemma sub_go_none (r : Re.regex) (repl s : string) :
  (forall pre t prev, s = pre +:+ t -> Re.match_at r prev t = None) ->
  forall prev, Re.sub_go r repl 0 prev s = s.
Proof.
  induction s as [|c s IH]; intros Hno prev.
  - cbn [Re.sub_go]. rewrite (Hno "" "" prev eq_refl). reflexivity.
  - cbn [Re.sub_go]. rewrite (Hno "" (String c s) prev eq_refl). f_equal.
    apply IH. intros pre t p ->. apply (Hno (String c pre)). reflexivity.
Qed.

Lemma contains_suffix (sub pre t : string) :
  Str.contains sub (pre +:+ t) = false -> Str.startswith sub t = false.
Proof.
  induction pre as [|c pre IH]; intros H.
  - rewrite app_nil_l in H. destruct t as [|c t]; [exact H|].
    rewrite contains_cons in H. apply orb_false_iff in H as [H _]. exact H.
  - rewrite app_cons, contains_cons in H. apply orb_false_iff in H as [_ H].
    apply IH, H.
Qed.

Lemma to_escape_start (prev : option ascii) (t : string) :
  Str.startswith ESC t = false -> Re.match_at to_escape prev t = None.
Proof.
  intros H. unfold Re.match_at, to_escape. cbn [Re.seq].
  rewrite exec_Cat, exec_Lit, H. reflexivity.
Qed.

Lemma address_at_start (t : string) :
  Str.startswith "0x" t = false -> address_at t = None.
Proof. intros H. unfold address_at. cbv zeta. rewrite H. reflexivity. Qed.

(** X15.  The normalizer leaves no text that the pattern of the addresses
    matches. *)
Theorem normalize_log_no_address (log : string) :
  Re.finditer memory_addr_regex (normalize_log log) = [].
Proof.
  unfold Re.finditer. apply finditer_go_none. intros pre t prev H.
  rewrite match_at_address.
  assert (Hno : no_address (normalize_log log)).
  { unfold normalize_log. apply narrow_summary_no_address, mask_addresses_no_address. }
  rewrite (Hno pre t H). reflexivity.
Qed.

(** X16.  A log without the escape character, without [0x] and without the
    banner of the summary is returned as it is. *)
Theorem normalize_log_plain (log : string) :
  Str.contains ESC log = false ->
  Str.contains "0x" log = false ->
  Str.contains SHORT_TEST_SUMMARY_SEPARATOR log = false ->
  normalize_log log = log.
Proof.
  intros Hesc Hhex Hsep. unfold normalize_log.
  assert (E1 : strip_escapes log = log).
  { unfold strip_escapes, Re.sub. apply sub_go_none. intros pre t prev ->.
    apply to_escape_start. eapply contains_suffix, Hesc. }
  rewrite E1.
  assert (E2 : mask_addresses log = log).
  { apply mask_fixed. intros pre t ->.
    apply address_at_start. eapply contains_suffix, Hhex. }
  rewrite E2. unfold narrow_summary. rewrite Hsep. reflexivity.
Qed.

(** X16 on a log of two lines. *)
Lemma normalize_log_plain_witness :
  let log := "PASSED test_a" +:+ nl +:+ "test_b ... ok" in
  Str.contains ESC log = false
  /\ Str.contains "0x" log = false
  /\ Str.contains SHORT_TEST_SUMMARY_SEPARATOR log = false
  /\ normalize_log log = log.
Proof.
  cbv zeta. split; [reflexivity|]. split; [reflexivity|]. split; [reflexivity|].
  apply (normalize_log_plain ("PASSED test_a" +:+ nl +:+ "test_b ... ok"));
    reflexivity.
Defined.

Lemma first_not_word_not_hex (t : string) :
  Re.isword_opt (Re.first_char t) = false ->
  match Re.first_char t with
  | Some c => Char.ishex c = false
  | None => True
  end.
Proof.
  destruct t as [|c t]; cbn [Re.first_char Re.isword_opt]; [auto|].
  intros H. destruct (Char.ishex c) eqn:Hc; [|reflexivity].
  apply ishex_isword in Hc. congruence.
Qed.

(** The masking passes a run of digits that no [0x] precedes. *)
Lemma mask_digits (h rest : string) :
  all_chars Char.ishex h = true ->
  Re.isword_opt (Re.first_char rest) = false ->
  mask_addresses (h +:+ rest) = h +:+ mask_addresses rest.
Proof.
  intros Hh Hrest. induction h as [|c h IH]; [reflexivity|].
  cbn [all_chars] in Hh. apply andb_true_iff in Hh as [Hc Hh].
  rewrite app_cons. unfold mask_addresses at 1, Re.sub.
  rewrite mask_other; [rewrite (IH Hh); reflexivity|].
  apply address_at_start. rewrite startswith_cons.
  destruct (Ascii.eqb "0" c); [|reflexivity]. cbn [andb].
  destruct h as [|c' h].
  - rewrite app_nil_l. destruct rest as [|r rest]; [reflexivity|].
    rewrite startswith_cons.
    destruct (Ascii.eqb "x" r) eqn:Hx; [|reflexivity].
    apply Ascii.eqb_eq in Hx. subst r. discriminate Hrest.
  - rewrite app_cons, startswith_cons.
    cbn [all_chars] in Hh. apply andb_true_iff in Hh as [Hc' _].
    destruct (Ascii.eqb "x" c') eqn:Hx; [|reflexivity].
    apply Ascii.eqb_eq in Hx. subst c'. discriminate Hc'.
Qed.

(** X17.  The masking at [0x] and a run of digits that ends at a word boundary:
    a run of 8 or of 16 digits is replaced, with its [0x], by the
    placeholder; a run of another length is left as it is. *)
Theorem mask_addresses_width (h rest : string) :
  all_chars Char.ishex h = true ->
  Re.isword_opt (Re.first_char rest) = false ->
  mask_addresses ("0x" +:+ h +:+ rest)
  = if (Str.len h =? 8) || (Str.len h =? 16)
    then "0xXXXXXXXXX" +:+ mask_addresses rest
    else "0x" +:+ h +:+ mask_addresses rest.
Proof.
  intros Hh Hrest.
  destruct (hex_parts_unique h rest Hh (first_not_word_not_hex rest Hrest)) as [Ht Hs].
  assert (Haddr : address_at ("0x" +:+ h +:+ rest)
                  = if (Str.len h =? 8) || (Str.len h =? 16)
                    then Some rest else None).
  { unfold address_at. cbv zeta.
    change (Str.drop 2 ("0x" +:+ h +:+ rest)) with (h +:+ rest).
    change (Str.startswith "0x" ("0x" +:+ h +:+ rest)) with true.
    rewrite Ht, Hs, Hrest. cbn [andb negb].
    destruct ((Str.len h =? 8) || (Str.len h =? 16)); reflexivity. }
  destruct ((Str.len h =? 8) || (Str.len h =? 16)).
  - unfold mask_addresses at 1, Re.sub. fold placeholder.
    rewrite (mask_address _ _ _ Haddr). reflexivity.
  - change ("0x" +:+ h +:+ rest) with (String "0"%char (String "x"%char (h +:+ rest))) in *.
    unfold mask_addresses at 1, Re.sub. fold placeholder.
    rewrite (mask_other _ _ _ Haddr).
    unfold mask_addresses at 1, Re.sub. fold placeholder.
    rewrite mask_other by reflexivity.
    rewrite (mask_digits h rest Hh Hrest). reflexivity.
Qed.

(** X17 on an address of twelve digits. *)
Lemma mask_addresses_width_witness :
  all_chars Char.ishex "7f12ab34cd56" = true
  /\ Re.isword_opt (Re.first_char ">") = false
  /\ mask_addresses ("0x" +:+ "7f12ab34cd56" +:+ ">")
     = "0x" +:+ "7f12ab34cd56" +:+ mask_addresses ">".
Proof.
  split; [reflexivity|]. split; [reflexivity|].
  apply (mask_addresses_width "7f12ab34cd56" ">"); reflexivity.
Defined.
